(** * psybik: the cube transformation core of [src/main.js]

    A shallow embedding of the turn engine, the layer selector, the move
    history with Assemble, the closeness estimator and the drag-to-move
    translation of the 3x3x3 cube game.

    Numbers.  JavaScript numbers are modelled by the rationals in canonical
    form ([Qc]), with exact arithmetic: a coordinate such as [0.4] or a
    threshold such as [0.18] is a rational, [Math.round] is
    [floor (x + 1/2)].  Floating-point rounding error is not computed.
    Where a property depends on it (the positions that [Math.round] keeps on
    the lattice, the orientations that nothing rounds) the turn is taken once
    more with the result of the double arithmetic as a parameter, in the
    section on double precision.  Where two orientations are compared
    elsewhere, it is the rotations of exact arithmetic that are compared.

    Three.js.  The library is not part of the repository.  Its operations are
    modelled by what they denote: a vector is a triple, and the orientation
    that Three.js keeps as a unit quaternion is kept as the rotation that this
    quaternion denotes, a 3x3 matrix whose columns are the images of the local
    basis vectors (what [applyQuaternion] returns on them).

    Scope.  The renderer, the textures, the camera controls and the text of
    the page are left out; what a handler does to them is not modelled.

    Time.  A turn is animated over several frames; nothing but the rotation
    group moves during the animation, so the model performs the completion
    step right after the start of the turn.  The two halves are kept apart
    ([startTurn], [completeTurn]) so that a state with a turn in flight can
    be written down. *)

From Stdlib Require Import ZArith QArith Qcanon Qround List Bool Lia Lqa
  Permutation.
Import ListNotations.

Open Scope Qc_scope.

(** ** JavaScript numbers and [Math] *)

Definition ofZ (n : Z) : Qc := Q2Qc (inject_Z n).

Definition ltb (a b : Qc) : bool := negb (Qle_bool b a).
Definition leb (a b : Qc) : bool := Qle_bool a b.

Definition Math_abs (v : Qc) : Qc := if ltb v 0 then - v else v.
Definition Math_max (a b : Qc) : Qc := if ltb a b then b else a.
Definition Math_min (a b : Qc) : Qc := if ltb b a then b else a.

(** [Math.round]: the nearest integer, halves going up. *)
Definition Math_round (v : Qc) : Z := Qfloor (this v + (1 # 2))%Q.

(** [Math.sign(v) || 1]: zero is falsy, so it yields [1]. *)
Definition Math_sign_or_1 (v : Qc) : Z := if ltb v 0 then (-1)%Z else 1%Z.

(** ** The part of Three.js the core uses *)

Module Three.

Record Vector3 : Type := mkVector3 { x : Qc; y : Qc; z : Qc }.

Definition sub (a b : Vector3) : Vector3 :=
  mkVector3 (x a - x b) (y a - y b) (z a - z b).

Definition dot (a b : Vector3) : Qc :=
  x a * x b + y a * y b + z a * z b.

(** The rotation a quaternion denotes, row by row. *)
Record Rotation : Type := mkRotation {
  m11 : Qc; m12 : Qc; m13 : Qc;
  m21 : Qc; m22 : Qc; m23 : Qc;
  m31 : Qc; m32 : Qc; m33 : Qc }.

(** The quaternion of a fresh [Object3D]. *)
Definition identity : Rotation :=
  mkRotation 1 0 0
             0 1 0
             0 0 1.

(** [v.applyQuaternion(q)]. *)
Definition applyQuaternion (v : Vector3) (q : Rotation) : Vector3 :=
  mkVector3 (m11 q * x v + m12 q * y v + m13 q * z v)
            (m21 q * x v + m22 q * y v + m23 q * z v)
            (m31 q * x v + m32 q * y v + m33 q * z v).

(** [a.multiply(b)]: first [b], then [a]. *)
Definition multiply (a b : Rotation) : Rotation :=
  mkRotation
    (m11 a * m11 b + m12 a * m21 b + m13 a * m31 b)
    (m11 a * m12 b + m12 a * m22 b + m13 a * m32 b)
    (m11 a * m13 b + m12 a * m23 b + m13 a * m33 b)
    (m21 a * m11 b + m22 a * m21 b + m23 a * m31 b)
    (m21 a * m12 b + m22 a * m22 b + m23 a * m32 b)
    (m21 a * m13 b + m22 a * m23 b + m23 a * m33 b)
    (m31 a * m11 b + m32 a * m21 b + m33 a * m31 b)
    (m31 a * m12 b + m32 a * m22 b + m33 a * m32 b)
    (m31 a * m13 b + m32 a * m23 b + m33 a * m33 b).

(** Cosine and sine of [k] quarter turns, [k * PI / 2]. *)
Definition cosQuarter (k : Z) : Qc :=
  match (k mod 4)%Z with
  | 0%Z => 1
  | 2%Z => - (1)
  | _ => 0
  end.

Definition sinQuarter (k : Z) : Qc :=
  match (k mod 4)%Z with
  | 1%Z => 1
  | 3%Z => - (1)
  | _ => 0
  end.

(** [new Quaternion().setFromAxisAngle(n, k * PI / 2)], as the rotation it
    denotes.  With [q = (n sin(a/2), cos(a/2))] the entries that
    [makeRotationFromQuaternion] builds, [1 - 2(qy^2 + qz^2)],
    [2(qx qy - qw qz)] and so on, are written with [cos a] and [sin a]:
    [2 sin^2(a/2) = 1 - cos a] and [2 sin(a/2) cos(a/2) = sin a]. *)
Definition setFromAxisAngle (n : Vector3) (k : Z) : Rotation :=
  let c := cosQuarter k in
  let s := sinQuarter k in
  let t := 1 - c in
  mkRotation
    (1 - (y n * y n + z n * z n) * t)
    (x n * y n * t - z n * s)
    (x n * z n * t + y n * s)
    (x n * y n * t + z n * s)
    (1 - (x n * x n + z n * z n) * t)
    (y n * z n * t - x n * s)
    (x n * z n * t - y n * s)
    (y n * z n * t + x n * s)
    (1 - (x n * x n + y n * y n) * t).

End Three.

Import Three.

(** ** Data model *)

Inductive Axis : Type := AxisX | AxisY | AxisZ.

(** [v[axis]]. *)
Definition component (v : Vector3) (axis : Axis) : Qc :=
  match axis with
  | AxisX => x v
  | AxisY => y v
  | AxisZ => z v
  end.

(** A cubelet mesh: [position], [quaternion] and [userData.home]. *)
Record Cubelet : Type := mkCubelet {
  position : Vector3;
  quaternion : Rotation;
  home : Vector3 }.

(** An entry of [moveHistory]: [{ axis, sign, cw, quarters }]. *)
Record Move : Type := mkMove {
  axis : Axis;
  sign : Z;
  cw : bool;
  quarters : Z }.

Inductive Mode : Type := idle | setup | play.

Definition Mode_eqb (a b : Mode) : bool :=
  match a, b with
  | idle, idle | setup, setup | play, play => true
  | _, _ => false
  end.

(** [dragInfo]; the [normal] and [plane] fields serve the ray casting only. *)
Record DragInfo : Type := mkDragInfo {
  d_axis : Axis;
  d_sign : Z;
  startPoint : Vector3;
  uVec : Vector3;
  vVec : Vector3 }.

(** The variables of [init]'s closure that the handlers share. *)
Record State : Type := mkState {
  cubelets : list Cubelet;
  isPointerDown : bool;
  dragInfo : option DragInfo;
  isTurning : bool;
  moveHistory : list Move;
  mode : Mode;
  setupCount : Z;
  setupSequence : list Move }.

Definition set_cubelets (cs : list Cubelet) (s : State) : State :=
  mkState cs (isPointerDown s) (dragInfo s) (isTurning s) (moveHistory s)
          (mode s) (setupCount s) (setupSequence s).

Definition set_pointer (down : bool) (d : option DragInfo) (s : State) : State :=
  mkState (cubelets s) down d (isTurning s) (moveHistory s)
          (mode s) (setupCount s) (setupSequence s).

Definition set_isTurning (b : bool) (s : State) : State :=
  mkState (cubelets s) (isPointerDown s) (dragInfo s) b (moveHistory s)
          (mode s) (setupCount s) (setupSequence s).

Definition set_moveHistory (h : list Move) (s : State) : State :=
  mkState (cubelets s) (isPointerDown s) (dragInfo s) (isTurning s) h
          (mode s) (setupCount s) (setupSequence s).

Definition set_mode (m : Mode) (s : State) : State :=
  mkState (cubelets s) (isPointerDown s) (dragInfo s) (isTurning s)
          (moveHistory s) m (setupCount s) (setupSequence s).

Definition set_setup (n : Z) (sq : list Move) (s : State) : State :=
  mkState (cubelets s) (isPointerDown s) (dragInfo s) (isTurning s)
          (moveHistory s) (mode s) n sq.

(** ** Helpers of [main.js] *)

Definition roundedIndex (value : Qc) : Z :=
  let v := Math_round value in
  if (v <? -1)%Z then (-1)%Z
  else if (v >? 1)%Z then 1%Z
  else v.

Definition axisOfVector (v : Vector3) : Axis :=
  let ax := Math_abs (x v) in
  let ay := Math_abs (y v) in
  let az := Math_abs (z v) in
  if ltb ay ax && ltb az ax then AxisX
  else if ltb ax ay && ltb az ay then AxisY
  else AxisZ.

Definition signOfAxis (v : Vector3) (a : Axis) : Z :=
  Math_sign_or_1 (component v a).

Definition vectorForAxis (a : Axis) (sg : Z) : Vector3 :=
  match a with
  | AxisX => mkVector3 (ofZ sg) 0 0
  | AxisY => mkVector3 0 (ofZ sg) 0
  | AxisZ => mkVector3 0 0 (ofZ sg)
  end.

(** ** The cubelet registry *)

Definition indices : list Z := [-1; 0; 1]%Z.

(** The three nested loops of [buildSolvedCube], [xi] outermost. *)
Definition buildSolvedCube : list Cubelet :=
  flat_map (fun xi =>
    flat_map (fun yi =>
      map (fun zi =>
        let p := mkVector3 (ofZ xi) (ofZ yi) (ofZ zi) in
        mkCubelet p identity p) indices) indices) indices.

(** ** Layer selection *)

Definition inLayer (a : Axis) (sg : Z) (c : Cubelet) : bool :=
  (roundedIndex (component (position c) a) =? sg)%Z.

Definition selectLayer (a : Axis) (sg : Z) (cs : list Cubelet) : list Cubelet :=
  filter (inLayer a sg) cs.

(** ** The turn engine *)

Definition snapToGrid (object : Cubelet) : Cubelet :=
  mkCubelet
    (mkVector3 (ofZ (Math_round (x (position object))))
               (ofZ (Math_round (y (position object))))
               (ofZ (Math_round (z (position object)))))
    (quaternion object)
    (home object).

(** [targetAngle], counted in quarter turns. *)
Definition targetQuarters (clockwise : bool) (q : Z) : Z :=
  ((if clockwise then -1 else 1) * Z.max 1 q)%Z.

(** What [cubeRoot.attach(c)] leaves in a cubelet that sat in the rotation
    group: the group's rotation applied to its position about the cube centre
    and composed in front of its orientation. *)
Definition detachPreserve (endQuat : Rotation) (c : Cubelet) : Cubelet :=
  mkCubelet (applyQuaternion (position c) endQuat)
            (multiply endQuat (quaternion c))
            (home c).

(** One cubelet through a turn of the layer [(a, sg)]: a cubelet of the
    selected layer is rotated with the group and snapped, any other is left
    alone. *)
Definition turnCubelet (a : Axis) (sg : Z) (endQuat : Rotation) (c : Cubelet)
    : Cubelet :=
  if inLayer a sg c then snapToGrid (detachPreserve endQuat c) else c.

Definition turnCubelets (m : Move) (cs : list Cubelet) : list Cubelet :=
  let turnAxis := vectorForAxis (axis m) (sign m) in
  let endQuat := setFromAxisAngle turnAxis (targetQuarters (cw m) (quarters m)) in
  map (turnCubelet (axis m) (sign m) endQuat) cs.

Definition startTurn (s : State) : State := set_isTurning true s.

Definition completeTurn (m : Move) (record : bool) (s : State) : State :=
  let s1 := set_cubelets (turnCubelets m (cubelets s)) s in
  let s2 :=
    if record then
      let s' := set_moveHistory (moveHistory s1 ++ [m]) s1 in
      if Mode_eqb (mode s') setup
      then set_setup (setupCount s' + 1)%Z (setupSequence s' ++ [m]) s'
      else s'
    else s1 in
  set_isTurning false s2.

Definition animateTurn (m : Move) (record : bool) (s : State) : State :=
  if isTurning s then s
  else completeTurn m record (startTurn s).

(** ** Gestures *)

(** What the ray caster and [computeFaceBasis] hand to [onPointerDown]. *)
Record Pick : Type := mkPick {
  faceNormal : Vector3;
  pickPoint : Vector3;
  pick_u : Vector3;
  pick_v : Vector3 }.

Definition onPointerDown (hit : option Pick) (s : State) : State :=
  if isTurning s then s
  else match hit with
       | None => set_pointer false (dragInfo s) s
       | Some h =>
           let a := axisOfVector (faceNormal h) in
           let sg := Math_sign_or_1 (component (faceNormal h) a) in
           set_pointer true
             (Some (mkDragInfo a sg (pickPoint h) (pick_u h) (pick_v h))) s
       end.

(** [0.18]; the double that the program compares with is smaller by about
    7e-18. *)
Definition threshold : Qc := Q2Qc (18 # 100).

(** [endPoint] is what [planeIntersectionPoint] returns at the release; it
    always returns its vector, as it did for [startPoint]. *)
Definition onPointerUp (endPoint : Vector3) (s : State) : State :=
  match isPointerDown s, dragInfo s with
  | true, Some d =>
      let s1 := set_pointer false None s in
      let move := sub endPoint (startPoint d) in
      let du := dot move (uVec d) in
      let dv := dot move (vVec d) in
      let adu := Math_abs du in
      let adv := Math_abs dv in
      if ltb (Math_max adu adv) threshold then s1
      else
        let clockwise := if leb adv adu then ltb 0 du else ltb dv 0 in
        animateTurn (mkMove (d_axis d) (d_sign d) clockwise 1) true s1
  | _, _ => s
  end.

Definition onDoubleClick (hit : option Vector3) (s : State) : State :=
  if isTurning s then s
  else match hit with
       | None => s
       | Some n =>
           let a := axisOfVector n in
           let sg := Math_sign_or_1 (component n a) in
           animateTurn (mkMove a sg true 2) true s
       end.

(** ** Closeness *)

Definition epsilon : Qc := Q2Qc (1 # 1000).

Definition nearUnit (v : Qc) : bool := ltb (Math_abs (Math_abs v - 1)) epsilon.

Definition isCore (c : Cubelet) : bool :=
  Qc_eq_bool (x (home c)) 0 && Qc_eq_bool (y (home c)) 0
  && Qc_eq_bool (z (home c)) 0.

Definition posOk (c : Cubelet) : bool :=
  ltb (Math_abs (x (position c) - x (home c))) epsilon
  && ltb (Math_abs (y (position c) - y (home c))) epsilon
  && ltb (Math_abs (z (position c) - z (home c))) epsilon.

Definition aligned (c : Cubelet) : bool :=
  let xAxis := applyQuaternion (mkVector3 1 0 0) (quaternion c) in
  let yAxis := applyQuaternion (mkVector3 0 1 0) (quaternion c) in
  let zAxis := applyQuaternion (mkVector3 0 0 1) (quaternion c) in
  (nearUnit (x xAxis) || nearUnit (y xAxis) || nearUnit (z xAxis))
  && (nearUnit (x yAxis) || nearUnit (y yAxis) || nearUnit (z yAxis))
  && (nearUnit (x zAxis) || nearUnit (y zAxis) || nearUnit (z zAxis)).

(** The loop of [computeCloseness]: [(correct, total)]. *)
Definition closenessCounts (cs : list Cubelet) : Z * Z :=
  fold_left (fun acc c =>
               if isCore c then acc
               else (if posOk c && aligned c then (fst acc + 1)%Z else fst acc,
                     (snd acc + 1)%Z))
            cs (0%Z, 0%Z).

Definition computeCloseness (s : State) : Qc :=
  let (correct, total) := closenessCounts (cubelets s) in
  if (total =? 0)%Z then 1
  else Math_max 0 (Math_min 1 (ofZ correct / ofZ total)).

(** ** Buttons *)

Definition inverse (m : Move) : Move :=
  mkMove (axis m) (sign m) (negb (cw m)) (quarters m).

(** The [for] loop of the Assemble handler, [i] entries still to undo. *)
Fixpoint solveLoop (i : nat) (s : State) : State :=
  match i with
  | O => s
  | S j =>
      match nth_error (moveHistory s) j with
      | Some m => solveLoop j (animateTurn (inverse m) false s)
      | None => s
      end
  end.

Definition btnSolve (s : State) : State :=
  if isTurning s || (length (moveHistory s) =? 0)%nat then s
  else
    let s1 := set_mode play s in
    let s2 := solveLoop (length (moveHistory s1)) s1 in
    set_moveHistory [] s2.

Definition btnReset (s : State) : State :=
  if isTurning s then s
  else set_setup 0 [] (set_moveHistory [] (set_cubelets buildSolvedCube s)).

Definition btnSetup (s : State) : State :=
  if isTurning s then s
  else if negb (Mode_eqb (mode s) setup)
       then set_moveHistory [] (set_setup 0 [] (set_mode setup s))
       else set_mode idle s.

Definition btnPlay (s : State) : State :=
  if isTurning s then s else set_mode play s.

(** The six entries of [faces] in the Scramble handler. *)
Inductive Face : Type := faceR | faceL | faceU | faceD | faceF | faceB.

Definition faces (f : Face) : Axis * Z :=
  match f with
  | faceR => (AxisX, 1%Z)
  | faceL => (AxisX, (-1)%Z)
  | faceU => (AxisY, 1%Z)
  | faceD => (AxisY, (-1)%Z)
  | faceF => (AxisZ, 1%Z)
  | faceB => (AxisZ, (-1)%Z)
  end.

(** The Scramble loop; [draws i] is what the two calls of [Math.random]
    select in round [i]: the face and the direction. *)
Fixpoint scrambleLoop (n : nat) (i : nat) (draws : nat -> Face * bool)
    (s : State) : State :=
  match n with
  | O => s
  | S n' =>
      let (f, clockwise) := draws i in
      let (a, sg) := faces f in
      scrambleLoop n' (S i) draws (animateTurn (mkMove a sg clockwise 1) true s)
  end.

Definition btnScramble (draws : nat -> Face * bool) (s : State) : State :=
  if isTurning s then s
  else scrambleLoop 20 0 draws (set_moveHistory [] s).

(** The state [init] leaves behind. *)
Definition initialState : State :=
  mkState buildSolvedCube false None false [] idle 0%Z [].

(** ** Event sequences *)

Inductive Event : Type :=
| pointerdown (hit : option Pick)
| pointerup (endPoint : Vector3)
| dblclick (hit : option Vector3)
| clickScramble (draws : nat -> Face * bool)
| clickReset
| clickSolve
| clickSetup
| clickPlay
| turnRequest (m : Move) (record : bool).

Definition handle (e : Event) (s : State) : State :=
  match e with
  | pointerdown hit => onPointerDown hit s
  | pointerup endPoint => onPointerUp endPoint s
  | dblclick hit => onDoubleClick hit s
  | clickScramble draws => btnScramble draws s
  | clickReset => btnReset s
  | clickSolve => btnSolve s
  | clickSetup => btnSetup s
  | clickPlay => btnPlay s
  | turnRequest m record => animateTurn m record s
  end.

Definition run (events : list Event) (s : State) : State :=
  fold_left (fun st e => handle e st) events s.

(** A sequence of turns, each requested with [record = true]. *)
Definition recordedTurns (ms : list Move) (s : State) : State :=
  fold_left (fun st m => animateTurn m true st) ms s.

(** The states the Assemble loop goes through, the one it starts from
    first. *)
Fixpoint solveTrace (i : nat) (s : State) : list State :=
  s :: match i with
       | O => []
       | S j =>
           match nth_error (moveHistory s) j with
           | Some m => solveTrace j (animateTurn (inverse m) false s)
           | None => []
           end
       end.

(** ** Vocabulary of the properties *)

Definition Vector3_eqb (a b : Vector3) : bool :=
  Qc_eq_bool (x a) (x b) && Qc_eq_bool (y a) (y b) && Qc_eq_bool (z a) (z b).

Definition entries (q : Rotation) : list Qc :=
  [m11 q; m12 q; m13 q; m21 q; m22 q; m23 q; m31 q; m32 q; m33 q].

Definition Rotation_eqb (a b : Rotation) : bool :=
  Qc_eq_bool (m11 a) (m11 b) && Qc_eq_bool (m12 a) (m12 b)
  && Qc_eq_bool (m13 a) (m13 b) && Qc_eq_bool (m21 a) (m21 b)
  && Qc_eq_bool (m22 a) (m22 b) && Qc_eq_bool (m23 a) (m23 b)
  && Qc_eq_bool (m31 a) (m31 b) && Qc_eq_bool (m32 a) (m32 b)
  && Qc_eq_bool (m33 a) (m33 b).

Definition transpose (q : Rotation) : Rotation :=
  mkRotation (m11 q) (m21 q) (m31 q)
             (m12 q) (m22 q) (m32 q)
             (m13 q) (m23 q) (m33 q).

Definition determinant (q : Rotation) : Qc :=
  m11 q * (m22 q * m33 q - m23 q * m32 q)
  - m12 q * (m21 q * m33 q - m23 q * m31 q)
  + m13 q * (m21 q * m32 q - m22 q * m31 q).

Definition isUnitEntry (v : Qc) : bool :=
  Qc_eq_bool v 0 || Qc_eq_bool v 1 || Qc_eq_bool v (- (1)).

(** A rotation by multiples of 90 degrees about the coordinate axes: an
    orthogonal matrix of determinant 1 whose entries are 0, 1 or -1. *)
Definition isQuarterRotation (q : Rotation) : bool :=
  forallb isUnitEntry (entries q)
  && Rotation_eqb (multiply (transpose q) q) identity
  && Qc_eq_bool (determinant q) 1.

(** The 27 points of the lattice {-1,0,1}^3. *)
Definition lattice : list Vector3 :=
  flat_map (fun a =>
    flat_map (fun b =>
      map (fun c => mkVector3 (ofZ a) (ofZ b) (ofZ c)) indices) indices) indices.

Definition integral (v : Qc) : Prop := ofZ (Math_round v) = v.

Definition integralPosition (p : Vector3) : Prop :=
  integral (x p) /\ integral (y p) /\ integral (z p).

(** A rest state: no turn is in flight and every cubelet sits on a point with
    integer coordinates. *)
Definition atRest (s : State) : Prop :=
  isTurning s = false /\
  Forall (fun c => integralPosition (position c)) (cubelets s).

(** The closeness count as the comment of [computeCloseness] words it: a
    cubelet counts when it is in its home position and orientation. *)
Definition homeCorrect (c : Cubelet) : bool :=
  Vector3_eqb (position c) (home c) && Rotation_eqb (quaternion c) identity.

Definition homeCounts (cs : list Cubelet) : Z * Z :=
  fold_left (fun acc c =>
               if isCore c then acc
               else (if homeCorrect c then (fst acc + 1)%Z else fst acc,
                     (snd acc + 1)%Z))
            cs (0%Z, 0%Z).

(** ** Sample states *)

(** The solved cube after the right face is turned clockwise once. *)
Definition rightFaceTurned : State :=
  animateTurn (mkMove AxisX 1 true 1) true initialState.

(** A cubelet of the right layer that has drifted: its position is a little
    off the lattice point (1, 0, 1) and its orientation is tilted about [z]
    by a small angle, with cosine 9999/10001 and sine 200/10001. *)
Definition driftedCubelet : Cubelet :=
  let c := Q2Qc (9999 # 10001) in
  let s := Q2Qc (200 # 10001) in
  mkCubelet (mkVector3 (Q2Qc (51 # 50)) 0 (Q2Qc (49 # 50)))
            (mkRotation c (- s) 0
                        s c 0
                        0 0 1)
            (mkVector3 1 0 1).

Definition driftedState : State := set_cubelets [driftedCubelet] initialState.

(** A cubelet two units out along [x], beyond the lattice. *)
Definition strayCubelet : Cubelet :=
  mkCubelet (mkVector3 (ofZ 2) 0 0) identity (mkVector3 1 0 0).

(** A drag in progress on the front face, picked at its centre. *)
Definition frontDrag : DragInfo :=
  mkDragInfo AxisZ 1 (mkVector3 0 0 1) (mkVector3 1 0 0) (mkVector3 0 1 0).

Definition draggingState : State := set_pointer true (Some frontDrag) initialState.

(** ** Finite checks *)

(** The rotations of the cube: a rotation about [x] after one of the six
    ways to choose the image of the [x] axis. *)
Definition cubeRotations : list Rotation :=
  let ex := mkVector3 1 0 0 in
  let ey := mkVector3 0 1 0 in
  let ez := mkVector3 0 0 1 in
  flat_map (fun g =>
              map (fun k => multiply (setFromAxisAngle ex k) g) [0; 1; 2; 3]%Z)
           [identity; setFromAxisAngle ey 1; setFromAxisAngle ey 2;
            setFromAxisAngle ey 3; setFromAxisAngle ez 1; setFromAxisAngle ez 3].

(** What every turn keeps: the cubelets occupy the lattice, one per point,
    and each orientation is a rotation of the cube. *)
Definition cubeInvariant (cs : list Cubelet) : Prop :=
  Permutation (map position cs) lattice /\
  Forall (fun c => In (quaternion c) cubeRotations) cs.

Definition memRotation (q : Rotation) (l : list Rotation) : bool :=
  existsb (Rotation_eqb q) l.

Fixpoint remove1 (v : Vector3) (l : list Vector3) : option (list Vector3) :=
  match l with
  | [] => None
  | w :: l' =>
      if Vector3_eqb v w then Some l'
      else match remove1 v l' with
           | Some r => Some (w :: r)
           | None => None
           end
  end.

Fixpoint permb (l1 l2 : list Vector3) : bool :=
  match l1 with
  | [] => match l2 with [] => true | _ :: _ => false end
  | v :: l1' =>
      match remove1 v l2 with
      | Some l2' => permb l1' l2'
      | None => false
      end
  end.

(** The turns up to what the rotation depends on: the axis, a layer index
    that [roundedIndex] can return, and the angle modulo a full turn. *)
Definition quarterTurns : list (Axis * Z * Z) :=
  list_prod (list_prod [AxisX; AxisY; AxisZ] indices) [0; 1; 2; 3]%Z.

Definition turnRotation (a : Axis) (sg k : Z) : Rotation :=
  setFromAxisAngle (vectorForAxis a sg) k.

Definition turnPosition (a : Axis) (sg k : Z) (p : Vector3) : Vector3 :=
  position (turnCubelet a sg (turnRotation a sg k) (mkCubelet p identity p)).

Definition rowIsAxis (a : Axis) (q : Rotation) : bool :=
  match a with
  | AxisX => Qc_eq_bool (m11 q) 1 && Qc_eq_bool (m12 q) 0 && Qc_eq_bool (m13 q) 0
  | AxisY => Qc_eq_bool (m21 q) 0 && Qc_eq_bool (m22 q) 1 && Qc_eq_bool (m23 q) 0
  | AxisZ => Qc_eq_bool (m31 q) 0 && Qc_eq_bool (m32 q) 0 && Qc_eq_bool (m33 q) 1
  end.

(** [f] holds of every turn of [quarterTurns]. *)
Definition forEachTurn (f : Axis -> Z -> Z -> bool) : bool :=
  forallb (fun t => f (fst (fst t)) (snd (fst t)) (snd t)) quarterTurns.

(** ** More of [main.js], and the vocabulary of its properties *)

(** The move the Scramble loop requests for one pair of draws. *)
Definition scrambleMove (d : Face * bool) : Move :=
  let (f, clockwise) := d in
  let (a, sg) := faces f in
  mkMove a sg clockwise 1.

(** The twenty moves of one Scramble, in the order they are requested. *)
Definition scrambleMoves (draws : nat -> Face * bool) : list Move :=
  map (fun i => scrambleMove (draws i)) (seq 0 20).

(** [updateProgressUI]: the percentage it writes in the progress panel. *)
Definition updateProgressUI (s : State) : Z :=
  let p := if Mode_eqb (mode s) play then computeCloseness s else 0 in
  Math_round (p * ofZ 100).

(** A move as the gestures and the Scramble button make them. *)
Definition wellFormedMove (m : Move) : Prop :=
  (sign m = 1 \/ sign m = -1)%Z /\ (quarters m = 1 \/ quarters m = 2)%Z.

(** The events a user can cause; [turnRequest] stands for a direct call. *)
Definition isUserEvent (e : Event) : bool :=
  match e with
  | turnRequest _ _ => false
  | _ => true
  end.

(** [f] holds of every pair of turns of the same layer. *)
Definition forEachTurnPair (f : Axis -> Z -> Z -> Z -> bool) : bool :=
  forallb (fun t => f (fst (fst (fst t))) (snd (fst (fst t))) (snd (fst t))
                      (snd t))
          (list_prod quarterTurns [0; 1; 2; 3]%Z).

(** The solved cube after a quarter turn of the top face that was not
    recorded: the cube is not solved and the history is empty. *)
Definition unrecordedTurnState : State :=
  animateTurn (mkMove AxisY 1 false 1) false initialState.

(** An event whose turn request, if it is one, asks for a move that [ok]
    accepts. *)
Definition eventOk (ok : Move -> Prop) (e : Event) : Prop :=
  match e with
  | turnRequest m _ => ok m
  | _ => True
  end.

(** The setup counter counts the setup sequence. *)
Definition counted (s : State) : Prop :=
  setupCount s = Z.of_nat (length (setupSequence s)).

(** Every recorded move is well formed, and so is the drag in progress. *)
Definition tidy (s : State) : Prop :=
  Forall wellFormedMove (moveHistory s)
  /\ Forall wellFormedMove (setupSequence s)
  /\ (forall d, dragInfo s = Some d -> (d_sign d = 1 \/ d_sign d = -1)%Z).

(** ** Stickers *)

(** [FACE_TO_INDEX]: the slot of a face among the six materials of a box. *)
Definition FACE_TO_INDEX (f : Face) : nat :=
  match f with
  | faceR => 0
  | faceL => 1
  | faceU => 2
  | faceD => 3
  | faceF => 4
  | faceB => 5
  end.

(** A sticker material: the face image it is cut from and the tile, column
    and row counted from the bottom left. *)
Record Sticker : Type := mkSticker { stickerFace : Face; col : Z; row : Z }.

(** [tex.offset] and [tex.repeat] of [makeStickerTextureFromBase]. *)
Definition makeStickerTextureFromBase (c r : Z) : (Qc * Qc) * (Qc * Qc) :=
  ((ofZ c / ofZ 3, ofZ r / ofZ 3), (1 / ofZ 3, 1 / ofZ 3)).

(** [materials[faceIndex] = mat], for an index within the array. *)
Fixpoint setMaterial {A : Type} (faceIndex : nat) (mat : A) (materials : list A)
    : list A :=
  match materials, faceIndex with
  | [], _ => []
  | _ :: rest, O => mat :: rest
  | m :: rest, S i => m :: setMaterial i mat rest
  end.

Definition setSticker (materials : list (option Sticker)) (faceIndex : nat)
    (faceKey : Face) (c r : Z) : list (option Sticker) :=
  setMaterial faceIndex (Some (mkSticker faceKey c r)) materials.

(** The materials [buildSolvedCube] gives the cubelet at [(xi, yi, zi)]:
    [None] is the dark inner material. *)
Definition cubeletMaterials (xi yi zi : Z) : list (option Sticker) :=
  let m0 := repeat None 6 in
  let m1 := if (zi =? 1)%Z
            then setSticker m0 (FACE_TO_INDEX faceF) faceF (xi + 1) (yi + 1)
            else m0 in
  let m2 := if (zi =? -1)%Z
            then setSticker m1 (FACE_TO_INDEX faceB) faceB (- xi + 1) (yi + 1)
            else m1 in
  let m3 := if (xi =? 1)%Z
            then setSticker m2 (FACE_TO_INDEX faceR) faceR (- zi + 1) (yi + 1)
            else m2 in
  let m4 := if (xi =? -1)%Z
            then setSticker m3 (FACE_TO_INDEX faceL) faceL (zi + 1) (yi + 1)
            else m3 in
  let m5 := if (yi =? 1)%Z
            then setSticker m4 (FACE_TO_INDEX faceU) faceU (xi + 1) (- zi + 1)
            else m4 in
  let m6 := if (yi =? -1)%Z
            then setSticker m5 (FACE_TO_INDEX faceD) faceD (xi + 1) (zi + 1)
            else m5 in
  m6.

(** The coordinates the three loops of [buildSolvedCube] go through. *)
Definition coordinates : list (Z * Z * Z) :=
  list_prod (list_prod indices indices) indices.

(** The tile of face [f] on the cubelet at [p], if it has one. *)
Definition stickerOn (f : Face) (p : Z * Z * Z) : option Sticker :=
  nth (FACE_TO_INDEX f) (cubeletMaterials (fst (fst p)) (snd (fst p)) (snd p))
      None.

Definition hasTile (f : Face) (c r : Z) (p : Z * Z * Z) : bool :=
  match stickerOn f p with
  | Some st => (col st =? c)%Z && (row st =? r)%Z
  | None => false
  end.

Definition faceEqb (f g : Face) : bool :=
  (FACE_TO_INDEX f =? FACE_TO_INDEX g)%nat.

(** The coordinate of [p] along an axis. *)
Definition coordinate (p : Z * Z * Z) (a : Axis) : Z :=
  match a with
  | AxisX => fst (fst p)
  | AxisY => snd (fst p)
  | AxisZ => snd p
  end.

(** ** The seeded generator *)

(** [n >>> 0] for a whole number [n]. *)
Definition toUint32 (n : Z) : Z := (n mod 4294967296)%Z.

(** The seed [makeSeededRng] computes from the UTF-16 code units of
    [seedStr]; the generator it returns is [rnd], with the seed it keeps
    made explicit. *)
Definition makeSeededRng (seedStr : list Z) : Z :=
  fold_left (fun seed code => toUint32 (seed * 31 + code)) seedStr 0%Z.

Definition rnd (seed : Z) : Qc * Z :=
  let seed' := toUint32 (1664525 * seed + 1013904223) in
  (ofZ (toUint32 seed') / ofZ 4294967296, seed').

Definition Math_floor (v : Qc) : Z := Qfloor (this v).

(** ** Colours *)

(** The whole part of a number, towards zero. *)
Definition Math_trunc (v : Qc) : Z :=
  if ltb v 0 then Qceiling (this v) else Qfloor (this v).

(** [a % b] for [b] other than zero: the remainder has the sign of [a]. *)
Definition js_rem (a b : Qc) : Qc := a - b * ofZ (Math_trunc (a / b)).

Definition clamp01 (v : Qc) : Qc :=
  if ltb v 0 then 0 else if ltb 1 v then 1 else v.

Definition mix (a b t : Qc) : Qc := a + (b - a) * t.

(** In exact arithmetic.  In doubles a channel that lands next to a half is
    rounded to the other side, so a channel can differ by one from the
    program's; the properties proved are about ranges, which this does not
    change. *)
Definition hslToRgb (h s l : Qc) : Z * Z * Z :=
  let c := (1 - Math_abs (ofZ 2 * l - 1)) * s in
  let hp := h / ofZ 60 in
  let x := c * (1 - Math_abs (js_rem hp (ofZ 2) - 1)) in
  let '(r, g, b) :=
    if leb 0 hp && ltb hp 1 then (c, x, 0)
    else if leb 1 hp && ltb hp (ofZ 2) then (x, c, 0)
    else if leb (ofZ 2) hp && ltb hp (ofZ 3) then (0, c, x)
    else if leb (ofZ 3) hp && ltb hp (ofZ 4) then (0, x, c)
    else if leb (ofZ 4) hp && ltb hp (ofZ 5) then (x, 0, c)
    else if leb (ofZ 5) hp && ltb hp (ofZ 6) then (c, 0, x)
    else (0, 0, 0) in
  let m := l - c / ofZ 2 in
  (Math_round ((r + m) * ofZ 255), Math_round ((g + m) * ofZ 255),
   Math_round ((b + m) * ofZ 255)).

(** A stop of a palette: [{ t, rgb }]. *)
Record Stop : Type := mkStop { stop_t : Qc; stop_rgb : Z * Z * Z }.

Definition offsets : list Z := [0; 45; 120; 200; 280; 330]%Z.

(** The [map] of [makePsyPalette] over the offsets from index [i] on; the
    seed of [rnd] is threaded through. *)
Fixpoint paletteStops (baseHue : Z) (offs : list Z) (i : nat) (seed : Z)
    : list Stop * Z :=
  match offs with
  | [] => ([], seed)
  | off :: rest =>
      let h := ofZ (Z.rem (baseHue + off) 360) in
      let (u, seed1) := rnd seed in
      let s := Q2Qc (75 # 100) + Q2Qc (2 # 10) * (u - Q2Qc (1 # 2)) in
      let l := Q2Qc (40 # 100)
               + Q2Qc (25 # 100) * ofZ (Z.of_nat (Nat.modulo i 2)) in
      let stop := mkStop (ofZ (Z.of_nat i) / ofZ (Z.of_nat (length offsets) - 1))
                         (hslToRgb h (clamp01 s) (clamp01 l)) in
      let (stops, seed') := paletteStops baseHue rest (S i) seed1 in
      (stop :: stops, seed')
  end.

Definition makePsyPalette (baseHue : Z) (seed : Z) : list Stop * Z :=
  paletteStops baseHue offsets 0 seed.

(** What [samplePalette] gives: a colour, three [NaN] channels, or a
    [TypeError] thrown on reading a stop that is not there. *)
Inductive Sampled : Type :=
| Colour (rgb : Z * Z * Z)
| NotANumber
| TypeError.

Definition mixRound (a b : Z * Z * Z) (tt : Qc) : Z * Z * Z :=
  let '(a0, a1, a2) := a in
  let '(b0, b1, b2) := b in
  (Math_round (mix (ofZ a0) (ofZ b0) tt),
   Math_round (mix (ofZ a1) (ofZ b1) tt),
   Math_round (mix (ofZ a2) (ofZ b2) tt)).

(** The [for] loop of [samplePalette]; [None] when no segment holds [t]. *)
Fixpoint sampleLoop (stops : list Stop) (t : Qc) : option Sampled :=
  match stops with
  | a :: rest =>
      match rest with
      | b :: _ =>
          if leb (stop_t a) t && leb t (stop_t b) then
            if Qc_eq_bool (stop_t b - stop_t a) 0 then Some NotANumber
            else Some (Colour (mixRound (stop_rgb a) (stop_rgb b)
                                 ((t - stop_t a) / (stop_t b - stop_t a))))
          else sampleLoop rest t
      | [] => None
      end
  | [] => None
  end.

Definition samplePalette (stops : list Stop) (t : Qc) : Sampled :=
  match stops with
  | [] => TypeError
  | first :: _ =>
      if leb t 0 then Colour (stop_rgb first)
      else if leb 1 t then Colour (stop_rgb (last stops first))
      else match sampleLoop stops t with
           | Some r => r
           | None => Colour (stop_rgb (last stops first))
           end
  end.

(** [FACE_HUES], and the hue [generateFractalFaceTexture] takes for a face
    key: [FACE_HUES[faceKey] || 200], where [None] is a key that is not in
    the table. *)
Definition FACE_HUES (f : Face) : Z :=
  match f with
  | faceU => 52
  | faceD => 20
  | faceL => 135
  | faceR => 0
  | faceF => 220
  | faceB => 285
  end%Z.

Definition faceHue (faceKey : option Face) : Z :=
  match faceKey with
  | Some f => if (FACE_HUES f =? 0)%Z then 200%Z else FACE_HUES f
  | None => 200%Z
  end.

(** A byte, as a colour channel must be. *)
Definition isByte (n : Z) : Prop := (0 <= n <= 255)%Z.

Definition isByteColour (rgb : Z * Z * Z) : Prop :=
  isByte (fst (fst rgb)) /\ isByte (snd (fst rgb)) /\ isByte (snd rgb).

(** The stops of a palette come at strictly increasing [t]. *)
Fixpoint increasing (ts : list Qc) : bool :=
  match ts with
  | a :: rest =>
      match rest with
      | b :: _ => ltb a b && increasing rest
      | [] => true
      end
  | [] => true
  end.

(** Every channel of a colour lies between [lo] and [hi]. *)
Definition channelsWithin (lo hi : Z) (rgb : Z * Z * Z) : Prop :=
  (lo <= fst (fst rgb) <= hi)%Z /\ (lo <= snd (fst rgb) <= hi)%Z
  /\ (lo <= snd rgb <= hi)%Z.

(** A palette of two stops, black at 0 and white at 1. *)
Definition greyRamp : list Stop :=
  [mkStop 0 (0, 0, 0)%Z; mkStop 1 (255, 255, 255)%Z].

(** ** The basis of a picked face *)

Section FaceBasis.

(** [Math.sqrt], which the rationals do not have; the properties below use
    it at 1 only. *)
Variable Math_sqrt : Qc -> Qc.

Definition crossVectors (a b : Vector3) : Vector3 :=
  mkVector3 (y a * z b - z a * y b)
            (z a * x b - x a * z b)
            (x a * y b - y a * x b).

Definition lengthSq (v : Vector3) : Qc := x v * x v + y v * y v + z v * z v.

(** [v.normalize()]: [v.divideScalar(v.length() || 1)]. *)
Definition normalize (v : Vector3) : Vector3 :=
  let len := Math_sqrt (lengthSq v) in
  let d := if Qc_eq_bool len 0 then 1 else len in
  mkVector3 (x v / d) (y v / d) (z v / d).

Definition computeFaceBasis (worldNormal : Vector3) : Vector3 * Vector3 :=
  let up := mkVector3 0 1 0 in
  let u0 := crossVectors up worldNormal in
  let u1 := if ltb (lengthSq u0) (Q2Qc (1 # 1000000))
            then crossVectors (mkVector3 1 0 0) worldNormal
            else u0 in
  let u := normalize u1 in
  let v := normalize (crossVectors worldNormal u) in
  (u, v).

End FaceBasis.

(** The point reached from [p] by going [d] along [u]. *)
Definition addScaledVector (p u : Vector3) (d : Qc) : Vector3 :=
  mkVector3 (x p + x u * d) (y p + y u * d) (z p + z u * d).

(** The pick of the face with normal [vectorForAxis a sg] at point [p], with
    the basis [computeFaceBasis] gives it. *)
Definition pickFace (Math_sqrt : Qc -> Qc) (a : Axis) (sg : Z) (p : Vector3)
    : Pick :=
  let n := vectorForAxis a sg in
  mkPick n p (fst (computeFaceBasis Math_sqrt n))
         (snd (computeFaceBasis Math_sqrt n)).

(** ** Double precision

    The definitions above compute with exact numbers.  The program computes
    in doubles: the turn's quaternion is built from [Math.sin] and
    [Math.cos] of the half angle, [attach] recomposes each cubelet's matrix
    and reads the position and the quaternion back from it, and of the two
    only the position is rounded afterwards, by [snapToGrid].

    What the doubles give is not computed here, since the arithmetic of
    Three.js is not part of the repository.  It is a parameter of the turn:
    [attached m c] is the position and the quaternion that a cubelet [c] of
    the turning layer holds when, at the end of the turn [m], it is back
    under [cubeRoot] and [snapToGrid] is about to be called.  Statements
    about this turn hold for every such arithmetic, under the assumption
    that they name. *)

(** The four numbers of a [THREE.Quaternion]. *)
Record Quaternion : Type := mkQuaternion {
  qx : Qc; qy : Qc; qz : Qc; qw : Qc }.

(** [Matrix4.makeRotationFromQuaternion(q)]: the rotation that Three.js
    draws for the four numbers of [q], and that [applyQuaternion] applies.
    The quaternion is taken as it is; nothing normalises it. *)
Definition makeRotationFromQuaternion (q : Quaternion) : Rotation :=
  let x2 := qx q + qx q in
  let y2 := qy q + qy q in
  let z2 := qz q + qz q in
  let xx := qx q * x2 in
  let xy := qx q * y2 in
  let xz := qx q * z2 in
  let yy := qy q * y2 in
  let yz := qy q * z2 in
  let zz := qz q * z2 in
  let wx := qw q * x2 in
  let wy := qw q * y2 in
  let wz := qw q * z2 in
  mkRotation (1 - (yy + zz)) (xy - wz) (xz + wy)
             (xy + wz) (1 - (xx + zz)) (yz - wx)
             (xz - wy) (yz + wx) (1 - (xx + yy)).

(** [endQuat] of [animateTurn], in exact arithmetic. *)
Definition endQuat (m : Move) : Rotation :=
  setFromAxisAngle (vectorForAxis (axis m) (sign m))
                   (targetQuarters (cw m) (quarters m)).

(** The position and the quaternion of a cubelet after the detach loop has
    put it back under [cubeRoot], as the doubles give them. *)
Definition Attached : Type := Move -> Cubelet -> Vector3 * Quaternion.

Section Doubles.

Variable attached : Attached.

Definition detachComputed (m : Move) (c : Cubelet) : Cubelet :=
  mkCubelet (fst (attached m c))
            (makeRotationFromQuaternion (snd (attached m c)))
            (home c).

(** One cubelet through the turn [m]: [selectLayer], the detach loop and
    [snapToGrid], as in [turnCubelet]. *)
Definition turnCubeletWith (m : Move) (c : Cubelet) : Cubelet :=
  if inLayer (axis m) (sign m) c then snapToGrid (detachComputed m c) else c.

Definition turnCubeletsWith (m : Move) (cs : list Cubelet) : list Cubelet :=
  map (turnCubeletWith m) cs.

(** A sequence of turns, one after the other. *)
Definition turnsWith (ms : list Move) (cs : list Cubelet) : list Cubelet :=
  fold_left (fun acc m => turnCubeletsWith m acc) ms cs.

End Doubles.

(** The same sequence of turns in exact arithmetic. *)
Definition turns (ms : list Move) (cs : list Cubelet) : list Cubelet :=
  fold_left (fun acc m => turnCubelets m acc) ms cs.

(** [v] is within half a unit of [w], the half below included: what
    [Math.round] forgives when [w] is a whole number. *)
Definition withinHalf (v w : Qc) : bool :=
  leb (- Q2Qc (1 # 2)) (v - w) && ltb (v - w) (Q2Qc (1 # 2)).

Definition nearby (p e : Vector3) : bool :=
  withinHalf (x p) (x e) && withinHalf (y p) (y e) && withinHalf (z p) (z e).

(** The assumption on the arithmetic, for the turn [m]: on a cubelet that
    sits on a lattice point and is in the turning layer, each coordinate
    that [attached] returns is within half a unit of the exact one. *)
Definition accurate (attached : Attached) (m : Move) : Prop :=
  forall c,
    In (position c) lattice -> inLayer (axis m) (sign m) c = true ->
    nearby (fst (attached m c)) (applyQuaternion (position c) (endQuat m))
    = true.

(** Every cubelet of [cs] sits on a lattice point; the check that decides
    it. *)
Definition onLatticeb (cs : list Cubelet) : bool :=
  forallb (fun c => existsb (Vector3_eqb (position c)) lattice) cs.

(** Entry by entry, [a] is less than half a unit away from [b]. *)
Definition nearRotation (a b : Rotation) : bool :=
  let near := fun u v : Qc => ltb (Math_abs (u - v)) (Q2Qc (1 # 2)) in
  near (m11 a) (m11 b) && near (m12 a) (m12 b) && near (m13 a) (m13 b)
  && near (m21 a) (m21 b) && near (m22 a) (m22 b) && near (m23 a) (m23 b)
  && near (m31 a) (m31 b) && near (m32 a) (m32 b) && near (m33 a) (m33 b).

(** A clockwise quarter turn of the right face. *)
Definition turnR : Move := mkMove AxisX 1 true 1.

(** A coarse arithmetic, for examples: each coordinate comes out of the turn
    off by 49/100, -1/2 and 1/4, and the quaternion is, whatever the turn
    was, that of a rotation about [x] by an angle near a clockwise quarter
    turn, with sine -120/169 and cosine 119/169 for the half angle. *)
Definition looseAttach : Attached :=
  fun m c =>
    let e := applyQuaternion (position c) (endQuat m) in
    (mkVector3 (x e + Q2Qc (49 # 100)) (y e - Q2Qc (1 # 2))
               (z e + Q2Qc (1 # 4)),
     mkQuaternion (- Q2Qc (120 # 169)) 0 0 (Q2Qc (119 # 169))).

(** * Properties *)

(** ** Numbers *)

Section Numbers.

Lemma ltb_lt (a b : Qc) : ltb a b = true <-> a < b.
Proof.
  unfold ltb. rewrite negb_true_iff, <- not_true_iff_false, Qle_bool_iff.
  split; [apply Qnot_le_lt | apply Qlt_not_le].
Qed.

Lemma ltb_ge (a b : Qc) : ltb a b = false <-> b <= a.
Proof.
  unfold ltb. rewrite negb_false_iff. apply Qle_bool_iff.
Qed.

Lemma leb_le (a b : Qc) : leb a b = true <-> a <= b.
Proof. apply Qle_bool_iff. Qed.

Lemma this_Q2Qc (q : Q) : (this (Q2Qc q) == q)%Q.
Proof. apply Qred_correct. Qed.

Lemma this_plus (a b : Qc) : (this (a + b) == this a + this b)%Q.
Proof. apply Qred_correct. Qed.

Lemma this_ofZ (n : Z) : (this (ofZ n) == inject_Z n)%Q.
Proof. apply Qred_correct. Qed.

Lemma ofZ_add (a b : Z) : ofZ (a + b) = ofZ a + ofZ b.
Proof.
  apply Qc_is_canon. rewrite this_plus, !this_ofZ, inject_Z_plus.
  reflexivity.
Qed.

Lemma ofZ_mul (a b : Z) : ofZ (a * b) = ofZ a * ofZ b.
Proof.
  apply Qc_is_canon. unfold Qcmult.
  rewrite this_Q2Qc, !this_ofZ, inject_Z_mult. reflexivity.
Qed.

Lemma ofZ_opp (a : Z) : ofZ (- a) = - ofZ a.
Proof.
  apply Qc_is_canon. unfold Qcopp.
  rewrite this_Q2Qc, !this_ofZ, inject_Z_opp. reflexivity.
Qed.

Lemma ofZ_0 : ofZ 0 = 0.
Proof. apply Qc_is_canon. reflexivity. Qed.

Lemma ofZ_1 : ofZ 1 = 1.
Proof. apply Qc_is_canon. reflexivity. Qed.

Lemma Qfloor_unique (q : Q) (n : Z) :
  (inject_Z n <= q)%Q -> (q < inject_Z (n + 1))%Q -> Qfloor q = n.
Proof.
  intros Hlo Hhi.
  pose proof (Qfloor_le q) as Hf. pose proof (Qlt_floor q) as Hc.
  assert (H1 : (inject_Z n < inject_Z (Qfloor q + 1))%Q)
    by (eapply Qle_lt_trans; eauto).
  assert (H2 : (inject_Z (Qfloor q) < inject_Z (n + 1))%Q)
    by (eapply Qle_lt_trans; eauto).
  rewrite <- Zlt_Qlt in H1, H2. lia.
Qed.

Lemma Math_round_ofZ (n : Z) : Math_round (ofZ n) = n.
Proof.
  unfold Math_round. apply Qfloor_unique.
  - rewrite this_ofZ.
    rewrite <- (Qplus_0_r (inject_Z n)) at 1.
    apply Qplus_le_r. discriminate.
  - rewrite this_ofZ, inject_Z_plus.
    apply Qplus_lt_r. reflexivity.
Qed.

(** [Math.round] returns a nearest integer. *)
Lemma Math_round_nearest (v : Qc) :
  v - Q2Qc (1 # 2) < ofZ (Math_round v) /\
  ofZ (Math_round v) <= v + Q2Qc (1 # 2).
Proof.
  unfold Math_round.
  pose proof (Qfloor_le (this v + (1 # 2))) as Hf.
  pose proof (Qlt_floor (this v + (1 # 2))) as Hc.
  set (n := Qfloor (this v + (1 # 2))) in *.
  rewrite inject_Z_plus in Hc.
  split.
  - unfold Qclt, Qcminus, Qcopp.
    rewrite this_plus, this_Q2Qc, this_Q2Qc, this_ofZ.
    apply (Qplus_lt_l _ _ 1).
    eapply Qle_lt_trans; [|apply Hc].
    ring_simplify. apply Qle_refl.
  - unfold Qcle. rewrite this_ofZ, this_plus, this_Q2Qc. exact Hf.
Qed.

Lemma roundedIndex_clamp (v : Qc) :
  roundedIndex v = Z.max (-1) (Z.min 1 (Math_round v)).
Proof.
  unfold roundedIndex.
  destruct (Z.ltb_spec (Math_round v) (-1));
    [|destruct (Z.gtb_spec (Math_round v) 1)]; lia.
Qed.

Lemma roundedIndex_range (v : Qc) : In (roundedIndex v) indices.
Proof.
  rewrite roundedIndex_clamp. unfold indices. simpl.
  assert (H : (-1 <= Z.max (-1) (Z.min 1 (Math_round v)) <= 1)%Z) by lia.
  destruct H as [H1 H2].
  assert (Hc : (Z.max (-1) (Z.min 1 (Math_round v)) = -1
          \/ Z.max (-1) (Z.min 1 (Math_round v)) = 0
          \/ Z.max (-1) (Z.min 1 (Math_round v)) = 1)%Z) by lia.
  intuition auto.
Qed.

Lemma roundedIndex_snapped (v : Qc) :
  roundedIndex (ofZ (Math_round v)) = roundedIndex v.
Proof. unfold roundedIndex. rewrite Math_round_ofZ. reflexivity. Qed.

End Numbers.

(** ** Soundness of the finite checks *)

Section Checks.

Lemma Vector3_eqb_eq (a b : Vector3) : Vector3_eqb a b = true -> a = b.
Proof.
  unfold Vector3_eqb. rewrite !andb_true_iff. intros [[Hx Hy] Hz].
  apply Qc_eq_bool_correct in Hx, Hy, Hz.
  destruct a, b; simpl in *; congruence.
Qed.

Lemma Vector3_eqb_refl (a : Vector3) : Vector3_eqb a a = true.
Proof.
  unfold Vector3_eqb, Qc_eq_bool.
  destruct (Qc_eq_dec (x a) (x a)); [|congruence].
  destruct (Qc_eq_dec (y a) (y a)); [|congruence].
  destruct (Qc_eq_dec (z a) (z a)); [|congruence].
  reflexivity.
Qed.

Lemma Rotation_eqb_eq (a b : Rotation) : Rotation_eqb a b = true -> a = b.
Proof.
  unfold Rotation_eqb. rewrite !andb_true_iff.
  intros [[[[[[[[H1 H2] H3] H4] H5] H6] H7] H8] H9].
  apply Qc_eq_bool_correct in H1, H2, H3, H4, H5, H6, H7, H8, H9.
  destruct a, b; simpl in *; congruence.
Qed.

Lemma isUnitEntry_cases (v : Qc) :
  isUnitEntry v = true -> v = 0 \/ v = 1 \/ v = - (1).
Proof.
  unfold isUnitEntry. rewrite !orb_true_iff.
  intros [[H | H] | H]; apply Qc_eq_bool_correct in H; auto.
Qed.

Lemma memRotation_In (q : Rotation) (l : list Rotation) :
  memRotation q l = true -> In q l.
Proof.
  unfold memRotation. rewrite existsb_exists. intros [r [Hin Heq]].
  apply Rotation_eqb_eq in Heq. subst. exact Hin.
Qed.

Lemma remove1_perm (v : Vector3) (l r : list Vector3) :
  remove1 v l = Some r -> Permutation l (v :: r).
Proof.
  revert r. induction l as [|w l IH]; simpl; intros r H.
  - discriminate.
  - destruct (Vector3_eqb v w) eqn:E.
    + apply Vector3_eqb_eq in E. inversion H; subst. reflexivity.
    + destruct (remove1 v l) as [r'|]; [|discriminate].
      inversion H; subst.
      rewrite (IH r' eq_refl). apply perm_swap.
Qed.

Lemma permb_sound (l1 l2 : list Vector3) :
  permb l1 l2 = true -> Permutation l1 l2.
Proof.
  revert l2. induction l1 as [|v l1 IH]; simpl; intros l2 H.
  - destruct l2; [constructor | discriminate].
  - destruct (remove1 v l2) as [r|] eqn:E; [|discriminate].
    apply remove1_perm in E. rewrite E.
    constructor. apply IH. exact H.
Qed.

Lemma cubeRotations_quarter : forallb isQuarterRotation cubeRotations = true.
Proof. vm_compute. reflexivity. Qed.

Lemma identity_cubeRotation : In identity cubeRotations.
Proof. apply memRotation_In. vm_compute. reflexivity. Qed.

Lemma quarterTurn_listed (a : Axis) (sg k : Z) :
  In sg indices -> In k [0; 1; 2; 3]%Z -> In (a, sg, k) quarterTurns.
Proof.
  intros Hs Hk. unfold quarterTurns.
  apply in_prod; [apply in_prod|]; auto.
  destruct a; simpl; auto.
Qed.

Lemma forEachTurn_spec (f : Axis -> Z -> Z -> bool) :
  forEachTurn f = true ->
  forall a sg k, In sg indices -> In k [0; 1; 2; 3]%Z -> f a sg k = true.
Proof.
  unfold forEachTurn. rewrite forallb_forall. intros H a sg k Hs Hk.
  apply (H (a, sg, k)). apply quarterTurn_listed; assumption.
Qed.

Lemma turns_unit :
  forEachTurn (fun a sg k =>
    forallb isUnitEntry (entries (turnRotation a sg k))) = true.
Proof. vm_compute. reflexivity. Qed.

Lemma turns_inverse :
  forEachTurn (fun a sg k =>
    Rotation_eqb (multiply (turnRotation a sg (- k)) (turnRotation a sg k))
                 identity) = true.
Proof. vm_compute. reflexivity. Qed.

Lemma turns_row :
  forEachTurn (fun a sg k => rowIsAxis a (turnRotation a sg k)) = true.
Proof. vm_compute. reflexivity. Qed.

Lemma turns_permute :
  forEachTurn (fun a sg k =>
    permb (map (turnPosition a sg k) lattice) lattice) = true.
Proof. vm_compute. reflexivity. Qed.

Lemma turns_closed :
  forEachTurn (fun a sg k =>
    forallb (fun o => memRotation (multiply (turnRotation a sg k) o)
                                  cubeRotations) cubeRotations) = true.
Proof. vm_compute. reflexivity. Qed.

(** What the checks establish for one turn. *)
Lemma quarterTurn_facts (a : Axis) (sg k : Z) :
  In sg indices -> In k [0; 1; 2; 3]%Z ->
  forallb isUnitEntry (entries (turnRotation a sg k)) = true
  /\ multiply (turnRotation a sg (- k)) (turnRotation a sg k) = identity
  /\ rowIsAxis a (turnRotation a sg k) = true
  /\ Permutation (map (turnPosition a sg k) lattice) lattice
  /\ (forall o, In o cubeRotations ->
               In (multiply (turnRotation a sg k) o) cubeRotations).
Proof.
  intros Hs Hk.
  pose proof (forEachTurn_spec _ turns_unit a sg k Hs Hk) as Hunit.
  pose proof (forEachTurn_spec _ turns_inverse a sg k Hs Hk) as Hinv.
  pose proof (forEachTurn_spec _ turns_row a sg k Hs Hk) as Hrow.
  pose proof (forEachTurn_spec _ turns_permute a sg k Hs Hk) as Hperm.
  pose proof (forEachTurn_spec _ turns_closed a sg k Hs Hk) as Hclosed.
  cbv beta in Hunit, Hinv, Hrow, Hperm, Hclosed.
  repeat split.
  - exact Hunit.
  - apply Rotation_eqb_eq, Hinv.
  - exact Hrow.
  - apply permb_sound, Hperm.
  - intros o Ho. rewrite forallb_forall in Hclosed.
    apply memRotation_In, Hclosed, Ho.
Qed.

End Checks.

(** ** One turn, cubelet by cubelet *)

Section Integers.

Lemma integral_ofZ (n : Z) : integral (ofZ n).
Proof. unfold integral. rewrite Math_round_ofZ. reflexivity. Qed.

Lemma integral_inv (v : Qc) : integral v -> exists n, v = ofZ n.
Proof. intros H. exists (Math_round v). symmetry. exact H. Qed.

Lemma integral_add (u v : Qc) : integral u -> integral v -> integral (u + v).
Proof.
  intros Hu Hv. apply integral_inv in Hu, Hv.
  destruct Hu as [n ->], Hv as [m ->].
  rewrite <- ofZ_add. apply integral_ofZ.
Qed.

Lemma integral_mul (u v : Qc) : integral u -> integral v -> integral (u * v).
Proof.
  intros Hu Hv. apply integral_inv in Hu, Hv.
  destruct Hu as [n ->], Hv as [m ->].
  rewrite <- ofZ_mul. apply integral_ofZ.
Qed.

Lemma integral_unit (v : Qc) : isUnitEntry v = true -> integral v.
Proof.
  intros H. destruct (isUnitEntry_cases v H) as [-> | [-> | ->]].
  - rewrite <- ofZ_0. apply integral_ofZ.
  - rewrite <- ofZ_1. apply integral_ofZ.
  - rewrite <- ofZ_1, <- ofZ_opp. apply integral_ofZ.
Qed.

Lemma integral_row (a b c u v w : Qc) :
  integral a -> integral b -> integral c ->
  integral u -> integral v -> integral w ->
  integral (a * u + b * v + c * w).
Proof.
  intros. apply integral_add; [apply integral_add|];
    apply integral_mul; assumption.
Qed.

Lemma unit_entries (q : Rotation) :
  forallb isUnitEntry (entries q) = true ->
  Forall integral (entries q).
Proof.
  rewrite forallb_forall, Forall_forall. intros H v Hv.
  apply integral_unit, H, Hv.
Qed.

Lemma applyQuaternion_integral (p : Vector3) (q : Rotation) :
  forallb isUnitEntry (entries q) = true ->
  integralPosition p -> integralPosition (applyQuaternion p q).
Proof.
  intros Hq [Hx [Hy Hz]]. apply unit_entries in Hq.
  unfold entries in Hq.
  repeat match goal with
         | H : Forall _ (_ :: _) |- _ => inversion H; clear H; subst
         end.
  unfold integralPosition, applyQuaternion. cbn [x y z].
  repeat split; apply integral_row; assumption.
Qed.

Lemma snapToGrid_integral (c : Cubelet) :
  integralPosition (position c) -> snapToGrid c = c.
Proof.
  intros [Hx [Hy Hz]]. unfold snapToGrid. unfold integral in *.
  rewrite Hx, Hy, Hz. destruct c as [[px py pz] q h]. reflexivity.
Qed.

Lemma snapToGrid_position_integral (c : Cubelet) :
  integralPosition (position (snapToGrid c)).
Proof.
  unfold snapToGrid, integralPosition. cbn [position x y z].
  repeat split; apply integral_ofZ.
Qed.

Lemma lattice_integral (p : Vector3) : In p lattice -> integralPosition p.
Proof.
  unfold lattice. rewrite in_flat_map. intros [a [_ H]].
  rewrite in_flat_map in H. destruct H as [b [_ H]].
  rewrite in_map_iff in H. destruct H as [c [<- _]].
  unfold integralPosition. cbn [x y z].
  repeat split; apply integral_ofZ.
Qed.

End Integers.

Section Angles.

Lemma quarter_mod (k : Z) : In (k mod 4)%Z [0; 1; 2; 3]%Z.
Proof.
  pose proof (Z.mod_pos_bound k 4 eq_refl) as H. simpl.
  assert (Hc : (k mod 4 = 0 \/ k mod 4 = 1 \/ k mod 4 = 2 \/ k mod 4 = 3)%Z)
    by lia.
  intuition auto.
Qed.

Lemma setFromAxisAngle_mod (n : Vector3) (k : Z) :
  setFromAxisAngle n (k mod 4) = setFromAxisAngle n k.
Proof.
  unfold setFromAxisAngle, cosQuarter, sinQuarter.
  rewrite Z.mod_mod by discriminate. reflexivity.
Qed.

Lemma opp_mod_4 (k : Z) : ((- (k mod 4)) mod 4 = (- k) mod 4)%Z.
Proof.
  rewrite (Z.div_mod k 4) at 2 by discriminate.
  replace (- (4 * (k / 4) + k mod 4))%Z
    with (- (k mod 4) + (- (k / 4)) * 4)%Z by ring.
  rewrite Z.mod_add by discriminate. reflexivity.
Qed.

Lemma setFromAxisAngle_opp_mod (n : Vector3) (k : Z) :
  setFromAxisAngle n (- (k mod 4)) = setFromAxisAngle n (- k).
Proof.
  rewrite <- (setFromAxisAngle_mod n (- (k mod 4))), opp_mod_4.
  apply setFromAxisAngle_mod.
Qed.

Lemma targetQuarters_negb (c : bool) (q : Z) :
  targetQuarters (negb c) q = (- targetQuarters c q)%Z.
Proof. unfold targetQuarters. destruct c; cbv beta iota delta [negb]; lia. Qed.

End Angles.

Section OneCubelet.

Variables (a : Axis) (sg : Z).

Lemma inLayer_off_range (c : Cubelet) : ~ In sg indices -> inLayer a sg c = false.
Proof.
  intros H. unfold inLayer. apply Z.eqb_neq. intros E. apply H.
  rewrite <- E. apply roundedIndex_range.
Qed.

Lemma turnCubelet_off_range (q : Rotation) (c : Cubelet) :
  ~ In sg indices -> turnCubelet a sg q c = c.
Proof.
  intros H. unfold turnCubelet. rewrite inLayer_off_range by assumption.
  reflexivity.
Qed.

Lemma component_fixed (q : Rotation) (p : Vector3) :
  rowIsAxis a q = true ->
  component (applyQuaternion p q) a = component p a.
Proof.
  unfold rowIsAxis. destruct a; rewrite !andb_true_iff;
    intros [[H1 H2] H3]; apply Qc_eq_bool_correct in H1, H2, H3;
    unfold applyQuaternion, component; cbn [x y z];
    rewrite H1, H2, H3; ring.
Qed.

Lemma inLayer_turned (q : Rotation) (c : Cubelet) :
  rowIsAxis a q = true ->
  inLayer a sg (snapToGrid (detachPreserve q c)) = inLayer a sg c.
Proof.
  intros Hrow. unfold inLayer.
  replace (component (position (snapToGrid (detachPreserve q c))) a)
    with (ofZ (Math_round (component (applyQuaternion (position c) q) a)))
    by (destruct a; reflexivity).
  rewrite roundedIndex_snapped, component_fixed by assumption.
  reflexivity.
Qed.

Lemma detachPreserve_compose (q' q : Rotation) (c : Cubelet) :
  detachPreserve q' (detachPreserve q c) = detachPreserve (multiply q' q) c.
Proof.
  unfold detachPreserve, applyQuaternion, multiply.
  cbn [position quaternion home x y z m11 m12 m13 m21 m22 m23 m31 m32 m33].
  f_equal; f_equal; ring.
Qed.

Lemma detachPreserve_identity (c : Cubelet) : detachPreserve identity c = c.
Proof.
  destruct c as [[px py pz] [a11 a12 a13 a21 a22 a23 a31 a32 a33] h].
  unfold detachPreserve, applyQuaternion, multiply, identity.
  cbn [position quaternion home x y z m11 m12 m13 m21 m22 m23 m31 m32 m33].
  f_equal; f_equal; ring.
Qed.

(** Turning a layer back undoes the turn on each cubelet. *)
Lemma turnCubelet_back (k : Z) (c : Cubelet) :
  In sg indices -> In k [0; 1; 2; 3]%Z ->
  integralPosition (position c) ->
  turnCubelet a sg (turnRotation a sg (- k))
    (turnCubelet a sg (turnRotation a sg k) c) = c.
Proof.
  intros Hs Hk Hp.
  destruct (quarterTurn_facts a sg k Hs Hk) as [Hunit [Hinv [Hrow _]]].
  unfold turnCubelet at 2.
  destruct (inLayer a sg c) eqn:E.
  - unfold turnCubelet. rewrite inLayer_turned, E by assumption.
    assert (Hi : integralPosition
                   (position (detachPreserve (turnRotation a sg k) c)))
      by (apply applyQuaternion_integral; assumption).
    rewrite (snapToGrid_integral _ Hi).
    rewrite detachPreserve_compose, Hinv, detachPreserve_identity.
    apply snapToGrid_integral. assumption.
  - unfold turnCubelet. rewrite E. reflexivity.
Qed.

Lemma turnCubelet_integral (q : Rotation) (c : Cubelet) :
  integralPosition (position c) ->
  integralPosition (position (turnCubelet a sg q c)).
Proof.
  intros H. unfold turnCubelet. destruct (inLayer a sg c).
  - apply snapToGrid_position_integral.
  - exact H.
Qed.

Lemma position_turnCubelet (k : Z) (c : Cubelet) :
  position (turnCubelet a sg (turnRotation a sg k) c)
  = turnPosition a sg k (position c).
Proof.
  unfold turnPosition, turnCubelet, inLayer. cbn [position].
  destruct (roundedIndex (component (position c) a) =? sg)%Z; reflexivity.
Qed.

Lemma home_turnCubelet (q : Rotation) (c : Cubelet) :
  home (turnCubelet a sg q c) = home c.
Proof. unfold turnCubelet. destruct (inLayer a sg c); reflexivity. Qed.

Lemma quaternion_turnCubelet (k : Z) (c : Cubelet) :
  In sg indices -> In k [0; 1; 2; 3]%Z ->
  In (quaternion c) cubeRotations ->
  In (quaternion (turnCubelet a sg (turnRotation a sg k) c)) cubeRotations.
Proof.
  intros Hs Hk Hq.
  destruct (quarterTurn_facts a sg k Hs Hk) as [_ [_ [_ [_ Hclosed]]]].
  unfold turnCubelet. destruct (inLayer a sg c); [|exact Hq].
  cbn [snapToGrid detachPreserve quaternion].
  apply Hclosed, Hq.
Qed.

End OneCubelet.

(** ** One turn, on the whole cube *)

Section WholeCube.

Lemma map_fixed {A : Type} (f : A -> A) (P : A -> Prop) (l : list A) :
  (forall a, P a -> f a = a) -> Forall P l -> map f l = l.
Proof.
  intros Hf Hl. induction Hl as [|a l Ha _ IH]; simpl.
  - reflexivity.
  - rewrite Hf, IH by assumption. reflexivity.
Qed.

Lemma turnCubelets_canon (m : Move) (cs : list Cubelet) :
  turnCubelets m cs
  = map (turnCubelet (axis m) (sign m)
           (turnRotation (axis m) (sign m)
              (targetQuarters (cw m) (quarters m) mod 4))) cs.
Proof.
  unfold turnCubelets, turnRotation. rewrite setFromAxisAngle_mod.
  reflexivity.
Qed.

Lemma turnCubelets_inverse_canon (m : Move) (cs : list Cubelet) :
  turnCubelets (inverse m) cs
  = map (turnCubelet (axis m) (sign m)
           (turnRotation (axis m) (sign m)
              (- (targetQuarters (cw m) (quarters m) mod 4)))) cs.
Proof.
  unfold turnCubelets, turnRotation, inverse. cbn [axis sign cw quarters].
  rewrite targetQuarters_negb, setFromAxisAngle_opp_mod. reflexivity.
Qed.

Lemma turnCubelets_off_range (m : Move) (cs : list Cubelet) :
  ~ In (sign m) indices -> turnCubelets m cs = cs.
Proof.
  intros H. unfold turnCubelets.
  apply (map_fixed _ (fun _ => True)).
  - intros c _. apply turnCubelet_off_range, H.
  - apply Forall_forall. trivial.
Qed.

Lemma turnCubelets_integral (m : Move) (cs : list Cubelet) :
  Forall (fun c => integralPosition (position c)) cs ->
  Forall (fun c => integralPosition (position c)) (turnCubelets m cs).
Proof.
  intros H. unfold turnCubelets. apply Forall_map.
  eapply Forall_impl; [|exact H].
  intros c Hc. apply turnCubelet_integral, Hc.
Qed.

(** The inverse move undoes a move on every cube with integer positions. *)
Lemma turnCubelets_inverse (m : Move) (cs : list Cubelet) :
  Forall (fun c => integralPosition (position c)) cs ->
  turnCubelets (inverse m) (turnCubelets m cs) = cs.
Proof.
  intros H.
  destruct (In_dec Z.eq_dec (sign m) indices) as [Hs | Hs].
  - rewrite turnCubelets_inverse_canon, turnCubelets_canon, map_map.
    apply (map_fixed _ _ _ (fun c Hc =>
             turnCubelet_back (axis m) (sign m) _ c Hs (quarter_mod _) Hc) H).
  - rewrite (turnCubelets_off_range m) by assumption.
    apply turnCubelets_off_range. exact Hs.
Qed.

Lemma turnCubelets_invariant (m : Move) (cs : list Cubelet) :
  cubeInvariant cs -> cubeInvariant (turnCubelets m cs).
Proof.
  intros [Hperm Hrot].
  destruct (In_dec Z.eq_dec (sign m) indices) as [Hs | Hs].
  - rewrite turnCubelets_canon.
    set (k := (targetQuarters (cw m) (quarters m) mod 4)%Z).
    assert (Hk : In k [0; 1; 2; 3]%Z) by apply quarter_mod.
    destruct (quarterTurn_facts (axis m) (sign m) k Hs Hk)
      as [_ [_ [_ [Hp _]]]].
    split.
    + rewrite map_map.
      rewrite (map_ext _ (fun c => turnPosition (axis m) (sign m) k (position c)))
        by (intros c; apply position_turnCubelet).
      rewrite <- (map_map position (turnPosition (axis m) (sign m) k)).
      eapply Permutation_trans; [apply Permutation_map, Hperm | exact Hp].
    + apply Forall_map. eapply Forall_impl; [|exact Hrot].
      intros c Hc. apply quaternion_turnCubelet; assumption.
  - rewrite turnCubelets_off_range by assumption. split; assumption.
Qed.

Lemma buildSolvedCube_positions : map position buildSolvedCube = lattice.
Proof. vm_compute. reflexivity. Qed.

Lemma buildSolvedCube_invariant : cubeInvariant buildSolvedCube.
Proof.
  split.
  - rewrite buildSolvedCube_positions. reflexivity.
  - unfold buildSolvedCube. apply Forall_forall. intros c Hc.
    rewrite in_flat_map in Hc. destruct Hc as [xi [_ Hc]].
    rewrite in_flat_map in Hc. destruct Hc as [yi [_ Hc]].
    rewrite in_map_iff in Hc. destruct Hc as [zi [<- _]].
    apply identity_cubeRotation.
Qed.

Lemma cubeInvariant_integral (cs : list Cubelet) :
  cubeInvariant cs -> Forall (fun c => integralPosition (position c)) cs.
Proof.
  intros [Hperm _]. apply Forall_forall. intros c Hc.
  apply lattice_integral.
  apply (Permutation_in _ Hperm). apply in_map. exact Hc.
Qed.

Lemma cubeRotation_quarter (q : Rotation) :
  In q cubeRotations -> isQuarterRotation q = true.
Proof.
  pose proof cubeRotations_quarter as H. rewrite forallb_forall in H.
  apply H.
Qed.

End WholeCube.

(** ** The turn engine on states *)

Section Engine.

Lemma animateTurn_turning (m : Move) (record : bool) (s : State) :
  isTurning s = true -> animateTurn m record s = s.
Proof. intros H. unfold animateTurn. rewrite H. reflexivity. Qed.

Lemma animateTurn_idle (m : Move) (record : bool) (s : State) :
  isTurning s = false ->
  animateTurn m record s = completeTurn m record (startTurn s).
Proof. intros H. unfold animateTurn. rewrite H. reflexivity. Qed.

Lemma animateTurn_unrecorded (m : Move) (s : State) :
  isTurning s = false ->
  animateTurn m false s = set_cubelets (turnCubelets m (cubelets s)) s.
Proof.
  intros H. rewrite animateTurn_idle by assumption.
  destruct s; simpl in H; subst. reflexivity.
Qed.

Lemma cubelets_animateTurn (m : Move) (record : bool) (s : State) :
  cubelets (animateTurn m record s)
  = if isTurning s then cubelets s else turnCubelets m (cubelets s).
Proof.
  unfold animateTurn. destruct (isTurning s); [reflexivity|].
  unfold completeTurn. destruct record; [|reflexivity].
  cbn [set_moveHistory set_cubelets startTurn set_isTurning mode cubelets].
  destruct (Mode_eqb (mode s) setup); reflexivity.
Qed.

Lemma isTurning_animateTurn (m : Move) (record : bool) (s : State) :
  isTurning s = false -> isTurning (animateTurn m record s) = false.
Proof. intros H. rewrite animateTurn_idle by assumption. reflexivity. Qed.

Lemma mode_animateTurn (m : Move) (record : bool) (s : State) :
  mode (animateTurn m record s) = mode s.
Proof.
  unfold animateTurn. destruct (isTurning s); [reflexivity|].
  unfold completeTurn. destruct record; [|reflexivity].
  cbn [set_moveHistory set_cubelets startTurn set_isTurning mode cubelets].
  destruct (Mode_eqb (mode s) setup); reflexivity.
Qed.

Lemma moveHistory_recorded (m : Move) (s : State) :
  isTurning s = false ->
  moveHistory (animateTurn m true s) = moveHistory s ++ [m].
Proof.
  intros H. rewrite animateTurn_idle by assumption.
  unfold completeTurn.
  cbn [set_moveHistory set_cubelets startTurn set_isTurning mode
       moveHistory].
  destruct (Mode_eqb (mode s) setup); reflexivity.
Qed.

Lemma animateTurn_invariant (m : Move) (record : bool) (s : State) :
  cubeInvariant (cubelets s) ->
  cubeInvariant (cubelets (animateTurn m record s)).
Proof.
  intros H. rewrite cubelets_animateTurn.
  destruct (isTurning s); [exact H|].
  apply turnCubelets_invariant, H.
Qed.

End Engine.

(** ** The Assemble loop *)

Section Assemble.

Lemma firstn_succ {A : Type} (l : list A) (i : nat) (a : A) :
  nth_error l i = Some a -> firstn (S i) l = firstn i l ++ [a].
Proof.
  revert i. induction l as [|b l IH]; intros [|i] H; simpl in H.
  - discriminate.
  - discriminate.
  - inversion H; subst. reflexivity.
  - simpl. f_equal. apply IH. exact H.
Qed.

Lemma set_cubelets_twice (cs cs' : list Cubelet) (s : State) :
  set_cubelets cs (set_cubelets cs' s) = set_cubelets cs s.
Proof. reflexivity. Qed.

Lemma set_cubelets_same (s : State) : set_cubelets (cubelets s) s = s.
Proof. destruct s. reflexivity. Qed.

(** The loop undoes the last [i] entries of the history, newest first,
    and touches nothing but the cubelets. *)
Lemma solveLoop_idle (i : nat) (s : State) :
  isTurning s = false -> (i <= length (moveHistory s))%nat ->
  solveLoop i s
  = set_cubelets
      (fold_left (fun cs m => turnCubelets (inverse m) cs)
                 (rev (firstn i (moveHistory s))) (cubelets s)) s.
Proof.
  revert s. induction i as [|i IH]; intros s Ht Hi.
  - simpl. symmetry. apply set_cubelets_same.
  - cbn [solveLoop].
    destruct (nth_error (moveHistory s) i) as [m|] eqn:E.
    + rewrite animateTurn_unrecorded by assumption.
      rewrite IH by (cbn [set_cubelets isTurning moveHistory];
                     first [assumption | lia]).
      cbn [set_cubelets moveHistory cubelets].
      rewrite (firstn_succ _ _ _ E), rev_unit. reflexivity.
    + apply nth_error_None in E. lia.
Qed.

Lemma undo_all (ms : list Move) (cs : list Cubelet) :
  Forall (fun c => integralPosition (position c)) cs ->
  fold_left (fun l m => turnCubelets (inverse m) l) (rev ms)
            (fold_left (fun l m => turnCubelets m l) ms cs) = cs.
Proof.
  revert cs. induction ms as [|m ms IH]; intros cs H.
  - reflexivity.
  - cbn [fold_left rev]. rewrite fold_left_app. cbn [fold_left].
    rewrite IH by (apply turnCubelets_integral, H).
    apply turnCubelets_inverse, H.
Qed.

Lemma recordedTurns_idle (ms : list Move) (s : State) :
  isTurning s = false ->
  isTurning (recordedTurns ms s) = false
  /\ moveHistory (recordedTurns ms s) = moveHistory s ++ ms
  /\ cubelets (recordedTurns ms s)
     = fold_left (fun l m => turnCubelets m l) ms (cubelets s)
  /\ mode (recordedTurns ms s) = mode s.
Proof.
  revert s. induction ms as [|m ms IH]; intros s Ht.
  - cbn. rewrite app_nil_r. auto.
  - unfold recordedTurns in *. cbn [fold_left].
    destruct (IH (animateTurn m true s) (isTurning_animateTurn _ _ _ Ht))
      as [H1 [H2 [H3 H4]]].
    rewrite H1, H2, H3, H4.
    rewrite moveHistory_recorded, cubelets_animateTurn, Ht,
      mode_animateTurn, <- app_assoc by assumption.
    auto.
Qed.

Lemma btnSolve_idle (s : State) :
  isTurning s = false -> moveHistory s <> [] ->
  btnSolve s
  = set_moveHistory []
      (set_cubelets
         (fold_left (fun cs m => turnCubelets (inverse m) cs)
                    (rev (moveHistory s)) (cubelets s))
         (set_mode play s)).
Proof.
  intros Ht Hh. unfold btnSolve. rewrite Ht.
  destruct (moveHistory s) as [|m h] eqn:E; [congruence|].
  cbn [length Nat.eqb orb].
  rewrite solveLoop_idle by (cbn [set_mode isTurning moveHistory]; auto).
  cbn [set_mode moveHistory cubelets]. rewrite E, firstn_all. reflexivity.
Qed.

Lemma solveTrace_last (i : nat) (s d : State) :
  last (solveTrace i s) d = solveLoop i s.
Proof.
  revert s. induction i as [|i IH]; intros s.
  - reflexivity.
  - cbn [solveTrace solveLoop].
    destruct (nth_error (moveHistory s) i) as [m|]; [|reflexivity].
    rewrite <- IH.
    destruct i; reflexivity.
Qed.

Lemma solveTrace_mode (i : nat) (s : State) :
  Forall (fun st => mode st = mode s) (solveTrace i s).
Proof.
  revert s. induction i as [|i IH]; intros s.
  - repeat constructor.
  - cbn [solveTrace]. constructor; [reflexivity|].
    destruct (nth_error (moveHistory s) i) as [m|]; [|constructor].
    eapply Forall_impl; [|apply IH].
    intros st Hst. cbn beta in Hst. rewrite Hst. apply mode_animateTurn.
Qed.

Lemma solveLoop_mode (i : nat) (s : State) : mode (solveLoop i s) = mode s.
Proof.
  revert s. induction i as [|i IH]; intros s; cbn [solveLoop].
  - reflexivity.
  - destruct (nth_error (moveHistory s) i); [|reflexivity].
    rewrite IH. apply mode_animateTurn.
Qed.

End Assemble.

(** ** Every handler keeps the cube well formed *)

Section Handlers.

Lemma solveLoop_invariant (i : nat) (s : State) :
  cubeInvariant (cubelets s) -> cubeInvariant (cubelets (solveLoop i s)).
Proof.
  revert s. induction i as [|i IH]; intros s H; cbn [solveLoop].
  - exact H.
  - destruct (nth_error (moveHistory s) i); [|exact H].
    apply IH, animateTurn_invariant, H.
Qed.

Lemma scrambleLoop_invariant (n i : nat) (draws : nat -> Face * bool)
    (s : State) :
  cubeInvariant (cubelets s) ->
  cubeInvariant (cubelets (scrambleLoop n i draws s)).
Proof.
  revert i s. induction n as [|n IH]; intros i s H; cbn [scrambleLoop].
  - exact H.
  - destruct (draws i) as [f c]. destruct (faces f) as [a sg].
    apply IH, animateTurn_invariant, H.
Qed.

Lemma handle_invariant (e : Event) (s : State) :
  cubeInvariant (cubelets s) -> cubeInvariant (cubelets (handle e s)).
Proof.
  intros H. destruct e as [hit | endPoint | hit | draws | | | | | m record];
    cbn [handle].
  - unfold onPointerDown. destruct (isTurning s); [exact H|].
    destruct hit; exact H.
  - unfold onPointerUp. destruct (isPointerDown s); [|exact H].
    destruct (dragInfo s) as [d|]; [|exact H].
    match goal with |- context [if ?b then _ else _] => destruct b end.
    + exact H.
    + apply animateTurn_invariant. exact H.
  - unfold onDoubleClick. destruct (isTurning s); [exact H|].
    destruct hit; [|exact H]. apply animateTurn_invariant, H.
  - unfold btnScramble. destruct (isTurning s); [exact H|].
    apply scrambleLoop_invariant. exact H.
  - unfold btnReset. destruct (isTurning s); [exact H|].
    apply buildSolvedCube_invariant.
  - unfold btnSolve.
    destruct (isTurning s || (length (moveHistory s) =? 0)%nat); [exact H|].
    cbn [set_moveHistory cubelets]. apply solveLoop_invariant. exact H.
  - unfold btnSetup. destruct (isTurning s); [exact H|].
    destruct (negb (Mode_eqb (mode s) setup)); exact H.
  - unfold btnPlay. destruct (isTurning s); exact H.
  - apply animateTurn_invariant, H.
Qed.

Lemma run_invariant (events : list Event) (s : State) :
  cubeInvariant (cubelets s) -> cubeInvariant (cubelets (run events s)).
Proof.
  revert s. induction events as [|e events IH]; intros s H.
  - exact H.
  - unfold run in *. cbn [fold_left]. apply IH, handle_invariant, H.
Qed.

End Handlers.

(** ** The model at work *)

Section Examples.

(** Evaluate both sides of an equation between rationals. *)
Ltac by_evaluation := apply Qc_is_canon; vm_compute; reflexivity.

Example roundedIndex_samples :
  roundedIndex (Q2Qc (4 # 10)) = 0%Z
  /\ roundedIndex (Q2Qc (-1 # 2)) = 0%Z
  /\ roundedIndex (Q2Qc (1 # 2)) = 1%Z
  /\ roundedIndex (Q2Qc (23 # 10)) = 1%Z
  /\ roundedIndex (Q2Qc (-7 # 2)) = (-1)%Z.
Proof. repeat split; reflexivity. Qed.

(** A clockwise quarter turn of the right face takes the cubelet at
    (1, 1, 1) to (1, 1, -1): [y] goes to [-z]. *)
Example right_turn_moves_corner :
  turnPosition AxisX 1 (targetQuarters true 1) (mkVector3 1 1 1)
  = mkVector3 (ofZ 1) (ofZ 1) (ofZ (-1)).
Proof. vm_compute. reflexivity. Qed.

(** One quarter turn displaces eight non-core cubelets. *)
Example closeness_after_one_turn :
  computeCloseness initialState = 1
  /\ computeCloseness rightFaceTurned = Q2Qc (18 # 26).
Proof. split; by_evaluation. Qed.

(** Four quarter turns of a face bring every cubelet of the solved cube back
    home, with the orientation it started with. *)
Example four_quarter_turns :
  let m := mkMove AxisY (-1) false 1 in
  forallb homeCorrect (cubelets (recordedTurns [m; m; m; m] initialState))
  = true.
Proof. vm_compute. reflexivity. Qed.

(** A half turn is the same in both senses. *)
Example half_turn_either_way (a : Axis) (sg : Z) (cs : list Cubelet) :
  turnCubelets (mkMove a sg true 2) cs = turnCubelets (mkMove a sg false 2) cs.
Proof.
  rewrite (turnCubelets_canon (mkMove a sg true 2)),
    (turnCubelets_canon (mkMove a sg false 2)). reflexivity.
Qed.

End Examples.

(** ** Turns in double precision *)

Section Absorb.

(** [Math.round] forgives half a unit. *)
Lemma Math_round_within (v : Qc) (n : Z) :
  withinHalf v (ofZ n) = true -> Math_round v = n.
Proof.
  unfold withinHalf. rewrite andb_true_iff, leb_le, ltb_lt.
  unfold Qcle, Qclt. intros [Hlo Hhi].
  assert (E : (this (v - ofZ n) == this v - inject_Z n)%Q).
  { unfold Qcminus, Qcopp. rewrite this_plus, this_Q2Qc, this_ofZ.
    reflexivity. }
  rewrite E in Hlo, Hhi.
  change (this (- Q2Qc (1 # 2))) with (- (1 # 2))%Q in Hlo.
  change (this (Q2Qc (1 # 2))) with (1 # 2)%Q in Hhi.
  unfold Math_round. apply Qfloor_unique.
  - lra.
  - rewrite inject_Z_plus. change (inject_Z 1) with 1%Q. lra.
Qed.

Lemma snapToGrid_absorbs (p e : Vector3) (q : Rotation) (h : Vector3) :
  nearby p e = true -> integralPosition e ->
  position (snapToGrid (mkCubelet p q h)) = e.
Proof.
  unfold nearby. rewrite !andb_true_iff. intros [[Hx Hy] Hz] [Ix [Iy Iz]].
  apply integral_inv in Ix, Iy, Iz.
  destruct Ix as [nx Ex], Iy as [ny Ey], Iz as [nz Ez].
  rewrite Ex in Hx. rewrite Ey in Hy. rewrite Ez in Hz.
  unfold snapToGrid. cbn [position x y z].
  rewrite (Math_round_within _ _ Hx), (Math_round_within _ _ Hy),
    (Math_round_within _ _ Hz), <- Ex, <- Ey, <- Ez.
  destruct e. reflexivity.
Qed.

Lemma endQuat_canon (m : Move) :
  endQuat m
  = turnRotation (axis m) (sign m) (targetQuarters (cw m) (quarters m) mod 4).
Proof. unfold endQuat, turnRotation. rewrite setFromAxisAngle_mod. reflexivity. Qed.

Lemma turnCubelets_endQuat (m : Move) (cs : list Cubelet) :
  turnCubelets m cs = map (turnCubelet (axis m) (sign m) (endQuat m)) cs.
Proof. reflexivity. Qed.

Lemma inLayer_listed (a : Axis) (sg : Z) (c : Cubelet) :
  inLayer a sg c = true -> In sg indices.
Proof.
  intros H. destruct (In_dec Z.eq_dec sg indices) as [Hs | Hs]; [exact Hs|].
  rewrite (inLayer_off_range a sg c Hs) in H. discriminate.
Qed.

(** In exact arithmetic a turn sends lattice points to lattice points. *)
Lemma turnCubelet_on_lattice (m : Move) (c : Cubelet) :
  In (position c) lattice ->
  In (position (turnCubelet (axis m) (sign m) (endQuat m) c)) lattice.
Proof.
  intros Hc. unfold turnCubelet.
  destruct (inLayer (axis m) (sign m) c) eqn:E; [|exact Hc].
  pose proof (inLayer_listed _ _ _ E) as Hs.
  pose proof (quarter_mod (targetQuarters (cw m) (quarters m))) as Hk.
  destruct (quarterTurn_facts (axis m) (sign m) _ Hs Hk)
    as [_ [_ [_ [Hperm _]]]].
  apply (Permutation_in _ Hperm).
  replace (position (snapToGrid (detachPreserve (endQuat m) c)))
    with (turnPosition (axis m) (sign m)
            (targetQuarters (cw m) (quarters m) mod 4) (position c)).
  - apply in_map, Hc.
  - rewrite <- position_turnCubelet, <- endQuat_canon.
    unfold turnCubelet. rewrite E. reflexivity.
Qed.

Section Arithmetic.

Variable attached : Attached.

(** With an accurate arithmetic the rounding of [snapToGrid] leaves the
    position that exact arithmetic gives. *)
Lemma position_turnCubeletWith (m : Move) (c : Cubelet) :
  accurate attached m -> In (position c) lattice ->
  position (turnCubeletWith attached m c)
  = position (turnCubelet (axis m) (sign m) (endQuat m) c).
Proof.
  intros Hacc Hc. unfold turnCubeletWith, turnCubelet.
  destruct (inLayer (axis m) (sign m) c) eqn:E; [|reflexivity].
  pose proof (inLayer_listed _ _ _ E) as Hs.
  pose proof (quarter_mod (targetQuarters (cw m) (quarters m))) as Hk.
  destruct (quarterTurn_facts (axis m) (sign m) _ Hs Hk) as [Hunit _].
  rewrite <- endQuat_canon in Hunit.
  assert (He : integralPosition (applyQuaternion (position c) (endQuat m))).
  { apply applyQuaternion_integral; [exact Hunit|].
    apply lattice_integral, Hc. }
  unfold detachComputed.
  rewrite (snapToGrid_absorbs _ _ _ _ (Hacc c Hc E) He).
  rewrite snapToGrid_integral; [reflexivity | exact He].
Qed.

Lemma home_turnCubeletWith (m : Move) (c : Cubelet) :
  home (turnCubeletWith attached m c) = home c.
Proof.
  unfold turnCubeletWith. destruct (inLayer (axis m) (sign m) c); reflexivity.
Qed.

Lemma position_turnCubelet_same (a : Axis) (sg : Z) (q : Rotation)
    (c' c : Cubelet) :
  position c' = position c ->
  position (turnCubelet a sg q c') = position (turnCubelet a sg q c).
Proof.
  intros H. unfold turnCubelet, inLayer, snapToGrid, detachPreserve.
  rewrite H.
  destruct (roundedIndex (component (position c) a) =? sg)%Z;
    cbn [position]; rewrite ?H; reflexivity.
Qed.

(** One turn: the positions are those of exact arithmetic, and stay on the
    lattice. *)
Lemma positions_turnCubeletsWith (m : Move) (cs' cs : list Cubelet) :
  accurate attached m ->
  Forall (fun c => In (position c) lattice) cs' ->
  map position cs' = map position cs ->
  map position (turnCubeletsWith attached m cs')
  = map position (turnCubelets m cs)
  /\ Forall (fun c => In (position c) lattice) (turnCubeletsWith attached m cs').
Proof.
  intros Hacc Hl. revert cs.
  induction Hl as [|c' cs' Hc' _ IH]; intros cs Hp.
  - destruct cs; [|discriminate]. split; [reflexivity | constructor].
  - destruct cs as [|c cs]; [discriminate|].
    cbn [map] in Hp. injection Hp as Hp1 Hp2.
    destruct (IH cs Hp2) as [IH1 IH2].
    rewrite turnCubelets_endQuat in *.
    unfold turnCubeletsWith in *. cbn [map].
    rewrite position_turnCubeletWith by assumption.
    split.
    + f_equal; [apply position_turnCubelet_same, Hp1 | exact IH1].
    + constructor; [|exact IH2].
      rewrite position_turnCubeletWith by assumption.
      apply turnCubelet_on_lattice, Hc'.
Qed.

Lemma positions_turnsWith (ms : list Move) (cs' cs : list Cubelet) :
  Forall (accurate attached) ms ->
  Forall (fun c => In (position c) lattice) cs' ->
  map position cs' = map position cs ->
  map position (turnsWith attached ms cs') = map position (turns ms cs)
  /\ Forall (fun c => In (position c) lattice) (turnsWith attached ms cs').
Proof.
  intros Hacc. revert cs' cs.
  induction Hacc as [|m ms Hm _ IH]; intros cs' cs Hl Hp.
  - split; assumption.
  - cbn [turnsWith turns fold_left].
    destruct (positions_turnCubeletsWith m cs' cs Hm Hl Hp) as [H1 H2].
    apply (IH _ _ H2 H1).
Qed.

Lemma homes_turnsWith (ms : list Move) (cs : list Cubelet) :
  map home (turnsWith attached ms cs) = map home cs.
Proof.
  unfold turnsWith. revert cs.
  induction ms as [|m ms IH]; intros cs; [reflexivity|].
  cbn [fold_left]. rewrite IH. unfold turnCubeletsWith. rewrite map_map.
  apply map_ext. intros c. apply home_turnCubeletWith.
Qed.

End Arithmetic.

Lemma turns_invariant (ms : list Move) (cs : list Cubelet) :
  cubeInvariant cs -> cubeInvariant (turns ms cs).
Proof.
  revert cs. induction ms as [|m ms IH]; intros cs H; [exact H|].
  cbn [turns fold_left]. apply IH, turnCubelets_invariant, H.
Qed.

Lemma turns_integral (ms : list Move) (cs : list Cubelet) :
  Forall (fun c => integralPosition (position c)) cs ->
  Forall (fun c => integralPosition (position c)) (turns ms cs).
Proof.
  revert cs. induction ms as [|m ms IH]; intros cs H; [exact H|].
  cbn [turns fold_left]. apply IH, turnCubelets_integral, H.
Qed.

Lemma turns_home (ms : list Move) (cs : list Cubelet) :
  map home (turns ms cs) = map home cs.
Proof.
  unfold turns. revert cs.
  induction ms as [|m ms IH]; intros cs; [reflexivity|].
  cbn [fold_left]. rewrite IH. unfold turnCubelets. rewrite map_map.
  apply map_ext. intros c. apply home_turnCubelet.
Qed.

Lemma buildSolvedCube_on_lattice :
  Forall (fun c => In (position c) lattice) buildSolvedCube.
Proof.
  apply Forall_forall. intros c Hc.
  rewrite <- buildSolvedCube_positions. apply in_map, Hc.
Qed.

Lemma lattice_positions_integral (cs : list Cubelet) :
  Forall (fun c => In (position c) lattice) cs ->
  Forall (fun c => integralPosition (position c)) cs.
Proof.
  intros H. eapply Forall_impl; [|exact H].
  intros c Hc. apply lattice_integral, Hc.
Qed.

Lemma onLatticeb_sound (cs : list Cubelet) :
  onLatticeb cs = true -> Forall (fun c => In (position c) lattice) cs.
Proof.
  unfold onLatticeb. rewrite forallb_forall, Forall_forall.
  intros H c Hc. specialize (H c Hc).
  rewrite existsb_exists in H. destruct H as [p [Hp E]].
  apply Vector3_eqb_eq in E. rewrite E. exact Hp.
Qed.

(** The coarse arithmetic of the examples is accurate at every turn. *)
Lemma looseAttach_accurate (ms : list Move) : Forall (accurate looseAttach) ms.
Proof.
  apply Forall_forall. intros m _ c _ _.
  unfold looseAttach, nearby, withinHalf. cbn [fst x y z].
  set (e := applyQuaternion (position c) (endQuat m)).
  replace (x e + Q2Qc (49 # 100) - x e) with (Q2Qc (49 # 100)) by ring.
  replace (y e - Q2Qc (1 # 2) - y e) with (- Q2Qc (1 # 2)) by ring.
  replace (z e + Q2Qc (1 # 4) - z e) with (Q2Qc (1 # 4)) by ring.
  reflexivity.
Qed.

End Absorb.

(** ** Quarter turns and quaternions of doubles *)

Section Irrational.

(** The square root of 2 is not a fraction. *)
Lemma square_is_not_double (d : Z) :
  (0 <= d)%Z -> forall n : Z, (2 * (n * n) = d * d)%Z -> d = 0%Z.
Proof.
  intros Hd. pattern d. apply Zlt_0_ind; [|exact Hd]. clear d Hd.
  intros d IH Hd n H.
  destruct (Z.eq_dec d 0) as [E | E]; [exact E|]. exfalso.
  destruct (Z.Even_or_Odd d) as [[k Hk] | [k Hk]]; [|subst d; lia].
  destruct (Z.Even_or_Odd n) as [[j Hj] | [j Hj]]; [|subst d n; lia].
  assert (Hk0 : k = 0%Z) by (apply (IH k) with (n := j); lia).
  lia.
Qed.

(** No fraction has the square 1/2: a JavaScript number is a fraction, so
    none is the sine or the cosine of 45 degrees. *)
Lemma no_rational_half (v : Qc) : v * (v + v) <> 1.
Proof.
  intros H.
  assert (E : (this (v * (v + v)) == this v * (this v + this v))%Q).
  { unfold Qcmult. rewrite this_Q2Qc, this_plus. reflexivity. }
  rewrite H in E. change (this 1) with 1%Q in E.
  destruct (this v) as [n d]. unfold Qeq, Qmult, Qplus in E.
  cbn [Qnum Qden] in E.
  assert (Hd : (Z.pos d = 0)%Z).
  { apply (square_is_not_double (Z.pos d)) with (n := n); [lia|].
    rewrite !Pos2Z.inj_mul in E. nia. }
  discriminate.
Qed.

Lemma unit_entry_near (u e : Qc) :
  isUnitEntry u = true -> isUnitEntry e = true ->
  ltb (Math_abs (u - e)) (Q2Qc (1 # 2)) = true -> u = e.
Proof.
  intros Hu He.
  destruct (isUnitEntry_cases u Hu) as [-> | [-> | ->]];
    destruct (isUnitEntry_cases e He) as [-> | [-> | ->]];
    intros H; first [reflexivity | vm_compute in H; discriminate].
Qed.

(** The rotation by a quarter turn about [x] is not the rotation of any
    quaternion whose four numbers are fractions. *)
Lemma quarter_turn_is_no_quaternion (q : Quaternion) :
  isQuarterRotation (makeRotationFromQuaternion q) = true ->
  nearRotation (makeRotationFromQuaternion q) (endQuat turnR) = true ->
  False.
Proof.
  unfold isQuarterRotation, nearRotation.
  rewrite !andb_true_iff. intros [[Hunit _] _] Hnear.
  destruct Hnear as [[[[[[[[N11 _] _] _] N22] _] _] _] N33].
  rewrite forallb_forall in Hunit.
  assert (H11 : m11 (makeRotationFromQuaternion q) = 1).
  { apply unit_entry_near; [apply Hunit; cbn; auto | reflexivity | exact N11]. }
  assert (H22 : m22 (makeRotationFromQuaternion q) = 0).
  { apply unit_entry_near;
      [apply Hunit; cbn; auto 10 | reflexivity | exact N22]. }
  assert (H33 : m33 (makeRotationFromQuaternion q) = 0).
  { apply unit_entry_near;
      [apply Hunit; cbn; auto 10 | reflexivity | exact N33]. }
  unfold makeRotationFromQuaternion in H11, H22, H33.
  cbn [m11 m22 m33] in H11, H22, H33.
  apply (no_rational_half (qx q)).
  set (xx := qx q * (qx q + qx q)) in *.
  set (yy := qy q * (qy q + qy q)) in *.
  set (zz := qz q * (qz q + qz q)) in *.
  assert (E : xx + xx
              = 1 + (1 - (yy + zz)) - (1 - (xx + zz)) - (1 - (xx + yy)))
    by ring.
  rewrite H11, H22, H33 in E.
  assert (E2 : xx = (xx + xx) / (1 + 1)) by (field; discriminate).
  rewrite E2, E. apply Qc_is_canon. reflexivity.
Qed.

(** The quaternion of the coarse arithmetic is near the clockwise quarter
    turn of the right face, on every cubelet of the solved cube. *)
Lemma looseAttach_near_quarter_turn (c : Cubelet) :
  In c buildSolvedCube ->
  nearRotation (makeRotationFromQuaternion (snd (looseAttach turnR c)))
               (quaternion (detachPreserve (endQuat turnR) c)) = true.
Proof.
  intros Hc. unfold buildSolvedCube in Hc.
  rewrite in_flat_map in Hc. destruct Hc as [xi [_ Hc]].
  rewrite in_flat_map in Hc. destruct Hc as [yi [_ Hc]].
  rewrite in_map_iff in Hc. destruct Hc as [zi [<- _]].
  vm_compute. reflexivity.
Qed.

End Irrational.

(** * The claims *)

Section Closeness.

Lemma computeCloseness_solved (s : State) :
  cubelets s = buildSolvedCube -> computeCloseness s = 1.
Proof.
  intros H. unfold computeCloseness. rewrite H.
  apply Qc_is_canon. vm_compute. reflexivity.
Qed.

(** The orientation test of [computeCloseness] accepts every rotation of
    the cube, not only the identity. *)
Lemma aligned_cubeRotation (c : Cubelet) :
  In (quaternion c) cubeRotations -> aligned c = true.
Proof.
  intros H.
  assert (Hall : forallb (fun q => aligned (mkCubelet (position c) q (home c)))
                         cubeRotations = true).
  { unfold aligned. cbn [quaternion]. vm_compute. reflexivity. }
  rewrite forallb_forall in Hall. specialize (Hall _ H).
  destruct c. exact Hall.
Qed.

(** What the loop of [computeCloseness] counts. *)
Lemma closenessCounts_from (cs : list Cubelet) (correct total : Z) :
  fold_left (fun acc c =>
               if isCore c then acc
               else (if posOk c && aligned c then (fst acc + 1)%Z else fst acc,
                     (snd acc + 1)%Z))
            cs (correct, total)
  = ((correct + Z.of_nat (length (filter
        (fun c => negb (isCore c) && (posOk c && aligned c)) cs)))%Z,
     (total + Z.of_nat (length (filter (fun c => negb (isCore c)) cs)))%Z).
Proof.
  revert correct total. induction cs as [|c cs IH]; intros correct total.
  - cbn [fold_left filter length Z.of_nat]. f_equal; lia.
  - cbn [fold_left filter]. destruct (isCore c); cbn [negb andb fst snd].
    + apply IH.
    + rewrite IH. destruct (posOk c && aligned c);
        cbn [length]; f_equal; lia.
Qed.

End Closeness.

(** C1.  Starting from the solved cube, in any mode, after any finite sequence
    of turns requested with [record = true], the history holds these turns,
    Assemble undoes them from the newest to the oldest, and when it is done
    the closeness is 1, the history is empty and the cube is the solved
    cube. *)
Theorem assemble_restores_solved (md : Mode) (ms : list Move) :
  let s := recordedTurns ms (set_mode md initialState) in
  moveHistory s = ms
  /\ cubelets (btnSolve s)
     = fold_left (fun cs m => turnCubelets (inverse m) cs) (rev ms) (cubelets s)
  /\ computeCloseness (btnSolve s) = 1
  /\ moveHistory (btnSolve s) = []
  /\ cubelets (btnSolve s) = buildSolvedCube.
Proof.
  intros s.
  destruct (recordedTurns_idle ms (set_mode md initialState) eq_refl)
    as [Ht [Hh [Hc _]]].
  fold s in Ht, Hh, Hc. cbn [set_mode initialState moveHistory cubelets app] in Hh, Hc.
  assert (Hundo : fold_left (fun cs m => turnCubelets (inverse m) cs) (rev ms)
                            (cubelets s) = buildSolvedCube).
  { rewrite Hc. apply undo_all.
    apply cubeInvariant_integral, buildSolvedCube_invariant. }
  assert (Hsolved : cubelets (btnSolve s) = buildSolvedCube
                    /\ moveHistory (btnSolve s) = []).
  { destruct ms as [|m ms'].
    - unfold btnSolve. rewrite Hh. cbn [length Nat.eqb].
      rewrite orb_true_r. cbn [rev fold_left] in Hundo. auto.
    - rewrite btnSolve_idle by (rewrite ?Hh; first [assumption | discriminate]).
      cbn [set_moveHistory set_cubelets cubelets moveHistory].
      rewrite Hh, Hundo. auto. }
  destruct Hsolved as [Hcs Hempty].
  repeat split.
  - exact Hh.
  - rewrite Hcs, Hundo. reflexivity.
  - apply computeCloseness_solved, Hcs.
  - exact Hempty.
  - exact Hcs.
Qed.

(** C3.  Closure, in the program's own arithmetic.  Start from the solved
    cube and make any finite sequence of turns, with any double-precision
    arithmetic that, at these turns, leaves each coordinate of a turned
    cubelet within half a unit of the exact one.  Then the positions of the
    cubelets are a permutation of the 27 points of the lattice {-1,0,1}^3,
    the cubelets are 27, and each keeps its home: the rounding of
    [snapToGrid] takes the error away at every turn.  The orientation of a
    turned cubelet is the rotation of the quaternion that the arithmetic
    leaves, as it is: no step of the turn rounds it. *)
Theorem turns_keep_the_lattice (attached : Attached) (ms : list Move) :
  Forall (accurate attached) ms ->
  let cs := turnsWith attached ms buildSolvedCube in
  Permutation (map position cs) lattice
  /\ length cs = 27%nat
  /\ map home cs = map home buildSolvedCube
  /\ (forall m c, inLayer (axis m) (sign m) c = true ->
        quaternion (turnCubeletWith attached m c)
        = makeRotationFromQuaternion (snd (attached m c))).
Proof.
  intros Hacc cs.
  destruct (positions_turnsWith attached ms buildSolvedCube buildSolvedCube
              Hacc buildSolvedCube_on_lattice eq_refl)
    as [Hpos _].
  fold cs in Hpos.
  assert (Hperm : Permutation (map position cs) lattice).
  { rewrite Hpos. apply (turns_invariant ms buildSolvedCube).
    apply buildSolvedCube_invariant. }
  split; [exact Hperm|]. split; [|split].
  - rewrite <- (length_map position cs), (Permutation_length Hperm).
    reflexivity.
  - apply homes_turnsWith.
  - intros m c Hl. unfold turnCubeletWith. rewrite Hl. reflexivity.
Qed.

Lemma turns_keep_the_lattice_witness :
  Forall (accurate looseAttach) [turnR; mkMove AxisY (-1) false 2] /\
  Permutation
    (map position
       (turnsWith looseAttach [turnR; mkMove AxisY (-1) false 2]
                  buildSolvedCube))
    lattice.
Proof.
  split; [apply looseAttach_accurate|].
  apply (turns_keep_the_lattice looseAttach
           [turnR; mkMove AxisY (-1) false 2] (looseAttach_accurate _)).
Defined.

(** C3, the orientations.  After one clockwise quarter turn of the right
    face of the solved cube, the cubelets of that face cannot all have an
    orientation that is a rotation by multiples of 90 degrees: whatever the
    four numbers of the quaternions are, if the rotation they give is within
    half a unit, entry by entry, of the quarter turn about [x], it is not a
    rotation with entries 0, 1 and -1, since that would take a number whose
    square is 1/2. *)
Lemma quarter_turn_orientation_not_exact :
  ~ exists attached : Attached,
      (forall c, In c buildSolvedCube ->
         inLayer (axis turnR) (sign turnR) c = true ->
         nearRotation (makeRotationFromQuaternion (snd (attached turnR c)))
                      (quaternion (detachPreserve (endQuat turnR) c)) = true)
      /\ Forall (fun c => isQuarterRotation (quaternion c) = true)
                (turnsWith attached [turnR] buildSolvedCube).
Proof.
  intros [attached [Hnear Hall]].
  pose (c0 := mkCubelet (mkVector3 (ofZ 1) (ofZ 0) (ofZ 0)) identity
                        (mkVector3 (ofZ 1) (ofZ 0) (ofZ 0))).
  assert (Hin : In c0 buildSolvedCube)
    by (apply (nth_error_In buildSolvedCube 22); reflexivity).
  assert (Hl : inLayer (axis turnR) (sign turnR) c0 = true)
    by (vm_compute; reflexivity).
  specialize (Hnear c0 Hin Hl).
  replace (quaternion (detachPreserve (endQuat turnR) c0))
    with (endQuat turnR) in Hnear
    by (symmetry; apply Rotation_eqb_eq; vm_compute; reflexivity).
  rewrite Forall_forall in Hall.
  specialize (Hall (turnCubeletWith attached turnR c0)
                   (in_map (turnCubeletWith attached turnR) _ _ Hin)).
  unfold turnCubeletWith in Hall. rewrite Hl in Hall.
  cbn [snapToGrid detachComputed quaternion] in Hall.
  exact (quarter_turn_is_no_quaternion _ Hall Hnear).
Qed.

(** C4.  [computeCloseness] counts the non-core cubelets that pass [posOk]
    and [aligned], and [aligned] accepts each of the rotations of the cube,
    not the identity alone.  After one clockwise quarter turn of the right
    face, the centre cubelet of that face is at home but turned, and it is
    counted as correct: the code counts 18 of 26, and returns 9/13, where the
    cubelets in their home position and orientation are 17 of 26. *)
Theorem closeness_counts_turned_centre :
  (forall cs,
      closenessCounts cs
      = (Z.of_nat (length (filter
           (fun c => negb (isCore c) && (posOk c && aligned c)) cs)),
         Z.of_nat (length (filter (fun c => negb (isCore c)) cs))))
  /\ (forall p h,
        forallb (fun q => aligned (mkCubelet p q h)) cubeRotations = true)
  /\ existsb (fun c => negb (isCore c)
                       && Vector3_eqb (position c) (home c)
                       && negb (Rotation_eqb (quaternion c) identity)
                       && (posOk c && aligned c))
             (cubelets rightFaceTurned) = true
  /\ closenessCounts (cubelets rightFaceTurned) = (18, 26)%Z
  /\ homeCounts (cubelets rightFaceTurned) = (17, 26)%Z
  /\ computeCloseness rightFaceTurned = Q2Qc (9 # 13).
Proof.
  split; [|split].
  - intros cs. unfold closenessCounts. rewrite closenessCounts_from.
    reflexivity.
  - intros p h. apply forallb_forall. intros q Hq.
    apply aligned_cubeRotation. exact Hq.
  - repeat split; try (vm_compute; reflexivity).
    apply Qc_is_canon. vm_compute. reflexivity.
Qed.

(** C5, as stated, fails: the snap step rounds positions only.  A turn of
    the right layer moves the drifted cubelet, puts it exactly on the lattice
    point (1, 1, 0), and leaves its orientation tilted. *)
Lemma snap_leaves_orientation_tilted :
  inLayer AxisX 1 driftedCubelet = true
  /\ forallb (fun c => Vector3_eqb (position c) (mkVector3 1 1 0))
             (cubelets (animateTurn (mkMove AxisX 1 true 1) true driftedState))
     = true
  /\ forallb (fun c => isQuarterRotation (quaternion c))
             (cubelets (animateTurn (mkMove AxisX 1 true 1) true driftedState))
     = false
  /\ isQuarterRotation (quaternion (snapToGrid driftedCubelet)) = false.
Proof. vm_compute. auto. Qed.

Lemma Math_round_in_range (v : Qc) :
  - Q2Qc (3 # 2) <= v -> v < Q2Qc (3 # 2) -> In (Math_round v) indices.
Proof.
  unfold Qcle, Qclt, Qcopp, Math_round. rewrite !this_Q2Qc. intros Hlo Hhi.
  pose proof (Qfloor_le (this v + (1 # 2))) as Hf.
  pose proof (Qlt_floor (this v + (1 # 2))) as Hc.
  set (n := Qfloor (this v + (1 # 2))) in *.
  assert (H1 : (inject_Z n < inject_Z 2)%Q).
  { eapply Qle_lt_trans; [exact Hf|]. unfold inject_Z. lra. }
  assert (H2 : (inject_Z (-1) < inject_Z (n + 1))%Q).
  { eapply Qle_lt_trans; [|exact Hc]. unfold inject_Z. lra. }
  rewrite <- Zlt_Qlt in H1, H2. unfold indices. simpl.
  assert (Hn : (n = -1 \/ n = 0 \/ n = 1)%Z) by lia.
  intuition auto.
Qed.

(** C5, amended.  At the end of a turn each moved cubelet has its rotated
    position rounded, component by component, to a nearest integer, which is
    -1, 0 or 1 whenever the component lies in [-3/2, 3/2); its orientation is
    the group's rotation composed with the orientation it had, not rounded. *)
Theorem turn_snaps_position_only (a : Axis) (sg : Z) (endQuat : Rotation)
    (c : Cubelet) :
  inLayer a sg c = true ->
  let r := applyQuaternion (position c) endQuat in
  let c' := turnCubelet a sg endQuat c in
  c' = snapToGrid (detachPreserve endQuat c)
  /\ position c' = mkVector3 (ofZ (Math_round (x r))) (ofZ (Math_round (y r)))
                             (ofZ (Math_round (z r)))
  /\ (forall ax, component r ax - Q2Qc (1 # 2) < component (position c') ax
                 /\ component (position c') ax <= component r ax + Q2Qc (1 # 2))
  /\ (forall ax, - Q2Qc (3 # 2) <= component r ax ->
                 component r ax < Q2Qc (3 # 2) ->
                 exists n, In n indices /\ component (position c') ax = ofZ n)
  /\ quaternion c' = multiply endQuat (quaternion c)
  /\ quaternion (snapToGrid c) = quaternion c.
Proof.
  intros Hin r c'. unfold c', turnCubelet. rewrite Hin.
  split; [reflexivity|]. split; [reflexivity|].
  split; [|split; [|split; reflexivity]].
  - intros ax. split; destruct ax; apply Math_round_nearest.
  - intros ax Hlo Hhi. exists (Math_round (component r ax)).
    split; [apply Math_round_in_range; assumption|].
    destruct ax; reflexivity.
Qed.

Lemma turn_snaps_position_only_witness :
  inLayer AxisX 1 driftedCubelet = true
  /\ quaternion (turnCubelet AxisX 1 (turnRotation AxisX 1 (-1)) driftedCubelet)
     = multiply (turnRotation AxisX 1 (-1)) (quaternion driftedCubelet)
  /\ exists n, In n indices
               /\ component
                    (position (turnCubelet AxisX 1 (turnRotation AxisX 1 (-1))
                                 driftedCubelet)) AxisY = ofZ n.
Proof.
  split; [reflexivity|].
  destruct (turn_snaps_position_only AxisX 1 (turnRotation AxisX 1 (-1))
              driftedCubelet eq_refl) as [_ [_ [_ [Hrange [Hq _]]]]].
  split; [exact Hq|].
  apply (Hrange AxisY); vm_compute; [discriminate | reflexivity].
Defined.

(** C6, as stated, fails: a cubelet whose rounded coordinate is 2 is not
    excluded, [selectLayer] puts it in the layer of sign 1. *)
Lemma selectLayer_keeps_stray_cubelet :
  Math_round (component (position strayCubelet) AxisX) = 2%Z
  /\ selectLayer AxisX 1 [strayCubelet] = [strayCubelet].
Proof. split; reflexivity. Qed.

(** C6, amended.  [selectLayer axis sign] returns exactly the cubelets whose
    current coordinate along the axis, rounded to the nearest integer and
    then clamped into [-1, 1], equals the sign; a cubelet whose rounded
    coordinate is outside {-1, 0, 1} falls in the nearest outer layer.  The
    home of a cubelet plays no part. *)
Theorem selectLayer_clamped (a : Axis) (sg : Z) (cs : list Cubelet)
    (c : Cubelet) :
  (In c (selectLayer a sg cs) <->
   In c cs /\
   Z.max (-1) (Z.min 1 (Math_round (component (position c) a))) = sg)
  /\ (forall h, inLayer a sg (mkCubelet (position c) (quaternion c) h)
                = inLayer a sg c).
Proof.
  split.
  - unfold selectLayer, inLayer.
    rewrite filter_In, Z.eqb_eq, roundedIndex_clamp. reflexivity.
  - intros h. reflexivity.
Qed.

(** C7.  While a turn is in flight every turn request is dropped: a call
    of [animateTurn], a double click and a pointer press leave the state as it
    is, and no event at all, a drag release included, changes a cubelet, the
    move history, the setup counter, the setup sequence or the mode. *)
Theorem turn_request_rejected_in_flight (s : State) :
  isTurning s = true ->
  (forall m record, animateTurn m record s = s)
  /\ (forall hit, onDoubleClick hit s = s)
  /\ (forall hit, onPointerDown hit s = s)
  /\ (forall e,
        cubelets (handle e s) = cubelets s
        /\ moveHistory (handle e s) = moveHistory s
        /\ setupCount (handle e s) = setupCount s
        /\ setupSequence (handle e s) = setupSequence s
        /\ mode (handle e s) = mode s
        /\ isTurning (handle e s) = true).
Proof.
  intros Ht.
  assert (Hkeep : cubelets s = cubelets s /\ moveHistory s = moveHistory s
                  /\ setupCount s = setupCount s
                  /\ setupSequence s = setupSequence s
                  /\ mode s = mode s /\ isTurning s = true)
    by (repeat split; exact Ht).
  split; [|split; [|split]].
  - intros m record. apply animateTurn_turning, Ht.
  - intros hit. unfold onDoubleClick. rewrite Ht. reflexivity.
  - intros hit. unfold onPointerDown. rewrite Ht. reflexivity.
  - intros e.
    destruct e as [hit | endPoint | hit | draws | | | | | m record];
      cbn [handle].
    + unfold onPointerDown. rewrite Ht. exact Hkeep.
    + unfold onPointerUp. destruct (isPointerDown s); [|exact Hkeep].
      destruct (dragInfo s) as [d|]; [|exact Hkeep].
      match goal with |- context [if ?b then _ else _] => destruct b end.
      * cbn [set_pointer cubelets moveHistory setupCount setupSequence mode
             isTurning]. exact Hkeep.
      * rewrite animateTurn_turning by exact Ht.
        cbn [set_pointer cubelets moveHistory setupCount setupSequence mode
             isTurning]. exact Hkeep.
    + unfold onDoubleClick. rewrite Ht. exact Hkeep.
    + unfold btnScramble. rewrite Ht. exact Hkeep.
    + unfold btnReset. rewrite Ht. exact Hkeep.
    + unfold btnSolve. rewrite Ht. exact Hkeep.
    + unfold btnSetup. rewrite Ht. exact Hkeep.
    + unfold btnPlay. rewrite Ht. exact Hkeep.
    + rewrite animateTurn_turning by exact Ht. exact Hkeep.
Qed.

Lemma turn_request_rejected_in_flight_witness :
  isTurning (startTurn initialState) = true /\
  animateTurn (mkMove AxisY 1 false 1) true (startTurn initialState)
  = startTurn initialState.
Proof.
  split; [reflexivity|].
  apply (turn_request_rejected_in_flight (startTurn initialState) eq_refl).
Defined.

(** C8.  A drag release on a picked face, with [du] and [dv] the components
    of the drag along the face's right and up directions.  Below the
    threshold no move is produced: only the pointer bookkeeping changes.
    Otherwise, when [|du|] dominates, a quarter turn of the picked face is
    requested with [cw = (du > 0)], and when [|dv|] dominates, with
    [cw = (dv < 0)]; with no turn in flight that move is appended to the
    history. *)
Theorem drag_release_move (endPoint : Vector3) (d : DragInfo) (s : State) :
  isPointerDown s = true -> dragInfo s = Some d ->
  let du := dot (sub endPoint (startPoint d)) (uVec d) in
  let dv := dot (sub endPoint (startPoint d)) (vVec d) in
  let s1 := set_pointer false None s in
  let turn := fun clockwise => mkMove (d_axis d) (d_sign d) clockwise 1 in
  (Math_max (Math_abs du) (Math_abs dv) < threshold ->
   onPointerUp endPoint s = s1)
  /\ (threshold <= Math_max (Math_abs du) (Math_abs dv) ->
      Math_abs dv < Math_abs du ->
      onPointerUp endPoint s = animateTurn (turn (ltb 0 du)) true s1
      /\ (ltb 0 du = true <-> 0 < du)
      /\ (isTurning s = false ->
          moveHistory (onPointerUp endPoint s)
          = moveHistory s ++ [turn (ltb 0 du)]))
  /\ (threshold <= Math_max (Math_abs du) (Math_abs dv) ->
      Math_abs du < Math_abs dv ->
      onPointerUp endPoint s = animateTurn (turn (ltb dv 0)) true s1
      /\ (ltb dv 0 = true <-> dv < 0)
      /\ (isTurning s = false ->
          moveHistory (onPointerUp endPoint s)
          = moveHistory s ++ [turn (ltb dv 0)])).
Proof.
  intros Hdown Hdrag du dv s1 turn.
  unfold onPointerUp. rewrite Hdown, Hdrag.
  fold du dv s1.
  split; [|split].
  - intros Hsmall. apply ltb_lt in Hsmall. rewrite Hsmall. reflexivity.
  - intros Hbig Hu. apply ltb_ge in Hbig. rewrite Hbig.
    assert (Hle : leb (Math_abs dv) (Math_abs du) = true)
      by (apply leb_le, Qclt_le_weak, Hu).
    rewrite Hle. fold (turn (ltb 0 du)).
    split; [reflexivity|]. split; [apply ltb_lt|].
    intros Ht. apply (moveHistory_recorded _ s1). exact Ht.
  - intros Hbig Hv. apply ltb_ge in Hbig. rewrite Hbig.
    assert (Hle : leb (Math_abs dv) (Math_abs du) = false).
    { apply not_true_iff_false. intros H. apply leb_le in H.
      apply (Qclt_not_le _ _ Hv H). }
    rewrite Hle. fold (turn (ltb dv 0)).
    split; [reflexivity|]. split; [apply ltb_lt|].
    intros Ht. apply (moveHistory_recorded _ s1). exact Ht.
Qed.

Lemma drag_release_move_witness :
  isPointerDown draggingState = true /\ dragInfo draggingState = Some frontDrag
  /\ onPointerUp (mkVector3 (Q2Qc (1 # 10)) 0 1) draggingState
     = set_pointer false None draggingState
  /\ moveHistory (onPointerUp (mkVector3 (Q2Qc (1 # 2)) (Q2Qc (1 # 10)) 1)
                              draggingState)
     = [mkMove AxisZ 1 true 1]
  /\ moveHistory (onPointerUp (mkVector3 (Q2Qc (1 # 10)) (Q2Qc (1 # 2)) 1)
                              draggingState)
     = [mkMove AxisZ 1 false 1].
Proof.
  split; [reflexivity|]. split; [reflexivity|].
  split; [|split].
  - apply (drag_release_move (mkVector3 (Q2Qc (1 # 10)) 0 1) frontDrag
             draggingState eq_refl eq_refl).
    vm_compute. reflexivity.
  - apply (drag_release_move (mkVector3 (Q2Qc (1 # 2)) (Q2Qc (1 # 10)) 1)
             frontDrag draggingState eq_refl eq_refl).
    + vm_compute. discriminate.
    + vm_compute. reflexivity.
    + reflexivity.
  - apply (drag_release_move (mkVector3 (Q2Qc (1 # 10)) (Q2Qc (1 # 2)) 1)
             frontDrag draggingState eq_refl eq_refl).
    + vm_compute. discriminate.
    + vm_compute. reflexivity.
    + reflexivity.
Defined.

(** C9.  Assemble with an empty history changes nothing: the handler returns
    at once and the whole state is as before. *)
Theorem assemble_empty_history_noop (s : State) :
  moveHistory s = [] -> btnSolve s = s.
Proof.
  intros H. unfold btnSolve. rewrite H. cbn [length Nat.eqb].
  rewrite orb_true_r. reflexivity.
Qed.

Lemma assemble_empty_history_noop_witness :
  moveHistory initialState = [] /\ btnSolve initialState = initialState.
Proof.
  split; [reflexivity|].
  apply (assemble_empty_history_noop initialState eq_refl).
Defined.

(** C10.  Assemble, invoked with no turn in flight and a non-empty history,
    sets the mode to [play] first; every state the replay goes through, from
    the one it starts in to the one it ends in, has mode [play], and so has
    the state Assemble leaves, whatever the mode was before. *)
Theorem assemble_sets_play (s : State) :
  isTurning s = false -> moveHistory s <> [] ->
  let s1 := set_mode play s in
  let n := length (moveHistory s1) in
  btnSolve s = set_moveHistory [] (solveLoop n s1)
  /\ mode s1 = play
  /\ Forall (fun st => mode st = play) (solveTrace n s1)
  /\ last (solveTrace n s1) s1 = solveLoop n s1
  /\ mode (btnSolve s) = play.
Proof.
  intros Ht Hh s1 n.
  assert (Hb : btnSolve s = set_moveHistory [] (solveLoop n s1)).
  { unfold btnSolve. rewrite Ht.
    destruct (moveHistory s) eqn:E; [congruence|]. reflexivity. }
  split; [exact Hb|]. split; [reflexivity|].
  split; [apply (solveTrace_mode n s1)|].
  split; [apply solveTrace_last|].
  rewrite Hb. cbn [set_moveHistory mode]. apply solveLoop_mode.
Qed.

Lemma assemble_sets_play_witness :
  isTurning rightFaceTurned = false /\ moveHistory rightFaceTurned <> []
  /\ mode rightFaceTurned = idle
  /\ mode (btnSolve rightFaceTurned) = play.
Proof.
  assert (H : moveHistory rightFaceTurned <> []) by (vm_compute; discriminate).
  split; [reflexivity|]. split; [exact H|]. split; [reflexivity|].
  apply (assemble_sets_play rightFaceTurned eq_refl H).
Defined.

(** * Further properties of the turn engine *)

Section Composition.

Lemma forEachTurnPair_spec (f : Axis -> Z -> Z -> Z -> bool) :
  forEachTurnPair f = true ->
  forall a sg k1 k2,
    In sg indices -> In k1 [0; 1; 2; 3]%Z -> In k2 [0; 1; 2; 3]%Z ->
    f a sg k1 k2 = true.
Proof.
  unfold forEachTurnPair. rewrite forallb_forall. intros H a sg k1 k2 Hs H1 H2.
  apply (H (a, sg, k1, k2)).
  apply in_prod; [apply quarterTurn_listed|]; assumption.
Qed.

(** Angles add: two rotations of a layer make the rotation by the sum. *)
Lemma turns_add :
  forEachTurnPair (fun a sg k1 k2 =>
    Rotation_eqb (multiply (turnRotation a sg k2) (turnRotation a sg k1))
                 (turnRotation a sg (k1 + k2))) = true.
Proof. vm_compute. reflexivity. Qed.

Lemma turnRotation_mod (a : Axis) (sg k : Z) :
  turnRotation a sg (k mod 4) = turnRotation a sg k.
Proof. apply setFromAxisAngle_mod. Qed.

Lemma turnRotation_add (a : Axis) (sg k1 k2 : Z) :
  In sg indices ->
  multiply (turnRotation a sg k2) (turnRotation a sg k1)
  = turnRotation a sg (k1 + k2).
Proof.
  intros Hs.
  rewrite <- (turnRotation_mod a sg k1), <- (turnRotation_mod a sg k2),
    <- (turnRotation_mod a sg (k1 + k2)).
  rewrite Z.add_mod by discriminate.
  rewrite (turnRotation_mod a sg (k1 mod 4 + k2 mod 4)).
  apply Rotation_eqb_eq.
  apply (forEachTurnPair_spec _ turns_add a sg (k1 mod 4) (k2 mod 4) Hs);
    apply quarter_mod.
Qed.

Lemma turnRotation_unit (a : Axis) (sg k : Z) :
  In sg indices -> forallb isUnitEntry (entries (turnRotation a sg k)) = true.
Proof.
  intros Hs. rewrite <- turnRotation_mod.
  apply (quarterTurn_facts a sg (k mod 4) Hs (quarter_mod k)).
Qed.

Lemma turnRotation_row (a : Axis) (sg k : Z) :
  In sg indices -> rowIsAxis a (turnRotation a sg k) = true.
Proof.
  intros Hs. rewrite <- turnRotation_mod.
  apply (quarterTurn_facts a sg (k mod 4) Hs (quarter_mod k)).
Qed.

(** On a lattice cubelet of the layer, the snap has nothing to round. *)
Lemma turnCubelet_moved (a : Axis) (sg k : Z) (c : Cubelet) :
  In sg indices -> integralPosition (position c) -> inLayer a sg c = true ->
  turnCubelet a sg (turnRotation a sg k) c
  = detachPreserve (turnRotation a sg k) c
  /\ inLayer a sg (detachPreserve (turnRotation a sg k) c) = true
  /\ integralPosition (position (detachPreserve (turnRotation a sg k) c)).
Proof.
  intros Hs Hp Hin.
  assert (Hi : integralPosition
                 (position (detachPreserve (turnRotation a sg k) c)))
    by (apply applyQuaternion_integral;
        [apply turnRotation_unit | ]; assumption).
  assert (Hsnap : snapToGrid (detachPreserve (turnRotation a sg k) c)
                  = detachPreserve (turnRotation a sg k) c)
    by (apply snapToGrid_integral, Hi).
  split; [|split].
  - unfold turnCubelet. rewrite Hin. exact Hsnap.
  - rewrite <- Hsnap, inLayer_turned by (apply turnRotation_row, Hs).
    exact Hin.
  - exact Hi.
Qed.

Lemma turnCubelet_compose (a : Axis) (sg k1 k2 : Z) (c : Cubelet) :
  integralPosition (position c) ->
  turnCubelet a sg (turnRotation a sg k2)
    (turnCubelet a sg (turnRotation a sg k1) c)
  = turnCubelet a sg (turnRotation a sg (k1 + k2)) c.
Proof.
  intros Hp.
  destruct (In_dec Z.eq_dec sg indices) as [Hs | Hs].
  - destruct (inLayer a sg c) eqn:Hin.
    + destruct (turnCubelet_moved a sg k1 c Hs Hp Hin) as [E1 [Hin1 Hp1]].
      destruct (turnCubelet_moved a sg k2 _ Hs Hp1 Hin1) as [E2 _].
      destruct (turnCubelet_moved a sg (k1 + k2) c Hs Hp Hin) as [E3 _].
      rewrite E1, E2, E3, detachPreserve_compose, turnRotation_add
        by assumption.
      reflexivity.
    + unfold turnCubelet. rewrite Hin, Hin. reflexivity.
  - rewrite !turnCubelet_off_range by assumption. reflexivity.
Qed.

Lemma turnCubelets_as_map (m : Move) (cs : list Cubelet) :
  turnCubelets m cs
  = map (turnCubelet (axis m) (sign m)
           (turnRotation (axis m) (sign m)
              (targetQuarters (cw m) (quarters m)))) cs.
Proof. reflexivity. Qed.

Lemma targetQuarters_add (c : bool) (q1 q2 : Z) :
  (1 <= q1)%Z -> (1 <= q2)%Z ->
  (targetQuarters c q1 + targetQuarters c q2 = targetQuarters c (q1 + q2))%Z.
Proof. intros H1 H2. unfold targetQuarters. destruct c; lia. Qed.

Lemma turnCubelet_zero (a : Axis) (sg : Z) (c : Cubelet) :
  integralPosition (position c) ->
  turnCubelet a sg (turnRotation a sg 0) c = c.
Proof.
  intros Hp.
  destruct (In_dec Z.eq_dec sg indices) as [Hs | Hs].
  - change 0%Z with (0 + 0)%Z at 1.
    rewrite <- (turnCubelet_compose a sg 0 0 c Hp).
    apply (turnCubelet_back a sg 0 c Hs (or_introl eq_refl) Hp).
  - apply turnCubelet_off_range, Hs.
Qed.

Lemma turnCubelet_full (a : Axis) (sg k : Z) (c : Cubelet) :
  (k mod 4 = 0)%Z -> integralPosition (position c) ->
  turnCubelet a sg (turnRotation a sg k) c = c.
Proof.
  intros Hk Hp. rewrite <- turnRotation_mod, Hk. apply turnCubelet_zero, Hp.
Qed.

Lemma targetQuarters_full (c : bool) : (targetQuarters c 4 mod 4 = 0)%Z.
Proof. destruct c; reflexivity. Qed.

End Composition.

Lemma turnCubelets_add (a : Axis) (sg : Z) (c : bool) (q1 q2 : Z)
    (cs : list Cubelet) :
  (1 <= q1)%Z -> (1 <= q2)%Z ->
  Forall (fun c => integralPosition (position c)) cs ->
  turnCubelets (mkMove a sg c q2) (turnCubelets (mkMove a sg c q1) cs)
  = turnCubelets (mkMove a sg c (q1 + q2)) cs.
Proof.
  intros H1 H2 Hcs. rewrite !turnCubelets_as_map. cbn [axis sign cw quarters].
  rewrite map_map, <- targetQuarters_add by assumption.
  apply map_ext_in. intros x Hx. apply turnCubelet_compose.
  rewrite Forall_forall in Hcs. apply Hcs, Hx.
Qed.

Lemma buildSolvedCube_integral :
  Forall (fun c => integralPosition (position c)) buildSolvedCube.
Proof. apply cubeInvariant_integral, buildSolvedCube_invariant. Qed.

Lemma turnCubelets_four (a : Axis) (sg : Z) (c : bool) (cs : list Cubelet) :
  Forall (fun c => integralPosition (position c)) cs ->
  turns [mkMove a sg c 1; mkMove a sg c 1; mkMove a sg c 1; mkMove a sg c 1] cs
  = cs
  /\ turns [mkMove a sg c 2; mkMove a sg c 2] cs = cs.
Proof.
  intros Hcs. unfold turns. cbn [fold_left].
  assert (Hfull : turnCubelets (mkMove a sg c 4) cs = cs).
  { rewrite turnCubelets_as_map. cbn [axis sign cw quarters].
    apply (map_fixed _ _ _ (fun x Hx =>
             turnCubelet_full a sg (targetQuarters c 4) x
               (targetQuarters_full c) Hx) Hcs). }
  split.
  - rewrite (turnCubelets_add a sg c 1 1 cs) by (first [lia | assumption]).
    rewrite (turnCubelets_add a sg c (1 + 1) 1 cs)
      by (first [lia | assumption]).
    rewrite (turnCubelets_add a sg c (1 + 1 + 1) 1 cs)
      by (first [lia | assumption]).
    exact Hfull.
  - rewrite (turnCubelets_add a sg c 2 2 cs) by (first [lia | assumption]).
    exact Hfull.
Qed.

(** Two sequences of turns that give the same cubelets in exact arithmetic
    give the same positions and homes in every arithmetic that is accurate
    at these turns. *)
Lemma same_positions (attached : Attached) (ms1 ms2 : list Move)
    (cs : list Cubelet) :
  Forall (accurate attached) ms1 -> Forall (accurate attached) ms2 ->
  Forall (fun c => In (position c) lattice) cs ->
  turns ms1 cs = turns ms2 cs ->
  map position (turnsWith attached ms1 cs)
  = map position (turnsWith attached ms2 cs)
  /\ map home (turnsWith attached ms1 cs)
     = map home (turnsWith attached ms2 cs).
Proof.
  intros Hacc1 Hacc2 Hcs H.
  destruct (positions_turnsWith attached ms1 cs cs Hacc1 Hcs eq_refl)
    as [H1 _].
  destruct (positions_turnsWith attached ms2 cs cs Hacc2 Hcs eq_refl)
    as [H2 _].
  rewrite H1, H2, H, !homes_turnsWith. split; reflexivity.
Qed.

(** X1.  Turns of one layer in one sense add up.  In every arithmetic that
    is accurate at these turns, a turn by [q1] quarters followed by a turn
    by [q2] quarters of the same layer leaves each cubelet at the position
    where one turn by [q1 + q2] quarters leaves it, with the same home; a
    half turn moves the cubelets as two quarter turns do. *)
Theorem turns_of_a_layer_add (attached : Attached) (a : Axis) (sg : Z)
    (c : bool) (q1 q2 : Z) (cs : list Cubelet) :
  Forall (accurate attached)
         [mkMove a sg c q1; mkMove a sg c q2; mkMove a sg c (q1 + q2)] ->
  (1 <= q1)%Z -> (1 <= q2)%Z ->
  Forall (fun c => In (position c) lattice) cs ->
  let two := turnsWith attached [mkMove a sg c q1; mkMove a sg c q2] cs in
  let one := turnsWith attached [mkMove a sg c (q1 + q2)] cs in
  map position two = map position one /\ map home two = map home one.
Proof.
  intros Hacc H1 H2 Hcs two one.
  pose proof (Forall_inv Hacc) as A1.
  pose proof (Forall_inv (Forall_inv_tail Hacc)) as A2.
  pose proof (Forall_inv_tail (Forall_inv_tail Hacc)) as A3.
  apply (same_positions attached _ _ cs); try assumption.
  - constructor; [exact A1|]. constructor; [exact A2 | constructor].
  - apply (turnCubelets_add a sg c q1 q2 cs H1 H2).
    apply lattice_positions_integral, Hcs.
Qed.

Lemma turns_of_a_layer_add_witness :
  Forall (accurate looseAttach)
         [mkMove AxisZ 1 true 1; mkMove AxisZ 1 true 1;
          mkMove AxisZ 1 true (1 + 1)]
  /\ Forall (fun c => In (position c) lattice) buildSolvedCube
  /\ map position
       (turnsWith looseAttach
          [mkMove AxisZ 1 true 1; mkMove AxisZ 1 true 1] buildSolvedCube)
     = map position
         (turnsWith looseAttach [mkMove AxisZ 1 true (1 + 1)] buildSolvedCube).
Proof.
  split; [apply looseAttach_accurate|].
  split; [exact buildSolvedCube_on_lattice|].
  apply (turns_of_a_layer_add looseAttach AxisZ 1 true 1 1 buildSolvedCube
           (looseAttach_accurate _));
    [lia | lia | exact buildSolvedCube_on_lattice].
Defined.

(** X2.  Four quarter turns of a layer in one sense, or two half turns,
    bring every cubelet back to the position it had, in every arithmetic
    that is accurate at these turns. *)
Theorem four_quarters_make_nothing (attached : Attached) (a : Axis) (sg : Z)
    (c : bool) (cs : list Cubelet) :
  accurate attached (mkMove a sg c 1) -> accurate attached (mkMove a sg c 2) ->
  Forall (fun c => In (position c) lattice) cs ->
  let quarter := mkMove a sg c 1 in
  let half := mkMove a sg c 2 in
  map position (turnsWith attached [quarter; quarter; quarter; quarter] cs)
  = map position cs
  /\ map position (turnsWith attached [half; half] cs) = map position cs
  /\ map home (turnsWith attached [quarter; quarter; quarter; quarter] cs)
     = map home cs
  /\ map home (turnsWith attached [half; half] cs) = map home cs.
Proof.
  intros Hq Hh Hcs quarter half.
  destruct (turnCubelets_four a sg c cs (lattice_positions_integral cs Hcs))
    as [H4 H2].
  destruct (same_positions attached [quarter; quarter; quarter; quarter] []
              cs) as [P4 _]; try assumption.
  { repeat (constructor; [exact Hq|]). constructor. }
  { constructor. }
  destruct (same_positions attached [half; half] [] cs) as [P2 _];
    try assumption.
  { repeat (constructor; [exact Hh|]). constructor. }
  { constructor. }
  split; [exact P4|]. split; [exact P2|].
  split; apply homes_turnsWith.
Qed.

Lemma four_quarters_make_nothing_witness :
  accurate looseAttach (mkMove AxisX 1 false 1)
  /\ accurate looseAttach (mkMove AxisX 1 false 2)
  /\ Forall (fun c => In (position c) lattice) buildSolvedCube
  /\ map position
       (turnsWith looseAttach
          [mkMove AxisX 1 false 2; mkMove AxisX 1 false 2] buildSolvedCube)
     = map position buildSolvedCube.
Proof.
  assert (H : Forall (accurate looseAttach)
                [mkMove AxisX 1 false 1; mkMove AxisX 1 false 2])
    by apply looseAttach_accurate.
  pose proof (Forall_inv H) as A1.
  pose proof (Forall_inv (Forall_inv_tail H)) as A2.
  split; [exact A1|]. split; [exact A2|].
  split; [exact buildSolvedCube_on_lattice|].
  apply (four_quarters_make_nothing looseAttach AxisX 1 false buildSolvedCube
           A1 A2 buildSolvedCube_on_lattice).
Defined.

(** X29.  The inverse law for positions.  In every arithmetic that is
    accurate at the two turns, a move followed by its inverse
    [{axis, sign, cw: !cw, quarters}] brings every cubelet back to the
    position it had, with its home. *)
Theorem inverse_turn_restores_positions (attached : Attached) (m : Move)
    (cs : list Cubelet) :
  accurate attached m -> accurate attached (inverse m) ->
  Forall (fun c => In (position c) lattice) cs ->
  map position (turnsWith attached [m; inverse m] cs) = map position cs
  /\ map home (turnsWith attached [m; inverse m] cs) = map home cs.
Proof.
  intros Hm Hi Hcs.
  apply (same_positions attached [m; inverse m] [] cs); try assumption.
  - constructor; [exact Hm|]. constructor; [exact Hi | constructor].
  - constructor.
  - unfold turns. cbn [fold_left].
    apply turnCubelets_inverse, lattice_positions_integral, Hcs.
Qed.

Lemma inverse_turn_restores_positions_witness :
  accurate looseAttach turnR /\ accurate looseAttach (inverse turnR)
  /\ Forall (fun c => In (position c) lattice) buildSolvedCube
  /\ map position
       (turnsWith looseAttach [turnR; inverse turnR] buildSolvedCube)
     = map position buildSolvedCube.
Proof.
  assert (H : Forall (accurate looseAttach) [turnR; inverse turnR])
    by apply looseAttach_accurate.
  pose proof (Forall_inv H) as A1.
  pose proof (Forall_inv (Forall_inv_tail H)) as A2.
  split; [exact A1|]. split; [exact A2|].
  split; [exact buildSolvedCube_on_lattice|].
  apply (inverse_turn_restores_positions looseAttach turnR buildSolvedCube
           A1 A2 buildSolvedCube_on_lattice).
Defined.

(** ** What every handler keeps of the cubelets *)

Section Keeps.

Variable P : list Cubelet -> Prop.
Hypothesis P_solved : P buildSolvedCube.
Hypothesis P_turn : forall m cs, P cs -> P (turnCubelets m cs).

Lemma animateTurn_keeps (m : Move) (record : bool) (s : State) :
  P (cubelets s) -> P (cubelets (animateTurn m record s)).
Proof.
  intros H. rewrite cubelets_animateTurn.
  destruct (isTurning s); [exact H | apply P_turn, H].
Qed.

Lemma solveLoop_keeps (i : nat) (s : State) :
  P (cubelets s) -> P (cubelets (solveLoop i s)).
Proof.
  revert s. induction i as [|i IH]; intros s H; cbn [solveLoop].
  - exact H.
  - destruct (nth_error (moveHistory s) i); [|exact H].
    apply IH, animateTurn_keeps, H.
Qed.

Lemma scrambleLoop_keeps (n i : nat) (draws : nat -> Face * bool) (s : State) :
  P (cubelets s) -> P (cubelets (scrambleLoop n i draws s)).
Proof.
  revert i s. induction n as [|n IH]; intros i s H; cbn [scrambleLoop].
  - exact H.
  - destruct (draws i) as [f c]. destruct (faces f) as [a sg].
    apply IH, animateTurn_keeps, H.
Qed.

Lemma handle_keeps (e : Event) (s : State) :
  P (cubelets s) -> P (cubelets (handle e s)).
Proof.
  intros H. destruct e as [hit | endPoint | hit | draws | | | | | m record];
    cbn [handle].
  - unfold onPointerDown. destruct (isTurning s); [exact H|].
    destruct hit; exact H.
  - unfold onPointerUp. destruct (isPointerDown s); [|exact H].
    destruct (dragInfo s) as [d|]; [|exact H].
    match goal with |- context [if ?b then _ else _] => destruct b end.
    + exact H.
    + apply animateTurn_keeps. exact H.
  - unfold onDoubleClick. destruct (isTurning s); [exact H|].
    destruct hit; [|exact H]. apply animateTurn_keeps, H.
  - unfold btnScramble. destruct (isTurning s); [exact H|].
    apply scrambleLoop_keeps. exact H.
  - unfold btnReset. destruct (isTurning s); [exact H|]. exact P_solved.
  - unfold btnSolve.
    destruct (isTurning s || (length (moveHistory s) =? 0)%nat); [exact H|].
    cbn [set_moveHistory cubelets]. apply solveLoop_keeps. exact H.
  - unfold btnSetup. destruct (isTurning s); [exact H|].
    destruct (negb (Mode_eqb (mode s) setup)); exact H.
  - unfold btnPlay. destruct (isTurning s); exact H.
  - apply animateTurn_keeps, H.
Qed.

Lemma run_keeps (events : list Event) (s : State) :
  P (cubelets s) -> P (cubelets (run events s)).
Proof.
  revert s. induction events as [|e events IH]; intros s H.
  - exact H.
  - unfold run in *. cbn [fold_left]. apply IH, handle_keeps, H.
Qed.

End Keeps.

Section Registry.

Lemma turnCubelets_home (m : Move) (cs : list Cubelet) :
  map home (turnCubelets m cs) = map home cs.
Proof.
  unfold turnCubelets. rewrite map_map. apply map_ext.
  intros c. apply home_turnCubelet.
Qed.

Lemma filter_length_perm {A : Type} (f : A -> bool) (l l' : list A) :
  Permutation l l' -> length (filter f l) = length (filter f l').
Proof.
  intros H. induction H as [| x l l' _ IH | x y l | l l' l'' _ IH1 _ IH2].
  - reflexivity.
  - cbn [filter]. destruct (f x); cbn [length]; congruence.
  - cbn [filter]. destruct (f x), (f y); reflexivity.
  - congruence.
Qed.

Lemma filter_length_map {A B : Type} (g : A -> B) (f : B -> bool)
    (l : list A) :
  length (filter (fun a => f (g a)) l) = length (filter f (map g l)).
Proof.
  induction l as [|a l IH]; cbn [filter map].
  - reflexivity.
  - destruct (f (g a)); cbn [length]; congruence.
Qed.

Lemma filter_none {A : Type} (f : A -> bool) (l : list A) :
  (forall a, In a l -> f a = false) -> filter f l = [].
Proof.
  induction l as [|a l IH]; intros H; cbn [filter].
  - reflexivity.
  - rewrite (H a (or_introl eq_refl)). apply IH.
    intros b Hb. apply H. right. exact Hb.
Qed.

Lemma lattice_layer (a : Axis) (sg : Z) :
  length (filter (fun p => (roundedIndex (component p a) =? sg)%Z) lattice)
  = if existsb (Z.eqb sg) indices then 9%nat else 0%nat.
Proof.
  destruct (In_dec Z.eq_dec sg indices) as [Hs | Hs].
  - destruct a; destruct Hs as [<- | [<- | [<- | []]]];
      vm_compute; reflexivity.
  - replace (existsb (Z.eqb sg) indices) with false.
    + rewrite filter_none; [reflexivity|].
      intros p _. apply Z.eqb_neq. intros E. apply Hs. rewrite <- E.
      apply roundedIndex_range.
    + symmetry. apply not_true_iff_false. intros E.
      apply existsb_exists in E. destruct E as [k [Hk E]].
      apply Z.eqb_eq in E. subst k. exact (Hs Hk).
Qed.

End Registry.

(** X3.  In every state reached from the initial one the registry is the
    same: the cubelets keep their order and their homes, so there are 27 of
    them and the core is the only one with home (0, 0, 0). *)
Theorem homes_never_change (events : list Event) :
  let s := run events initialState in
  map home (cubelets s) = map home buildSolvedCube
  /\ length (cubelets s) = 27%nat
  /\ length (filter isCore (cubelets s)) = 1%nat.
Proof.
  intros s.
  assert (H : map home (cubelets s) = map home buildSolvedCube).
  { apply (run_keeps (fun cs => map home cs = map home buildSolvedCube)).
    - reflexivity.
    - intros m cs Hcs. rewrite turnCubelets_home. exact Hcs.
    - reflexivity. }
  split; [exact H|]. split.
  - rewrite <- (length_map home), H. reflexivity.
  - change (length (filter (fun c => (fun h =>
              Qc_eq_bool (x h) 0 && Qc_eq_bool (y h) 0 && Qc_eq_bool (z h) 0)
              (home c)) (cubelets s)) = 1%nat).
    rewrite (filter_length_map home), H. vm_compute. reflexivity.
Qed.

(** X4.  In every state reached from the initial one, each of the nine
    layers, three per axis, holds exactly nine cubelets, and a layer index
    other than -1, 0, 1 selects nothing. *)
Theorem every_layer_has_nine (events : list Event) (a : Axis) (sg : Z) :
  length (selectLayer a sg (cubelets (run events initialState)))
  = if existsb (Z.eqb sg) indices then 9%nat else 0%nat.
Proof.
  destruct (run_invariant events initialState buildSolvedCube_invariant)
    as [Hperm _].
  unfold selectLayer, inLayer.
  rewrite (filter_length_map position
             (fun p => (roundedIndex (component p a) =? sg)%Z)).
  rewrite (filter_length_perm _ _ _ Hperm). apply lattice_layer.
Qed.

(** X5.  A turn keeps every cubelet in its layer along the turn axis, keeps
    its home, and leaves a cubelet outside the turned layer exactly as it
    was. *)
Theorem turn_stays_in_layers (m : Move) (cs : list Cubelet) :
  Forall (fun c => integralPosition (position c)) cs ->
  Forall2 (fun c c' =>
             component (position c') (axis m) = component (position c) (axis m)
             /\ home c' = home c
             /\ (inLayer (axis m) (sign m) c = false -> c' = c))
          cs (turnCubelets m cs).
Proof.
  intros Hcs. rewrite turnCubelets_as_map.
  induction Hcs as [|c cs Hc _ IH]; cbn [map]; constructor; [|exact IH].
  split; [|split].
  - destruct (In_dec Z.eq_dec (sign m) indices) as [Hs | Hs].
    + destruct (inLayer (axis m) (sign m) c) eqn:Hin.
      * destruct (turnCubelet_moved (axis m) (sign m)
                    (targetQuarters (cw m) (quarters m)) c Hs Hc Hin)
          as [E _].
        rewrite E. cbn [detachPreserve position].
        apply component_fixed, turnRotation_row, Hs.
      * unfold turnCubelet. rewrite Hin. reflexivity.
    + rewrite turnCubelet_off_range by assumption. reflexivity.
  - apply home_turnCubelet.
  - intros Hin. unfold turnCubelet. rewrite Hin. reflexivity.
Qed.

Lemma turn_stays_in_layers_witness :
  Forall (fun c => integralPosition (position c)) [strayCubelet] /\
  Forall2 (fun c c' =>
             component (position c') AxisX = component (position c) AxisX
             /\ home c' = home c
             /\ (inLayer AxisX 1 c = false -> c' = c))
          [strayCubelet] (turnCubelets (mkMove AxisX 1 true 1) [strayCubelet]).
Proof.
  assert (H : Forall (fun c => integralPosition (position c)) [strayCubelet]).
  { constructor; [vm_compute; repeat split; reflexivity | constructor]. }
  split; [exact H|].
  apply (turn_stays_in_layers (mkMove AxisX 1 true 1) [strayCubelet] H).
Defined.

(** ** Recording, Scramble and Assemble *)

Section Recording.

Lemma setup_animateTurn (m : Move) (s : State) :
  isTurning s = false ->
  setupCount (animateTurn m true s)
  = (if Mode_eqb (mode s) setup then setupCount s + 1 else setupCount s)%Z
  /\ setupSequence (animateTurn m true s)
     = (if Mode_eqb (mode s) setup then setupSequence s ++ [m]
        else setupSequence s).
Proof.
  intros Ht. rewrite animateTurn_idle by assumption. unfold completeTurn.
  cbn [set_moveHistory set_cubelets startTurn set_isTurning mode
       setupCount setupSequence].
  destruct (Mode_eqb (mode s) setup); split; reflexivity.
Qed.

Lemma recordedTurns_setup (ms : list Move) (s : State) :
  isTurning s = false ->
  setupCount (recordedTurns ms s)
  = (if Mode_eqb (mode s) setup then setupCount s + Z.of_nat (length ms)
     else setupCount s)%Z
  /\ setupSequence (recordedTurns ms s)
     = (if Mode_eqb (mode s) setup then setupSequence s ++ ms
        else setupSequence s).
Proof.
  revert s. induction ms as [|m ms IH]; intros s Ht.
  - unfold recordedTurns. cbn [fold_left length Z.of_nat].
    rewrite app_nil_r, Z.add_0_r.
    destruct (Mode_eqb (mode s) setup); split; reflexivity.
  - unfold recordedTurns in *. cbn [fold_left].
    destruct (IH (animateTurn m true s) (isTurning_animateTurn _ _ _ Ht))
      as [H1 H2].
    destruct (setup_animateTurn m s Ht) as [E1 E2].
    rewrite H1, H2, mode_animateTurn, E1, E2.
    destruct (Mode_eqb (mode s) setup); split; try reflexivity.
    + cbn [length]. lia.
    + rewrite <- app_assoc. reflexivity.
Qed.

Lemma scrambleLoop_recorded (n i : nat) (draws : nat -> Face * bool)
    (s : State) :
  scrambleLoop n i draws s
  = recordedTurns (map (fun j => scrambleMove (draws j)) (seq i n)) s.
Proof.
  revert i s. induction n as [|n IH]; intros i s.
  - reflexivity.
  - cbn [scrambleLoop seq map]. unfold recordedTurns. cbn [fold_left].
    fold (recordedTurns (map (fun j => scrambleMove (draws j)) (seq (S i) n))
            (animateTurn (scrambleMove (draws i)) true s)).
    rewrite <- IH. unfold scrambleMove.
    destruct (draws i) as [f c]. destruct (faces f) as [a sg]. reflexivity.
Qed.

Lemma btnScramble_idle (draws : nat -> Face * bool) (s : State) :
  isTurning s = false ->
  btnScramble draws s
  = recordedTurns (scrambleMoves draws) (set_moveHistory [] s).
Proof.
  intros Ht. unfold btnScramble. rewrite Ht. apply scrambleLoop_recorded.
Qed.

Lemma scrambleMove_wellFormed (d : Face * bool) : wellFormedMove (scrambleMove d).
Proof.
  destruct d as [f c]. unfold wellFormedMove, scrambleMove.
  destruct f; cbn [faces sign quarters]; auto.
Qed.

Lemma undo_recorded (s0 : State) (ms : list Move) :
  atRest s0 -> moveHistory s0 = [] ->
  cubelets (btnSolve (recordedTurns ms s0)) = cubelets s0
  /\ moveHistory (btnSolve (recordedTurns ms s0)) = []
  /\ isTurning (btnSolve (recordedTurns ms s0)) = false.
Proof.
  intros [Ht Hp] Hh.
  destruct (recordedTurns_idle ms s0 Ht) as [Ht' [Hh' [Hc' _]]].
  rewrite Hh in Hh'. cbn [app] in Hh'.
  destruct ms as [|m ms'].
  - cbn [recordedTurns fold_left]. unfold btnSolve. rewrite Hh.
    cbn [length Nat.eqb]. rewrite orb_true_r. auto.
  - rewrite btnSolve_idle by (rewrite ?Hh'; first [assumption | discriminate]).
    cbn [set_moveHistory set_cubelets set_mode cubelets moveHistory isTurning].
    rewrite Hh', Hc', undo_all by assumption. auto.
Qed.

End Recording.

(** X6.  Assemble brings the cubelets back to where they were when the
    history was last empty: from any state with no turn in flight, the
    cubelets on lattice points and an empty history, after any recorded
    turns, Assemble leaves every cubelet at the position it had in that
    state, with its home, and the history empty. *)
Theorem assemble_undoes_recorded_turns (s0 : State) (ms : list Move) :
  isTurning s0 = false ->
  Forall (fun c => In (position c) lattice) (cubelets s0) ->
  moveHistory s0 = [] ->
  map position (cubelets (btnSolve (recordedTurns ms s0)))
  = map position (cubelets s0)
  /\ map home (cubelets (btnSolve (recordedTurns ms s0)))
     = map home (cubelets s0)
  /\ moveHistory (btnSolve (recordedTurns ms s0)) = [].
Proof.
  intros Ht Hl Hh.
  assert (Hr : atRest s0)
    by (split; [exact Ht | apply lattice_positions_integral, Hl]).
  destruct (undo_recorded s0 ms Hr Hh) as [H1 [H2 _]].
  rewrite H1. auto.
Qed.

Lemma assemble_undoes_recorded_turns_witness :
  isTurning unrecordedTurnState = false
  /\ Forall (fun c => In (position c) lattice) (cubelets unrecordedTurnState)
  /\ moveHistory unrecordedTurnState = []
  /\ map position
       (cubelets (btnSolve (recordedTurns [mkMove AxisX 1 true 1;
                                           mkMove AxisZ (-1) false 2]
                                          unrecordedTurnState)))
     = map position (cubelets unrecordedTurnState).
Proof.
  assert (H : Forall (fun c => In (position c) lattice)
                     (cubelets unrecordedTurnState))
    by (apply onLatticeb_sound; vm_compute; reflexivity).
  split; [reflexivity|]. split; [exact H|]. split; [reflexivity|].
  apply (assemble_undoes_recorded_turns unrecordedTurnState
           [mkMove AxisX 1 true 1; mkMove AxisZ (-1) false 2]
           eq_refl H eq_refl).
Defined.

(** X7.  Scramble, pressed with no turn in flight, drops the history it
    finds and records its own twenty quarter turns of outer faces; the cube
    is the old cube with these twenty turns applied, and the mode is kept. *)
Theorem scramble_records_twenty (draws : nat -> Face * bool) (s : State) :
  isTurning s = false ->
  moveHistory (btnScramble draws s) = scrambleMoves draws
  /\ length (moveHistory (btnScramble draws s)) = 20%nat
  /\ Forall wellFormedMove (moveHistory (btnScramble draws s))
  /\ Forall (fun m => quarters m = 1%Z) (moveHistory (btnScramble draws s))
  /\ cubelets (btnScramble draws s)
     = fold_left (fun cs m => turnCubelets m cs) (scrambleMoves draws)
                 (cubelets s)
  /\ mode (btnScramble draws s) = mode s
  /\ isTurning (btnScramble draws s) = false.
Proof.
  intros Ht. rewrite btnScramble_idle by assumption.
  destruct (recordedTurns_idle (scrambleMoves draws) (set_moveHistory [] s) Ht)
    as [H1 [H2 [H3 H4]]].
  cbn [set_moveHistory moveHistory cubelets mode app] in H2, H3, H4.
  rewrite H1, H2, H3, H4.
  split; [reflexivity|]. split.
  { unfold scrambleMoves. rewrite length_map, length_seq. reflexivity. }
  split; [|split; [|split; [|split]]]; try reflexivity.
  - unfold scrambleMoves. apply Forall_map, Forall_forall.
    intros i _. apply scrambleMove_wellFormed.
  - unfold scrambleMoves. apply Forall_map, Forall_forall.
    intros i _. unfold scrambleMove.
    destruct (draws i) as [f c]. destruct (faces f). reflexivity.
Qed.

Lemma scramble_records_twenty_witness :
  isTurning rightFaceTurned = false /\
  moveHistory (btnScramble (fun _ => (faceU, false)) rightFaceTurned)
  = scrambleMoves (fun _ => (faceU, false)).
Proof.
  split; [reflexivity|].
  apply (scramble_records_twenty (fun _ => (faceU, false)) rightFaceTurned
           eq_refl).
Defined.

(** X8.  Scramble and then Assemble, from any state with no turn in flight
    and the cubelets on lattice points, bring every cubelet back to the
    position it had before the Scramble, with its home, an empty history and
    the mode [play]: Assemble undoes the Scramble, not what came before
    it. *)
Theorem scramble_then_assemble (draws : nat -> Face * bool) (s : State) :
  isTurning s = false ->
  Forall (fun c => In (position c) lattice) (cubelets s) ->
  map position (cubelets (btnSolve (btnScramble draws s)))
  = map position (cubelets s)
  /\ map home (cubelets (btnSolve (btnScramble draws s)))
     = map home (cubelets s)
  /\ moveHistory (btnSolve (btnScramble draws s)) = []
  /\ mode (btnSolve (btnScramble draws s)) = play.
Proof.
  intros Ht Hl.
  assert (Hp : Forall (fun c => integralPosition (position c)) (cubelets s))
    by (apply lattice_positions_integral, Hl).
  assert (Hr : atRest (set_moveHistory [] s)) by (split; assumption).
  rewrite btnScramble_idle by assumption.
  destruct (undo_recorded (set_moveHistory [] s) (scrambleMoves draws) Hr
              eq_refl) as [H1 [H2 _]].
  rewrite H1. cbn [set_moveHistory cubelets].
  split; [reflexivity|]. split; [reflexivity|]. split; [exact H2|].
  destruct (recordedTurns_idle (scrambleMoves draws) (set_moveHistory [] s) Ht)
    as [Ht' [Hh' _]].
  rewrite btnSolve_idle; [reflexivity | exact Ht' |].
  rewrite Hh'. cbn [set_moveHistory moveHistory app]. discriminate.
Qed.

Lemma scramble_then_assemble_witness :
  isTurning rightFaceTurned = false
  /\ Forall (fun c => In (position c) lattice) (cubelets rightFaceTurned)
  /\ map position
       (cubelets (btnSolve (btnScramble (fun _ => (faceU, false))
                                        rightFaceTurned)))
     = map position (cubelets rightFaceTurned).
Proof.
  assert (H : Forall (fun c => In (position c) lattice)
                     (cubelets rightFaceTurned))
    by (apply onLatticeb_sound; vm_compute; reflexivity).
  split; [reflexivity|]. split; [exact H|].
  apply (scramble_then_assemble (fun _ => (faceU, false)) rightFaceTurned
           eq_refl H).
Defined.

(** X9.  Assemble has nothing left to do after Assemble: pressed twice, it
    gives what it gives pressed once, in every state. *)
Theorem assemble_twice (s : State) : btnSolve (btnSolve s) = btnSolve s.
Proof.
  destruct (isTurning s || (length (moveHistory s) =? 0)%nat) eqn:E.
  - assert (H : btnSolve s = s) by (unfold btnSolve; rewrite E; reflexivity).
    rewrite !H. reflexivity.
  - assert (H : btnSolve s
                = set_moveHistory []
                    (solveLoop (length (moveHistory (set_mode play s)))
                               (set_mode play s)))
      by (unfold btnSolve; rewrite E; reflexivity).
    rewrite H. unfold btnSolve.
    cbn [set_moveHistory moveHistory length Nat.eqb].
    rewrite orb_true_r. reflexivity.
Qed.

(** ** What every handler keeps of the session state *)

Section StateKeeps.

Variable Q : State -> Prop.
Variable okMove : Move -> Prop.
Hypothesis Q_recorded : forall m s, okMove m -> Q s -> Q (animateTurn m true s).
Hypothesis Q_unrecorded : forall m s, Q s -> Q (animateTurn m false s).
Hypothesis Q_down : forall a v p u w s,
  Q s -> Q (set_pointer true (Some (mkDragInfo a (Math_sign_or_1 v) p u w)) s).
Hypothesis Q_miss : forall s, Q s -> Q (set_pointer false (dragInfo s) s).
Hypothesis Q_up : forall s, Q s -> Q (set_pointer false None s).
Hypothesis Q_drag : forall s d c,
  Q s -> dragInfo s = Some d -> okMove (mkMove (d_axis d) (d_sign d) c 1).
Hypothesis ok_double : forall a v, okMove (mkMove a (Math_sign_or_1 v) true 2).
Hypothesis ok_scramble : forall d, okMove (scrambleMove d).
Hypothesis Q_clear : forall s, Q s -> Q (set_moveHistory [] s).
Hypothesis Q_mode : forall md s, Q s -> Q (set_mode md s).
Hypothesis Q_reset : forall s,
  Q s -> Q (set_setup 0 [] (set_moveHistory [] (set_cubelets buildSolvedCube s))).
Hypothesis Q_setup : forall s,
  Q s -> Q (set_moveHistory [] (set_setup 0 [] (set_mode setup s))).

Lemma solveLoop_state_keeps (i : nat) (s : State) : Q s -> Q (solveLoop i s).
Proof.
  revert s. induction i as [|i IH]; intros s H; cbn [solveLoop].
  - exact H.
  - destruct (nth_error (moveHistory s) i); [|exact H].
    apply IH, Q_unrecorded, H.
Qed.

Lemma recordedTurns_state_keeps (ms : list Move) (s : State) :
  Forall okMove ms -> Q s -> Q (recordedTurns ms s).
Proof.
  intros Hms. revert s. induction Hms as [|m ms Hm _ IH]; intros s H.
  - exact H.
  - unfold recordedTurns in *. cbn [fold_left]. apply IH, Q_recorded; assumption.
Qed.

Lemma handle_state_keeps (e : Event) (s : State) :
  eventOk okMove e -> Q s -> Q (handle e s).
Proof.
  intros He H. destruct e as [hit | endPoint | hit | draws | | | | | m record];
    cbn [handle].
  - unfold onPointerDown. destruct (isTurning s); [exact H|].
    destruct hit; [apply Q_down | apply Q_miss]; exact H.
  - unfold onPointerUp. destruct (isPointerDown s); [|exact H].
    destruct (dragInfo s) as [d|] eqn:Hd; [|exact H].
    match goal with |- context [if ?b then _ else _] => destruct b end.
    + apply Q_up, H.
    + apply Q_recorded; [eapply Q_drag; eassumption | apply Q_up, H].
  - unfold onDoubleClick. destruct (isTurning s); [exact H|].
    destruct hit; [|exact H]. apply Q_recorded; [apply ok_double | exact H].
  - unfold btnScramble. destruct (isTurning s); [exact H|].
    rewrite scrambleLoop_recorded. apply recordedTurns_state_keeps.
    + apply Forall_map, Forall_forall. intros i _. apply ok_scramble.
    + apply Q_clear, H.
  - unfold btnReset. destruct (isTurning s); [exact H | apply Q_reset, H].
  - unfold btnSolve.
    destruct (isTurning s || (length (moveHistory s) =? 0)%nat); [exact H|].
    apply Q_clear, solveLoop_state_keeps, Q_mode, H.
  - unfold btnSetup. destruct (isTurning s); [exact H|].
    destruct (negb (Mode_eqb (mode s) setup));
      [apply Q_setup | apply Q_mode]; exact H.
  - unfold btnPlay. destruct (isTurning s); [exact H | apply Q_mode, H].
  - cbn [eventOk] in He. destruct record;
      [apply Q_recorded | apply Q_unrecorded]; assumption.
Qed.

Lemma run_state_keeps (events : list Event) (s : State) :
  Forall (eventOk okMove) events -> Q s -> Q (run events s).
Proof.
  intros Hev. revert s. induction Hev as [|e events He _ IH]; intros s H.
  - exact H.
  - unfold run in *. cbn [fold_left]. apply IH, handle_state_keeps; assumption.
Qed.

End StateKeeps.

Section SessionInvariants.

Lemma counted_run (events : list Event) : counted (run events initialState).
Proof.
  apply (run_state_keeps counted (fun _ => True)); unfold counted;
    try (intros; cbn; auto; fail).
  - intros m s _ H.
    destruct (isTurning s) eqn:Ht.
    + rewrite animateTurn_turning by assumption. exact H.
    + destruct (setup_animateTurn m s Ht) as [E1 E2]. rewrite E1, E2.
      destruct (Mode_eqb (mode s) setup); [|exact H].
      rewrite length_app. cbn [length]. lia.
  - intros m s H.
    destruct (isTurning s) eqn:Ht.
    + rewrite animateTurn_turning by assumption. exact H.
    + rewrite animateTurn_unrecorded by assumption. exact H.
  - apply Forall_forall. intros e _. destruct e; exact I.
Qed.

Lemma Math_sign_or_1_cases (v : Qc) :
  (Math_sign_or_1 v = 1 \/ Math_sign_or_1 v = -1)%Z.
Proof. unfold Math_sign_or_1. destruct (ltb v 0); auto. Qed.

Lemma tidy_run (events : list Event) :
  Forall (eventOk wellFormedMove) events -> tidy (run events initialState).
Proof.
  intros Hev.
  apply (run_state_keeps tidy wellFormedMove); unfold tidy;
    try (intros; cbn; auto; fail); try exact Hev.
  - intros m s Hm [H1 [H2 H3]].
    destruct (isTurning s) eqn:Ht.
    + rewrite animateTurn_turning by assumption. auto.
    + destruct (setup_animateTurn m s Ht) as [_ E2].
      rewrite E2, moveHistory_recorded by assumption.
      rewrite animateTurn_idle by assumption.
      split; [|split].
      * apply Forall_app. auto.
      * destruct (Mode_eqb (mode s) setup); [apply Forall_app|]; auto.
      * unfold completeTurn.
        cbn [set_moveHistory set_cubelets startTurn set_isTurning mode].
        destruct (Mode_eqb (mode s) setup); exact H3.
  - intros m s H.
    destruct (isTurning s) eqn:Ht.
    + rewrite animateTurn_turning by assumption. exact H.
    + rewrite animateTurn_unrecorded by assumption. exact H.
  - intros a v p u w s [H1 [H2 H3]]. cbn [set_pointer moveHistory setupSequence dragInfo].
    split; [exact H1|]. split; [exact H2|].
    intros d Hd. inversion Hd; subst. cbn [d_sign].
    apply Math_sign_or_1_cases.
  - intros s [H1 [H2 H3]]. cbn. split; [exact H1|]. split; [exact H2|].
    intros d Hd. discriminate.
  - intros s d c [_ [_ H3]] Hd. split; cbn [sign quarters]; auto.
  - intros a v. split; cbn [sign quarters]; auto.
    apply Math_sign_or_1_cases.
  - apply scrambleMove_wellFormed.
  - intros s [H1 [H2 H3]]. cbn. auto.
  - intros s [H1 [H2 H3]]. cbn. auto.
  - intros s [H1 [H2 H3]]. cbn. auto.
  - cbn. split; [constructor|]. split; [constructor|]. intros d Hd. discriminate.
Qed.

End SessionInvariants.

(** X10.  The setup counter is the length of the setup sequence in every
    state reached from the initial one, by events of any kind. *)
Theorem setup_counter_is_sequence_length (events : list Event) :
  let s := run events initialState in
  setupCount s = Z.of_nat (length (setupSequence s)) /\ (0 <= setupCount s)%Z.
Proof.
  intros s. pose proof (counted_run events) as H. unfold counted in H.
  fold s in H. split; [exact H | lia].
Qed.

(** X11.  Gestures and buttons only ever record moves of an outer face by
    one or two quarters: after any sequence of user events every entry of
    the history and of the setup sequence has sign 1 or -1 and quarters 1
    or 2. *)
Theorem user_moves_are_well_formed (events : list Event) :
  forallb isUserEvent events = true ->
  Forall wellFormedMove (moveHistory (run events initialState))
  /\ Forall wellFormedMove (setupSequence (run events initialState)).
Proof.
  intros H.
  assert (Hev : Forall (eventOk wellFormedMove) events).
  { rewrite forallb_forall in H. apply Forall_forall. intros e He.
    specialize (H e He). destruct e; try exact I. discriminate. }
  destruct (tidy_run events Hev) as [H1 [H2 _]]. auto.
Qed.

Lemma user_moves_are_well_formed_witness :
  forallb isUserEvent
    [clickSetup; dblclick (Some (mkVector3 0 (- (1)) 0)); clickPlay] = true
  /\ Forall wellFormedMove
       (moveHistory (run [clickSetup; dblclick (Some (mkVector3 0 (- (1)) 0));
                          clickPlay] initialState)).
Proof.
  split; [reflexivity|].
  apply (user_moves_are_well_formed
           [clickSetup; dblclick (Some (mkVector3 0 (- (1)) 0)); clickPlay]
           eq_refl).
Defined.

(** ** Closeness *)

Section ClosenessValue.

Lemma Zlt_inject (a b : Z) : (a < b)%Z <-> (inject_Z a < inject_Z b)%Q.
Proof. rewrite Zlt_Qlt. reflexivity. Qed.

Lemma Zle_inject (a b : Z) : (a <= b)%Z <-> (inject_Z a <= inject_Z b)%Q.
Proof. rewrite Zle_Qle. reflexivity. Qed.

Lemma Math_max_min_unit (v : Qc) :
  0 <= Math_max 0 (Math_min 1 v) /\ Math_max 0 (Math_min 1 v) <= 1.
Proof.
  unfold Math_max, Math_min.
  destruct (ltb v 1) eqn:E1.
  - apply ltb_lt in E1. destruct (ltb 0 v) eqn:E0.
    + apply ltb_lt in E0. split; apply Qclt_le_weak; assumption.
    + split; [apply Qcle_refl | discriminate].
  - replace (ltb 0 1) with true by reflexivity.
    split; [discriminate | apply Qcle_refl].
Qed.

Lemma Math_max_min_inside (v : Qc) :
  0 <= v -> v <= 1 -> Math_max 0 (Math_min 1 v) = v.
Proof.
  intros H0 H1. unfold Math_max, Math_min.
  destruct (ltb v 1) eqn:E1.
  - destruct (ltb 0 v) eqn:E0; [reflexivity|].
    apply ltb_ge in E0. apply Qcle_antisym; assumption.
  - apply ltb_ge in E1. replace (ltb 0 1) with true by reflexivity.
    apply Qcle_antisym; assumption.
Qed.

Lemma this_div (a b : Qc) : (this (a / b) == this a / this b)%Q.
Proof.
  unfold Qcdiv, Qcmult, Qcinv. rewrite this_Q2Qc, this_Q2Qc. reflexivity.
Qed.

Lemma ratio_in_unit (k n : Z) :
  (0 <= k <= n)%Z -> (0 < n)%Z -> 0 <= ofZ k / ofZ n /\ ofZ k / ofZ n <= 1.
Proof.
  intros Hk Hn. unfold Qcle. rewrite this_div, !this_ofZ.
  assert (Hpos : (0 < inject_Z n)%Q) by exact (proj1 (Zlt_inject 0 n) Hn).
  split.
  - apply Qle_shift_div_l; [exact Hpos|]. rewrite Qmult_0_l.
    apply (proj1 (Zle_inject 0 k)). lia.
  - apply Qle_shift_div_r; [exact Hpos|]. rewrite Qmult_1_l.
    apply (proj1 (Zle_inject k n)). lia.
Qed.

Lemma ofZ_inj (a b : Z) : ofZ a = ofZ b -> a = b.
Proof.
  intros H. apply (f_equal Math_round) in H.
  rewrite !Math_round_ofZ in H. exact H.
Qed.

Lemma ofZ_nonzero (n : Z) : n <> 0%Z -> ofZ n <> 0.
Proof. intros Hn H. apply Hn. apply ofZ_inj. rewrite H, ofZ_0. reflexivity. Qed.

Lemma ratio_is_one (k n : Z) : n <> 0%Z -> (ofZ k / ofZ n = 1 <-> k = n).
Proof.
  intros Hn. split.
  - intros H. apply ofZ_inj.
    rewrite <- (Qcmult_div_r (ofZ k) (ofZ n)) by (apply ofZ_nonzero, Hn).
    rewrite H. ring.
  - intros ->. field. apply ofZ_nonzero, Hn.
Qed.

Lemma Math_abs_ofZ (n : Z) : Math_abs (ofZ n) = ofZ (Z.abs n).
Proof.
  unfold Math_abs. destruct (ltb (ofZ n) 0) eqn:E.
  - apply ltb_lt in E. unfold Qclt in E. rewrite this_ofZ in E.
    apply (proj2 (Zlt_inject n 0)) in E.
    rewrite <- ofZ_opp. f_equal. lia.
  - apply ltb_ge in E. unfold Qcle in E. rewrite this_ofZ in E.
    apply (proj2 (Zle_inject 0 n)) in E.
    f_equal. lia.
Qed.

Lemma ofZ_below_epsilon (n : Z) : ltb (ofZ n) epsilon = (n <=? 0)%Z.
Proof.
  destruct (Z.leb_spec n 0) as [H | H].
  - apply ltb_lt. unfold Qclt. rewrite this_ofZ.
    apply Qle_lt_trans with (y := inject_Z 0).
    + apply (proj1 (Zle_inject n 0)). exact H.
    + reflexivity.
  - apply ltb_ge. unfold Qcle. rewrite this_ofZ.
    apply Qle_trans with (y := inject_Z 1).
    + discriminate.
    + apply (proj1 (Zle_inject 1 n)). lia.
Qed.

(** On integers, [|a - b| < 1e-3] is equality. *)
Lemma near_is_equal (a b : Qc) :
  integral a -> integral b ->
  ltb (Math_abs (a - b)) epsilon = Qc_eq_bool a b.
Proof.
  intros Ha Hb. apply integral_inv in Ha, Hb.
  destruct Ha as [n ->], Hb as [m ->].
  replace (ofZ n - ofZ m) with (ofZ (n - m))
    by (unfold Z.sub; rewrite ofZ_add, ofZ_opp; ring).
  rewrite Math_abs_ofZ, ofZ_below_epsilon.
  unfold Qc_eq_bool. destruct (Qc_eq_dec (ofZ n) (ofZ m)) as [E | E].
  - apply ofZ_inj in E. subst. apply Z.leb_le. lia.
  - apply Z.leb_gt. assert (n <> m) by congruence. lia.
Qed.

Lemma posOk_at_rest (c : Cubelet) :
  integralPosition (position c) -> integralPosition (home c) ->
  posOk c = Vector3_eqb (position c) (home c).
Proof.
  intros [Hx [Hy Hz]] [Gx [Gy Gz]]. unfold posOk, Vector3_eqb.
  rewrite !near_is_equal by assumption. reflexivity.
Qed.

Lemma filter_and_length {A : Type} (p q : A -> bool) (l : list A) :
  length (filter (fun a => p a && q a) l) = length (filter p l)
  <-> (forall a, In a l -> p a = true -> q a = true).
Proof.
  induction l as [|a l IH]; cbn [filter].
  - split; [intros _ a [] | reflexivity].
  - pose proof (filter_length_le (fun a => p a && q a) l) as Hle.
    assert (Hsub : (length (filter (fun a => p a && q a) l)
                    <= length (filter p l))%nat).
    { clear. induction l as [|b l IH]; cbn [filter]; [lia|].
      destruct (p b), (q b); cbn [andb length]; lia. }
    destruct (p a) eqn:Hp; cbn [andb].
    + destruct (q a) eqn:Hq; cbn [length].
      * split.
        -- intros H b [<- | Hb] Hpb; [exact Hq|].
           apply (proj1 IH); [lia | exact Hb | exact Hpb].
        -- intros H. f_equal. apply (proj2 IH).
           intros b Hb. apply H. right. exact Hb.
      * split.
        -- intros H. lia.
        -- intros H. specialize (H a (or_introl eq_refl) Hp). congruence.
    + split.
      * intros H b [<- | Hb] Hpb; [congruence|].
        apply (proj1 IH); assumption.
      * intros H. apply (proj2 IH). intros b Hb. apply H. right. exact Hb.
Qed.

Lemma home_in_lattice (cs : list Cubelet) (c : Cubelet) :
  map home cs = map home buildSolvedCube -> In c cs -> In (home c) lattice.
Proof.
  intros H Hc.
  assert (Hh : map home buildSolvedCube = lattice) by (vm_compute; reflexivity).
  rewrite <- Hh, <- H. apply in_map, Hc.
Qed.

(** In a well-formed cube the code's test is the position test. *)
Lemma counted_correct_at_rest (cs : list Cubelet) :
  cubeInvariant cs -> map home cs = map home buildSolvedCube ->
  filter (fun c => negb (isCore c) && (posOk c && aligned c)) cs
  = filter (fun c => negb (isCore c) && Vector3_eqb (position c) (home c)) cs.
Proof.
  intros Hinv Hhome. apply filter_ext_in. intros c Hc.
  destruct Hinv as [Hperm Hrot].
  rewrite Forall_forall in Hrot.
  rewrite (aligned_cubeRotation c (Hrot c Hc)), andb_true_r.
  rewrite posOk_at_rest; [reflexivity | |].
  - apply lattice_integral, (Permutation_in _ Hperm), in_map, Hc.
  - apply lattice_integral, (home_in_lattice cs); assumption.
Qed.

Lemma noncore_count (cs : list Cubelet) :
  map home cs = map home buildSolvedCube ->
  length (filter (fun c => negb (isCore c)) cs) = 26%nat.
Proof.
  intros H.
  change (length (filter (fun c => (fun h =>
            negb (Qc_eq_bool (x h) 0 && Qc_eq_bool (y h) 0
                  && Qc_eq_bool (z h) 0)) (home c)) cs) = 26%nat).
  rewrite (filter_length_map home), H. vm_compute. reflexivity.
Qed.

Lemma run_homes (events : list Event) :
  map home (cubelets (run events initialState)) = map home buildSolvedCube.
Proof.
  apply (run_keeps (fun cs => map home cs = map home buildSolvedCube)).
  - reflexivity.
  - intros m cs Hcs. rewrite turnCubelets_home. exact Hcs.
  - reflexivity.
Qed.

End ClosenessValue.

Lemma computeCloseness_range (s : State) :
  0 <= computeCloseness s /\ computeCloseness s <= 1.
Proof.
  unfold computeCloseness.
  destruct (closenessCounts (cubelets s)) as [correct total].
  destruct (total =? 0)%Z.
  - split; [discriminate | apply Qcle_refl].
  - apply Math_max_min_unit.
Qed.

(** X12.  Whatever the cubelets are, [computeCloseness] returns a number
    between 0 and 1, and it returns 1 when no cubelet but the core is
    there. *)
Theorem closeness_is_a_fraction (s : State) :
  0 <= computeCloseness s /\ computeCloseness s <= 1
  /\ (forallb isCore (cubelets s) = true -> computeCloseness s = 1).
Proof.
  split; [apply computeCloseness_range|].
  split; [apply computeCloseness_range|].
  intros Hcore. unfold computeCloseness, closenessCounts.
  rewrite closenessCounts_from.
  rewrite (filter_none (fun c => negb (isCore c)) (cubelets s)).
  - reflexivity.
  - rewrite forallb_forall in Hcore. intros c Hc.
    rewrite (Hcore c Hc). reflexivity.
Qed.

(** X13.  In every state reached from the initial one the closeness is the
    number of non-core cubelets that sit at their home position, divided by
    26: the orientation of a cubelet plays no part.  It is 1 exactly when
    every non-core cubelet is at its home position. *)
Theorem closeness_counts_positions_only (events : list Event) :
  let s := run events initialState in
  let atHome := filter (fun c => negb (isCore c)
                                 && Vector3_eqb (position c) (home c))
                       (cubelets s) in
  computeCloseness s = ofZ (Z.of_nat (length atHome)) / ofZ 26
  /\ (computeCloseness s = 1 <->
      forall c, In c (cubelets s) -> isCore c = false -> position c = home c).
Proof.
  intros s atHome.
  pose proof (run_invariant events initialState buildSolvedCube_invariant)
    as Hinv.
  pose proof (run_homes events) as Hhome. fold s in Hinv, Hhome.
  assert (Hle : (length atHome <= 26)%nat).
  { unfold atHome. rewrite <- (noncore_count (cubelets s) Hhome).
    clear. induction (cubelets s) as [|c l IH]; cbn [filter]; [lia|].
    destruct (negb (isCore c)), (Vector3_eqb (position c) (home c));
      cbn [andb length]; lia. }
  assert (Hval : computeCloseness s = ofZ (Z.of_nat (length atHome)) / ofZ 26).
  { unfold computeCloseness, closenessCounts.
    rewrite closenessCounts_from, (counted_correct_at_rest _ Hinv Hhome),
      (noncore_count _ Hhome).
    fold atHome. cbn [Z.add Z.of_nat Pos.of_succ_nat Pos.succ Z.eqb].
    change (0 + Z.of_nat (length atHome))%Z with (Z.of_nat (length atHome)).
    apply Math_max_min_inside;
      apply (ratio_in_unit (Z.of_nat (length atHome)) 26); lia. }
  split; [exact Hval|].
  rewrite Hval, ratio_is_one by discriminate.
  assert (H26 : (Z.of_nat (length atHome) = 26)%Z
                <-> length atHome
                    = length (filter (fun c => negb (isCore c)) (cubelets s)))
    by (rewrite (noncore_count _ Hhome); lia).
  rewrite H26. unfold atHome. rewrite filter_and_length.
  split.
  - intros H c Hc Hcore. apply Vector3_eqb_eq, H; [exact Hc|].
    rewrite Hcore. reflexivity.
  - intros H c Hc Hcore. rewrite (H c Hc).
    + apply Vector3_eqb_refl.
    + apply negb_true_iff, Hcore.
Qed.

(** ** Picking a face *)

Section Picking.

Lemma ltb_irrefl_lt (a b : Qc) : a < b -> ltb b a = false.
Proof. intros H. apply ltb_ge, Qclt_le_weak, H. Qed.

End Picking.

(** X14.  [axisOfVector] answers [x] exactly when [|x|] is strictly the
    largest, [y] exactly when [|y|] is strictly the largest, and [z] in every
    other case: when [|x|] and [|y|] tie it answers [z], however small [|z|]
    is. *)
Theorem axisOfVector_strict_maximum (v : Vector3) :
  (axisOfVector v = AxisX <->
   Math_abs (y v) < Math_abs (x v) /\ Math_abs (z v) < Math_abs (x v))
  /\ (axisOfVector v = AxisY <->
      Math_abs (x v) < Math_abs (y v) /\ Math_abs (z v) < Math_abs (y v))
  /\ (Math_abs (x v) = Math_abs (y v) -> axisOfVector v = AxisZ).
Proof.
  unfold axisOfVector.
  set (ax := Math_abs (x v)). set (ay := Math_abs (y v)).
  set (az := Math_abs (z v)).
  split; [|split].
  - destruct (ltb ay ax && ltb az ax) eqn:E.
    + apply andb_true_iff in E. destruct E as [E1 E2].
      apply ltb_lt in E1, E2. tauto.
    + split.
      * destruct (ltb ax ay && ltb az ay); discriminate.
      * intros [H1 H2]. apply ltb_lt in H1, H2. rewrite H1, H2 in E.
        discriminate.
  - destruct (ltb ay ax && ltb az ax) eqn:E.
    + apply andb_true_iff in E. destruct E as [E1 _]. apply ltb_lt in E1.
      split; [discriminate|]. intros [H1 _].
      exfalso. apply (Qclt_not_le _ _ H1). apply Qclt_le_weak, E1.
    + destruct (ltb ax ay && ltb az ay) eqn:E'.
      * apply andb_true_iff in E'. destruct E' as [E1 E2].
        apply ltb_lt in E1, E2. tauto.
      * split; [discriminate|]. intros [H1 H2]. apply ltb_lt in H1, H2.
        rewrite H1, H2 in E'. discriminate.
  - intros H. rewrite H.
    assert (Hirr : ltb ay ay = false) by (apply ltb_ge, Qcle_refl).
    rewrite Hirr. reflexivity.
Qed.

(** X15.  The axis and the sign read off a face normal are those of the
    face: for each of the six outer faces, [axisOfVector] and
    [Math.sign(...) || 1] applied to [vectorForAxis axis sign] give back the
    axis and the sign.  A double click on that face, with no turn in flight
    and the cubelets on lattice points, turns its layer by a half turn and
    records [{axis, sign, cw: true, quarters: 2}]; a second double click on
    the same face puts every cubelet back at the position it had. *)
Theorem double_click_turns_the_face (a : Axis) (sg : Z) (s : State) :
  (sg = 1 \/ sg = -1)%Z -> isTurning s = false ->
  Forall (fun c => In (position c) lattice) (cubelets s) ->
  let n := vectorForAxis a sg in
  let m := mkMove a sg true 2 in
  axisOfVector n = a /\ Math_sign_or_1 (component n (axisOfVector n)) = sg
  /\ onDoubleClick (Some n) s = animateTurn m true s
  /\ moveHistory (onDoubleClick (Some n) s) = moveHistory s ++ [m]
  /\ cubelets (onDoubleClick (Some n) s) = turnCubelets m (cubelets s)
  /\ map position (cubelets (onDoubleClick (Some n) (onDoubleClick (Some n) s)))
     = map position (cubelets s)
  /\ map home (cubelets (onDoubleClick (Some n) (onDoubleClick (Some n) s)))
     = map home (cubelets s).
Proof.
  intros Hsg Ht Hl n m.
  assert (Hp : Forall (fun c => integralPosition (position c)) (cubelets s))
    by (apply lattice_positions_integral, Hl).
  assert (Ha : axisOfVector n = a)
    by (destruct a; destruct Hsg as [-> | ->]; reflexivity).
  assert (Hs : Math_sign_or_1 (component n (axisOfVector n)) = sg)
    by (destruct a; destruct Hsg as [-> | ->]; reflexivity).
  assert (Hd : forall st, isTurning st = false ->
                 onDoubleClick (Some n) st = animateTurn m true st).
  { intros st Hst. unfold onDoubleClick. rewrite Hst, Hs, Ha. reflexivity. }
  split; [exact Ha|]. split; [exact Hs|]. split; [apply Hd, Ht|].
  split; [rewrite Hd by exact Ht; apply moveHistory_recorded, Ht|].
  split; [rewrite Hd, cubelets_animateTurn, Ht by exact Ht; reflexivity|].
  assert (Hback : cubelets (onDoubleClick (Some n) (onDoubleClick (Some n) s))
                  = cubelets s).
  { rewrite (Hd s Ht), Hd by (apply isTurning_animateTurn, Ht).
    rewrite cubelets_animateTurn, isTurning_animateTurn by exact Ht.
    rewrite cubelets_animateTurn, Ht.
    rewrite (turnCubelets_add a sg true 2 2) by (first [lia | exact Hp]).
    rewrite turnCubelets_as_map. cbn [axis sign cw quarters].
    apply (map_fixed _ _ _ (fun c Hc =>
             turnCubelet_full a sg (targetQuarters true (2 + 2)) c eq_refl Hc)
             Hp). }
  rewrite Hback. split; reflexivity.
Qed.

Lemma double_click_turns_the_face_witness :
  (1 = 1 \/ 1 = -1)%Z /\ isTurning initialState = false
  /\ Forall (fun c => In (position c) lattice) (cubelets initialState)
  /\ map position
       (cubelets (onDoubleClick (Some (vectorForAxis AxisZ 1))
                    (onDoubleClick (Some (vectorForAxis AxisZ 1))
                                   initialState)))
     = map position (cubelets initialState).
Proof.
  split; [left; reflexivity|]. split; [reflexivity|].
  split; [exact buildSolvedCube_on_lattice|].
  apply (double_click_turns_the_face AxisZ 1 initialState
           (or_introl eq_refl) eq_refl buildSolvedCube_on_lattice).
Defined.

(** X16.  The setup counter counts the turns recorded since Start: after
    Start is pressed in a state that is not in setup mode, and any recorded
    turns, the mode is [setup], the counter is their number, and the setup
    sequence and the history are these turns.  Outside setup mode recorded
    turns leave the counter and the sequence alone. *)
Theorem setup_counts_turns_since_start (s : State) (ms : list Move) :
  isTurning s = false -> mode s <> setup ->
  let s' := recordedTurns ms (btnSetup s) in
  mode s' = setup
  /\ setupCount s' = Z.of_nat (length ms)
  /\ setupSequence s' = ms
  /\ moveHistory s' = ms
  /\ setupCount (recordedTurns ms s) = setupCount s
  /\ setupSequence (recordedTurns ms s) = setupSequence s.
Proof.
  intros Ht Hm s'.
  assert (Hb : btnSetup s = set_moveHistory [] (set_setup 0 [] (set_mode setup s))).
  { unfold btnSetup. rewrite Ht. destruct (mode s); try congruence; reflexivity. }
  assert (Ht' : isTurning (btnSetup s) = false) by (rewrite Hb; exact Ht).
  destruct (recordedTurns_idle ms (btnSetup s) Ht') as [_ [Hh [_ Hmode]]].
  destruct (recordedTurns_setup ms (btnSetup s) Ht') as [Hc Hs].
  destruct (recordedTurns_setup ms s Ht) as [Hc0 Hs0].
  unfold s'. rewrite Hmode, Hh, Hc, Hs, Hc0, Hs0, Hb.
  cbn [set_moveHistory set_setup set_mode mode moveHistory setupCount
       setupSequence Mode_eqb app Z.add].
  destruct (mode s); try congruence; repeat split; reflexivity.
Qed.

Lemma setup_counts_turns_since_start_witness :
  isTurning rightFaceTurned = false /\ mode rightFaceTurned <> setup /\
  setupCount (recordedTurns [mkMove AxisY 1 true 1; mkMove AxisZ 1 false 2]
                            (btnSetup rightFaceTurned)) = 2%Z.
Proof.
  assert (H : mode rightFaceTurned <> setup) by (vm_compute; discriminate).
  split; [reflexivity|]. split; [exact H|].
  apply (setup_counts_turns_since_start rightFaceTurned
           [mkMove AxisY 1 true 1; mkMove AxisZ 1 false 2] eq_refl H).
Defined.

(** X17.  The whole effect of Assemble, pressed with no turn in flight and a
    non-empty history: the cubelets are those obtained by undoing the history
    from its last entry to its first, the history is empty, the mode is
    [play], and the pointer state, the setup counter and the setup sequence
    are as they were. *)
Theorem assemble_net_effect (s : State) :
  isTurning s = false -> moveHistory s <> [] ->
  btnSolve s
  = mkState (fold_left (fun cs m => turnCubelets (inverse m) cs)
                       (rev (moveHistory s)) (cubelets s))
            (isPointerDown s) (dragInfo s) false [] play
            (setupCount s) (setupSequence s).
Proof.
  intros Ht Hh. rewrite btnSolve_idle by assumption.
  unfold set_moveHistory, set_cubelets, set_mode.
  cbn [cubelets isPointerDown dragInfo isTurning moveHistory mode setupCount
       setupSequence].
  rewrite Ht. reflexivity.
Qed.

Lemma assemble_net_effect_witness :
  isTurning rightFaceTurned = false /\ moveHistory rightFaceTurned <> [] /\
  setupCount (btnSolve rightFaceTurned) = setupCount rightFaceTurned.
Proof.
  assert (H : moveHistory rightFaceTurned <> []) by (vm_compute; discriminate).
  split; [reflexivity|]. split; [exact H|].
  rewrite (assemble_net_effect rightFaceTurned eq_refl H). reflexivity.
Defined.

(** X18.  After Reset, pressed with no turn in flight in any state, any
    recorded turns followed by Assemble end with closeness 1, every cubelet
    at its home position, at the place in the registry where
    [buildSolvedCube] puts it, and an empty history; Reset keeps the mode. *)
Theorem reset_then_assemble (s : State) (ms : list Move) :
  isTurning s = false ->
  let r := btnSolve (recordedTurns ms (btnReset s)) in
  computeCloseness r = 1
  /\ map position (cubelets r) = map position buildSolvedCube
  /\ map home (cubelets r) = map home buildSolvedCube
  /\ Forall (fun c => position c = home c) (cubelets r)
  /\ moveHistory r = [] /\ mode (btnReset s) = mode s.
Proof.
  intros Ht r.
  assert (Hb : btnReset s
               = set_setup 0 [] (set_moveHistory []
                                   (set_cubelets buildSolvedCube s)))
    by (unfold btnReset; rewrite Ht; reflexivity).
  assert (Hr : atRest (btnReset s)).
  { rewrite Hb. split; [exact Ht | apply buildSolvedCube_integral]. }
  destruct (undo_recorded (btnReset s) ms Hr) as [H1 [H2 _]].
  { rewrite Hb. reflexivity. }
  fold r in H1, H2.
  assert (Hc : cubelets r = buildSolvedCube) by (rewrite H1, Hb; reflexivity).
  split; [apply computeCloseness_solved, Hc|].
  rewrite Hc. split; [reflexivity|]. split; [reflexivity|].
  split; [|split; [exact H2 | rewrite Hb; reflexivity]].
  apply Forall_forall. intros c Hin. unfold buildSolvedCube in Hin.
  rewrite in_flat_map in Hin. destruct Hin as [xi [_ Hin]].
  rewrite in_flat_map in Hin. destruct Hin as [yi [_ Hin]].
  rewrite in_map_iff in Hin. destruct Hin as [zi [<- _]]. reflexivity.
Qed.

Lemma reset_then_assemble_witness :
  isTurning rightFaceTurned = false /\
  map position
    (cubelets (btnSolve (recordedTurns [mkMove AxisZ 1 true 1]
                                       (btnReset rightFaceTurned))))
  = map position buildSolvedCube.
Proof.
  split; [reflexivity|].
  apply (reset_then_assemble rightFaceTurned [mkMove AxisZ 1 true 1] eq_refl).
Defined.

Section Progress.

Lemma Math_round_percent (p : Qc) :
  0 <= p -> p <= 1 -> (0 <= Math_round (p * ofZ 100) <= 100)%Z.
Proof.
  unfold Qcle, Math_round. intros H0 H1.
  assert (E : (this (p * ofZ 100) == this p * inject_Z 100)%Q).
  { unfold Qcmult. rewrite this_Q2Qc, this_ofZ. reflexivity. }
  rewrite E.
  change (this 0) with 0%Q in H0. change (this 1) with 1%Q in H1.
  split.
  - change 0%Z with (Qfloor (inject_Z 0)). apply Qfloor_resp_le.
    clear E. unfold inject_Z. lra.
  - apply Z.le_trans with (m := Qfloor ((100 # 1) + (1 # 2))).
    + apply Qfloor_resp_le. clear E. unfold inject_Z. lra.
    + vm_compute. discriminate.
Qed.

End Progress.

(** X19.  The percentage [updateProgressUI] writes is a whole number from 0
    to 100; outside [play] mode it is 0, and in [play] mode on the solved
    cube it is 100. *)
Theorem progress_is_a_percentage (s : State) :
  (0 <= updateProgressUI s <= 100)%Z
  /\ (mode s <> play -> updateProgressUI s = 0%Z)
  /\ (mode s = play -> cubelets s = buildSolvedCube ->
      updateProgressUI s = 100%Z).
Proof.
  unfold updateProgressUI. split; [|split].
  - destruct (Mode_eqb (mode s) play).
    + apply Math_round_percent; apply (computeCloseness_range s).
    + apply Math_round_percent; [apply Qcle_refl | discriminate].
  - intros H. destruct (mode s); try congruence; reflexivity.
  - intros Hm Hc. rewrite Hm, (computeCloseness_solved s Hc). reflexivity.
Qed.

(** * The faces: stickers, random numbers and colours *)

Section Stickers.

Lemma coordinates_listed (xi yi zi : Z) :
  In xi indices -> In yi indices -> In zi indices ->
  In (xi, yi, zi) coordinates.
Proof.
  intros Hx Hy Hz. unfold coordinates.
  apply in_prod; [apply in_prod|]; assumption.
Qed.

Lemma stickers_checked :
  forallb (fun p =>
    forallb (fun f =>
      let (a, sg) := faces f in
      match stickerOn f p with
      | Some st =>
          (coordinate p a =? sg)%Z && faceEqb (stickerFace st) f
          && (0 <=? col st)%Z && (col st <=? 2)%Z
          && (0 <=? row st)%Z && (row st <=? 2)%Z
      | None => negb (coordinate p a =? sg)%Z
      end) [faceR; faceL; faceU; faceD; faceF; faceB]
    && (length (cubeletMaterials (fst (fst p)) (snd (fst p)) (snd p)) =? 6)%nat)
    coordinates = true.
Proof. vm_compute. reflexivity. Qed.

Lemma tiles_checked :
  forallb (fun f =>
    forallb (fun t =>
      (length (filter (hasTile f (fst t) (snd t)) coordinates) =? 1)%nat)
      (list_prod [0; 1; 2]%Z [0; 1; 2]%Z))
    [faceR; faceL; faceU; faceD; faceF; faceB] = true.
Proof. vm_compute. reflexivity. Qed.

Lemma face_listed (f : Face) : In f [faceR; faceL; faceU; faceD; faceF; faceB].
Proof. destruct f; simpl; auto 7. Qed.

End Stickers.

(** X20.  The stickers [buildSolvedCube] hands out.  A cubelet carries a
    sticker of a face exactly when it lies in the outer layer of that face,
    the layer the Scramble table [faces] turns under the same name; the
    sticker sits in the material slot of that face, is cut from that face's
    image, and its column and row are 0, 1 or 2.  On each face every one of
    the nine tiles is on exactly one cubelet. *)
Theorem stickers_tile_each_face (f : Face) :
  (forall xi yi zi, In xi indices -> In yi indices -> In zi indices ->
     length (cubeletMaterials xi yi zi) = 6%nat
     /\ match stickerOn f (xi, yi, zi) with
        | Some st =>
            coordinate (xi, yi, zi) (fst (faces f)) = snd (faces f)
            /\ stickerFace st = f
            /\ (0 <= col st <= 2)%Z /\ (0 <= row st <= 2)%Z
        | None => coordinate (xi, yi, zi) (fst (faces f)) <> snd (faces f)
        end)
  /\ (forall c r, In c [0; 1; 2]%Z -> In r [0; 1; 2]%Z ->
        length (filter (hasTile f c r) coordinates) = 1%nat
        /\ 0 <= fst (fst (makeStickerTextureFromBase c r))
        /\ fst (fst (makeStickerTextureFromBase c r))
           + fst (snd (makeStickerTextureFromBase c r)) <= 1
        /\ 0 <= snd (fst (makeStickerTextureFromBase c r))
        /\ snd (fst (makeStickerTextureFromBase c r))
           + snd (snd (makeStickerTextureFromBase c r)) <= 1).
Proof.
  split.
  - intros xi yi zi Hx Hy Hz.
    pose proof stickers_checked as H. rewrite forallb_forall in H.
    specialize (H (xi, yi, zi) (coordinates_listed xi yi zi Hx Hy Hz)).
    apply andb_prop in H. destruct H as [H Hlen].
    rewrite forallb_forall in H. specialize (H f (face_listed f)).
    cbn [fst snd] in Hlen. apply Nat.eqb_eq in Hlen. split; [exact Hlen|].
    destruct (faces f) as [a sg]. cbn [fst snd].
    destruct (stickerOn f (xi, yi, zi)) as [st|].
    + repeat (apply andb_prop in H; destruct H as [H ?]).
      apply Z.eqb_eq in H.
      repeat match goal with
             | E : (_ <=? _)%Z = true |- _ => apply Z.leb_le in E
             end.
      split; [exact H|]. split; [|lia].
      match goal with E : faceEqb _ _ = true |- _ =>
        unfold faceEqb in E; apply Nat.eqb_eq in E;
        destruct (stickerFace st), f; try discriminate E; reflexivity
      end.
    + apply negb_true_iff, Z.eqb_neq in H. exact H.
  - intros c r Hc Hr.
    pose proof tiles_checked as H. rewrite forallb_forall in H.
    specialize (H f (face_listed f)). rewrite forallb_forall in H.
    specialize (H (c, r) (in_prod _ _ _ _ Hc Hr)).
    apply Nat.eqb_eq in H. split; [exact H|].
    destruct Hc as [<- | [<- | [<- | []]]];
      destruct Hr as [<- | [<- | [<- | []]]];
      repeat split; vm_compute; discriminate.
Qed.

Section Generator.

Lemma toUint32_range (n : Z) : (0 <= toUint32 n < 4294967296)%Z.
Proof. unfold toUint32. apply Z.mod_pos_bound. reflexivity. Qed.

Lemma toUint32_small (n : Z) : (0 <= n < 4294967296)%Z -> toUint32 n = n.
Proof. intros H. unfold toUint32. apply Z.mod_small, H. Qed.

Lemma makeSeededRng_from (seedStr : list Z) (seed : Z) :
  (0 <= seed < 4294967296)%Z ->
  (0 <= fold_left (fun sd code => toUint32 (sd * 31 + code)) seedStr seed
   < 4294967296)%Z.
Proof.
  revert seed. induction seedStr as [|c l IH]; intros seed H; cbn [fold_left].
  - exact H.
  - apply IH, toUint32_range.
Qed.

(** The step of the generator can be taken back: 4276115653 is the inverse
    of 1664525 modulo 2^32. *)
Lemma step_back (a : Z) :
  (0 <= a < 4294967296)%Z ->
  toUint32 (4276115653 * (toUint32 (1664525 * a + 1013904223) - 1013904223))
  = a.
Proof.
  intros H. unfold toUint32. Z.div_mod_to_equations. lia.
Qed.

Lemma rnd_value (seed : Z) :
  0 <= fst (rnd seed) /\ fst (rnd seed) < 1
  /\ fst (rnd seed) * ofZ 4294967296 = ofZ (snd (rnd seed)).
Proof.
  unfold rnd. cbn [fst snd].
  set (s' := toUint32 (1664525 * seed + 1013904223)).
  pose proof (toUint32_range (1664525 * seed + 1013904223)) as Hr.
  fold s' in Hr. rewrite (toUint32_small s' Hr).
  assert (Hnz : ofZ 4294967296 <> 0) by (apply ofZ_nonzero; discriminate).
  split; [|split].
  - apply (ratio_in_unit s' 4294967296); lia.
  - unfold Qclt. rewrite this_div, !this_ofZ.
    apply Qlt_shift_div_r.
    + reflexivity.
    + rewrite Qmult_1_l. apply (proj1 (Zlt_inject s' 4294967296)). lia.
  - field. exact Hnz.
Qed.

Lemma floor_scaled (v : Qc) (n : Z) :
  0 <= v -> v < 1 -> (0 < n)%Z -> (0 <= Math_floor (v * ofZ n) < n)%Z.
Proof.
  unfold Qcle, Qclt, Math_floor. intros H0 H1 Hn.
  change (this 0) with 0%Q in H0. change (this 1) with 1%Q in H1.
  assert (E : (this (v * ofZ n) == this v * inject_Z n)%Q).
  { unfold Qcmult. rewrite this_Q2Qc, this_ofZ. reflexivity. }
  rewrite E.
  assert (Hpos : (0 < inject_Z n)%Q) by exact (proj1 (Zlt_inject 0 n) Hn).
  split.
  - change 0%Z with (Qfloor (inject_Z 0)). apply Qfloor_resp_le.
    apply Qmult_le_0_compat; [exact H0 | apply Qlt_le_weak, Hpos].
  - apply (proj2 (Zlt_inject _ _)).
    eapply Qle_lt_trans; [apply Qfloor_le|].
    rewrite <- (Qmult_1_l (inject_Z n)) at 2.
    apply Qmult_lt_compat_r; assumption.
Qed.

End Generator.

(** X21.  The seeded generator.  The seed computed from a string is a
    32-bit unsigned number, 0 for the empty string.  Each call of [rnd]
    returns the new seed divided by 2^32, a number in [0, 1), so that
    [Math.floor(rnd() * n)] is a valid index into [n] items.  The step from
    one seed to the next is one-to-one on 32-bit seeds.  For 32-bit seeds
    and 16-bit code units every intermediate value is a whole number below
    2^53. *)
Theorem seeded_generator :
  makeSeededRng [] = 0%Z
  /\ (forall seedStr, (0 <= makeSeededRng seedStr < 4294967296)%Z)
  /\ (forall seed,
        (0 <= snd (rnd seed) < 4294967296)%Z
        /\ 0 <= fst (rnd seed) /\ fst (rnd seed) < 1
        /\ fst (rnd seed) * ofZ 4294967296 = ofZ (snd (rnd seed)))
  /\ (forall seed n, (0 < n)%Z ->
        (0 <= Math_floor (fst (rnd seed) * ofZ n) < n)%Z)
  /\ (forall a b, (0 <= a < 4294967296)%Z -> (0 <= b < 4294967296)%Z ->
        snd (rnd a) = snd (rnd b) -> a = b)
  /\ (forall seed code, (0 <= seed < 4294967296)%Z -> (0 <= code < 65536)%Z ->
        (0 <= seed * 31 + code < 2 ^ 53)%Z
        /\ (0 <= 1664525 * seed + 1013904223 < 2 ^ 53)%Z).
Proof.
  split; [reflexivity|]. split.
  { intros seedStr. apply makeSeededRng_from. lia. }
  split.
  { intros seed. split; [apply toUint32_range | apply rnd_value]. }
  split.
  { intros seed n Hn. apply floor_scaled; [apply rnd_value .. | exact Hn]. }
  split.
  { intros a b Ha Hb H. unfold rnd in H. cbn [snd] in H.
    rewrite <- (step_back a Ha), <- (step_back b Hb), H. reflexivity. }
  intros seed code Hs Hc. change (2 ^ 53)%Z with 9007199254740992%Z. lia.
Qed.

(** ** Colours *)

Section Reals.

Lemma this_mult (a b : Qc) : (this (a * b) == this a * this b)%Q.
Proof. unfold Qcmult. apply this_Q2Qc. Qed.

Lemma this_opp (a : Qc) : (this (- a) == - this a)%Q.
Proof. unfold Qcopp. apply this_Q2Qc. Qed.

Lemma this_minus (a b : Qc) : (this (a - b) == this a - this b)%Q.
Proof. unfold Qcminus. rewrite this_plus, this_opp. reflexivity. Qed.

Lemma this_over (a : Qc) (n : positive) :
  (this (a / ofZ (Zpos n)) == this a * (1 # n))%Q.
Proof.
  rewrite this_div, this_ofZ. unfold Qdiv, Qinv, inject_Z. cbn [Qnum Qden].
  reflexivity.
Qed.

Lemma this_0 : this 0 = 0%Q.
Proof. reflexivity. Qed.

Lemma this_1 : this 1 = 1%Q.
Proof. reflexivity. Qed.

Create Rewrite HintDb to_Q.

#[local] Hint Rewrite this_plus this_minus this_mult this_opp this_over
  this_ofZ this_Q2Qc this_0 this_1 : to_Q.

Ltac to_Q := unfold Qcle, Qclt in *; autorewrite with to_Q in *;
             unfold inject_Z in *.

Lemma Math_abs_cases (v : Qc) :
  (0 <= v /\ Math_abs v = v) \/ (v < 0 /\ Math_abs v = - v).
Proof.
  unfold Math_abs. destruct (ltb v 0) eqn:E.
  - right. split; [apply ltb_lt, E | reflexivity].
  - left. split; [apply ltb_ge, E | reflexivity].
Qed.

Lemma clamp01_unit (v : Qc) : 0 <= clamp01 v /\ clamp01 v <= 1.
Proof.
  unfold clamp01. destruct (ltb v 0) eqn:E0.
  - split; [apply Qcle_refl | discriminate].
  - destruct (ltb 1 v) eqn:E1.
    + split; [discriminate | apply Qcle_refl].
    + split; [apply ltb_ge, E0 | apply ltb_ge, E1].
Qed.

Lemma Math_round_scaled (p : Qc) (n : positive) :
  0 <= p -> p <= 1 -> (0 <= Math_round (p * ofZ (Zpos n)) <= Zpos n)%Z.
Proof.
  intros H0 H1. unfold Math_round. to_Q.
  assert (Hn : (0 < Zpos n # 1)%Q) by reflexivity.
  split.
  - change 0%Z with (Qfloor (inject_Z 0)). apply Qfloor_resp_le.
    unfold inject_Z. nra.
  - apply Z.le_trans with (m := Qfloor (inject_Z (Zpos n) + (1 # 2))).
    + apply Qfloor_resp_le. unfold inject_Z. nra.
    + apply Z.eq_le_incl, Qfloor_unique.
      * unfold inject_Z. lra.
      * rewrite inject_Z_plus. unfold inject_Z. lra.
Qed.

Lemma Math_round_monotone (u v : Qc) : u <= v -> (Math_round u <= Math_round v)%Z.
Proof.
  intros H. unfold Math_round. apply Qfloor_resp_le. to_Q. lra.
Qed.

(** For a number that is not negative, [hp % 2] lies in [0, 2). *)
Lemma js_rem_2 (hp : Qc) :
  0 <= hp -> 0 <= js_rem hp (ofZ 2) /\ js_rem hp (ofZ 2) < ofZ 2.
Proof.
  intros H. unfold js_rem, Math_trunc.
  assert (Hh : ltb (hp / ofZ 2) 0 = false).
  { apply ltb_ge. to_Q. lra. }
  rewrite Hh.
  pose proof (Qfloor_le (this (hp / ofZ 2))) as Hlo.
  pose proof (Qlt_floor (this (hp / ofZ 2))) as Hhi.
  set (q := Qfloor (this (hp / ofZ 2))) in *.
  rewrite inject_Z_plus in Hhi.
  rewrite this_over in Hlo, Hhi.
  to_Q. split; lra.
Qed.

Lemma chroma_bounds (s l : Qc) :
  0 <= s -> s <= 1 -> 0 <= l -> l <= 1 ->
  0 <= (1 - Math_abs (ofZ 2 * l - 1)) * s
  /\ 0 <= l - (1 - Math_abs (ofZ 2 * l - 1)) * s / ofZ 2
  /\ (1 - Math_abs (ofZ 2 * l - 1)) * s
     + (l - (1 - Math_abs (ofZ 2 * l - 1)) * s / ofZ 2) <= 1.
Proof.
  intros Hs0 Hs1 Hl0 Hl1.
  destruct (Math_abs_cases (ofZ 2 * l - 1)) as [[Ha ->] | [Ha ->]];
    to_Q; repeat split; nra.
Qed.

Lemma second_bounds (c hp : Qc) :
  0 <= c -> 0 <= hp ->
  0 <= c * (1 - Math_abs (js_rem hp (ofZ 2) - 1))
  /\ c * (1 - Math_abs (js_rem hp (ofZ 2) - 1)) <= c.
Proof.
  intros Hc Hhp. destruct (js_rem_2 hp Hhp) as [Hr0 Hr2].
  generalize dependent (js_rem hp (ofZ 2)). intros r Hr0 Hr2.
  destruct (Math_abs_cases (r - 1)) as [[Ha ->] | [Ha ->]];
    to_Q; split; nra.
Qed.

Lemma channel_byte (v m c : Qc) :
  0 <= v -> v <= c -> 0 <= m -> c + m <= 1 ->
  isByte (Math_round ((v + m) * ofZ 255)).
Proof.
  intros Hv Hvc Hm Hcm. apply (Math_round_scaled (v + m) 255); to_Q; lra.
Qed.

Lemma leb_nonneg (k hp : Qc) (b : bool) :
  0 <= k -> leb k hp && b = true -> 0 <= hp.
Proof.
  intros Hk H. apply andb_prop in H. destruct H as [H _].
  apply leb_le in H. to_Q. lra.
Qed.

Lemma hslToRgb_bytes (h s l : Qc) :
  0 <= s -> s <= 1 -> 0 <= l -> l <= 1 -> isByteColour (hslToRgb h s l).
Proof.
  intros Hs0 Hs1 Hl0 Hl1.
  destruct (chroma_bounds s l Hs0 Hs1 Hl0 Hl1) as [Hc [Hm Hcm]].
  unfold hslToRgb.
  set (c := (1 - Math_abs (ofZ 2 * l - 1)) * s) in *.
  set (hp := h / ofZ 60).
  set (m := l - c / ofZ 2) in *.
  assert (Hzero : isByte (Math_round ((0 + m) * ofZ 255)))
    by (apply (channel_byte 0 m c); [apply Qcle_refl | exact Hc | exact Hm | exact Hcm]).
  assert (Hfull : isByte (Math_round ((c + m) * ofZ 255)))
    by (apply (channel_byte c m c); [exact Hc | apply Qcle_refl | exact Hm | exact Hcm]).
  assert (Hsec : 0 <= hp ->
                 isByte (Math_round
                   ((c * (1 - Math_abs (js_rem hp (ofZ 2) - 1)) + m) * ofZ 255))).
  { intros Hhp. destruct (second_bounds c hp Hc Hhp) as [Hx0 Hxc].
    apply (channel_byte _ m c); assumption. }
  assert (H1 : 0 <= 1) by discriminate.
  assert (H2 : 0 <= ofZ 2) by discriminate.
  assert (H3 : 0 <= ofZ 3) by discriminate.
  assert (H4 : 0 <= ofZ 4) by discriminate.
  assert (H5 : 0 <= ofZ 5) by discriminate.
  unfold isByteColour.
  destruct (leb 0 hp && ltb hp 1) eqn:E0;
    [pose proof (Hsec (leb_nonneg _ _ _ (Qcle_refl 0) E0));
     cbn [fst snd]; auto|].
  destruct (leb 1 hp && ltb hp (ofZ 2)) eqn:E1;
    [pose proof (Hsec (leb_nonneg _ _ _ H1 E1)); cbn [fst snd]; auto|].
  destruct (leb (ofZ 2) hp && ltb hp (ofZ 3)) eqn:E2;
    [pose proof (Hsec (leb_nonneg _ _ _ H2 E2)); cbn [fst snd]; auto|].
  destruct (leb (ofZ 3) hp && ltb hp (ofZ 4)) eqn:E3;
    [pose proof (Hsec (leb_nonneg _ _ _ H3 E3)); cbn [fst snd]; auto|].
  destruct (leb (ofZ 4) hp && ltb hp (ofZ 5)) eqn:E4;
    [pose proof (Hsec (leb_nonneg _ _ _ H4 E4)); cbn [fst snd]; auto|].
  destruct (leb (ofZ 5) hp && ltb hp (ofZ 6)) eqn:E5;
    [pose proof (Hsec (leb_nonneg _ _ _ H5 E5)); cbn [fst snd]; auto|].
  cbn [fst snd]. auto.
Qed.

(** A hue outside [0, 360) takes none of the six branches. *)
Lemma hslToRgb_off_wheel (h s l : Qc) :
  h < 0 \/ ofZ 360 <= h ->
  hslToRgb h s l
  = (let m := l - (1 - Math_abs (ofZ 2 * l - 1)) * s / ofZ 2 in
     (Math_round ((0 + m) * ofZ 255), Math_round ((0 + m) * ofZ 255),
      Math_round ((0 + m) * ofZ 255))).
Proof.
  intros H. unfold hslToRgb.
  set (hp := h / ofZ 60).
  assert (Hhp : hp < 0 \/ ofZ 6 <= hp).
  { unfold hp. destruct H as [H | H]; [left | right]; to_Q; lra. }
  assert (Hb : forall k k', 0 <= k -> k' <= ofZ 6 ->
                 leb k hp && ltb hp k' = false).
  { intros k k' Hk Hk'. destruct Hhp as [Hn | Hn].
    - replace (leb k hp) with false; [reflexivity|].
      symmetry. apply not_true_iff_false. intros E. apply leb_le in E.
      to_Q. lra.
    - replace (ltb hp k') with false; [apply andb_false_r|].
      symmetry. apply ltb_ge. to_Q. lra. }
  rewrite !Hb by (first [discriminate | apply Qcle_refl]).
  reflexivity.
Qed.

Lemma mix_within (lo hi a b : Z) (tt : Qc) :
  0 <= tt -> tt <= 1 -> (lo <= a <= hi)%Z -> (lo <= b <= hi)%Z ->
  (lo <= Math_round (mix (ofZ a) (ofZ b) tt) <= hi)%Z.
Proof.
  intros H0 H1 [Ha1 Ha2] [Hb1 Hb2].
  apply Zle_inject in Ha1, Ha2, Hb1, Hb2.
  split.
  - apply Z.le_trans with (m := Math_round (ofZ lo));
      [rewrite Math_round_ofZ; apply Z.le_refl|].
    apply Math_round_monotone. unfold mix. to_Q. nra.
  - apply Z.le_trans with (m := Math_round (ofZ hi));
      [|rewrite Math_round_ofZ; apply Z.le_refl].
    apply Math_round_monotone. unfold mix. to_Q. nra.
Qed.

Lemma mixRound_within (lo hi : Z) (a b : Z * Z * Z) (tt : Qc) :
  0 <= tt -> tt <= 1 -> channelsWithin lo hi a -> channelsWithin lo hi b ->
  channelsWithin lo hi (mixRound a b tt).
Proof.
  intros H0 H1 [A0 [A1 A2]] [B0 [B1 B2]].
  destruct a as [[a0 a1] a2], b as [[b0 b1] b2]. cbn [fst snd] in *.
  unfold channelsWithin, mixRound. cbn [fst snd].
  split; [|split]; apply mix_within; assumption.
Qed.

Lemma fraction_unit (t a b : Qc) :
  a <= t -> t <= b -> a < b ->
  0 <= (t - a) / (b - a) /\ (t - a) / (b - a) <= 1.
Proof.
  intros Ha Hb Hab. unfold Qcle. rewrite this_div, this_0, this_1.
  assert (Hd : (0 < this (b - a))%Q) by (to_Q; lra).
  split.
  - apply Qle_shift_div_l; [exact Hd|]. to_Q. lra.
  - apply Qle_shift_div_r; [exact Hd|]. to_Q. lra.
Qed.

Lemma sampleLoop_within (lo hi : Z) (stops : list Stop) (t : Qc) (r : Sampled) :
  increasing (map stop_t stops) = true ->
  Forall (fun st => channelsWithin lo hi (stop_rgb st)) stops ->
  sampleLoop stops t = Some r ->
  exists rgb, r = Colour rgb /\ channelsWithin lo hi rgb.
Proof.
  induction stops as [|a rest IH]; intros Hinc Hall H.
  - discriminate.
  - destruct rest as [|b rest'].
    + discriminate.
    + cbn [sampleLoop] in H. cbn [map increasing] in Hinc.
      apply andb_prop in Hinc. destruct Hinc as [Hab Hinc].
      apply ltb_lt in Hab.
      inversion Hall as [|? ? Ha Hrest]; subst.
      destruct (leb (stop_t a) t && leb t (stop_t b)) eqn:E.
      * apply andb_prop in E. destruct E as [E1 E2].
        apply leb_le in E1, E2.
        assert (Hne : Qc_eq_bool (stop_t b - stop_t a) 0 = false).
        { apply not_true_iff_false. intros Heq.
          apply Qc_eq_bool_correct in Heq.
          assert (Hlt : 0 < stop_t b - stop_t a) by (to_Q; lra).
          rewrite Heq in Hlt. discriminate Hlt. }
        rewrite Hne in H. inversion H; subst.
        eexists. split; [reflexivity|].
        inversion Hrest; subst.
        destruct (fraction_unit t (stop_t a) (stop_t b) E1 E2 Hab).
        apply mixRound_within; assumption.
      * apply IH; assumption.
Qed.

Lemma last_listed {A : Type} (l : list A) (a d : A) :
  In (last (a :: l) d) (a :: l).
Proof.
  revert a. induction l as [|b l IH]; intros a.
  - left. reflexivity.
  - right. change (last (a :: b :: l) d) with (last (b :: l) d). apply IH.
Qed.

Lemma last_default {A : Type} (l : list A) (a d d' : A) :
  last (a :: l) d = last (a :: l) d'.
Proof.
  revert a. induction l as [|b l IH]; intros a.
  - reflexivity.
  - change (last (a :: b :: l) d) with (last (b :: l) d).
    change (last (a :: b :: l) d') with (last (b :: l) d'). apply IH.
Qed.

Lemma samplePalette_within (lo hi : Z) (stops : list Stop) (t : Qc) :
  stops <> [] ->
  increasing (map stop_t stops) = true ->
  Forall (fun st => channelsWithin lo hi (stop_rgb st)) stops ->
  exists rgb, samplePalette stops t = Colour rgb /\ channelsWithin lo hi rgb.
Proof.
  intros Hne Hinc Hall. destruct stops as [|first rest]; [congruence|].
  assert (Hfirst : channelsWithin lo hi (stop_rgb first))
    by (inversion Hall; assumption).
  assert (Hlast : channelsWithin lo hi (stop_rgb (last (first :: rest) first))).
  { rewrite Forall_forall in Hall. apply Hall, last_listed. }
  unfold samplePalette.
  destruct (leb t 0); [eexists; split; [reflexivity | exact Hfirst]|].
  destruct (leb 1 t); [eexists; split; [reflexivity | exact Hlast]|].
  destruct (sampleLoop (first :: rest) t) as [r|] eqn:E.
  - apply (sampleLoop_within lo hi (first :: rest) t r Hinc Hall E).
  - eexists; split; [reflexivity | exact Hlast].
Qed.

Lemma paletteStops_facts (baseHue : Z) (offs : list Z) (i : nat) (seed : Z) :
  Forall (fun st => isByteColour (stop_rgb st))
         (fst (paletteStops baseHue offs i seed))
  /\ map stop_t (fst (paletteStops baseHue offs i seed))
     = map (fun j => ofZ (Z.of_nat j) / ofZ 5) (seq i (length offs))
  /\ snd (paletteStops baseHue offs i seed)
     = Nat.iter (length offs) (fun sd => snd (rnd sd)) seed.
Proof.
  revert i seed. induction offs as [|off rest IH]; intros i seed.
  - cbn. auto.
  - cbn [paletteStops].
    destruct (rnd seed) as [u seed1] eqn:Er.
    assert (Es : seed1 = snd (rnd seed)) by (rewrite Er; reflexivity).
    destruct (IH (S i) seed1) as [H1 [H2 H3]].
    destruct (paletteStops baseHue rest (S i) seed1) as [stops seed'].
    cbn [fst snd] in *. split; [|split].
    + constructor; [|exact H1]. cbn [stop_rgb].
      apply hslToRgb_bytes; apply clamp01_unit.
    + cbn [map length seq stop_t]. f_equal. exact H2.
    + rewrite H3, Es. cbn [length]. symmetry. apply Nat.iter_succ_r.
Qed.

End Reals.

(** X22.  For a saturation and a lightness in [0, 1], and any hue,
    [hslToRgb] returns three whole numbers from 0 to 255.  A hue of -1 or
    less, or of 360 or more, takes none of the six branches and gives a
    grey: three equal channels. *)
Theorem hslToRgb_gives_bytes (h s l : Qc) :
  0 <= s -> s <= 1 -> 0 <= l -> l <= 1 ->
  isByteColour (hslToRgb h s l)
  /\ (h <= - (1) \/ ofZ 360 <= h ->
      fst (fst (hslToRgb h s l)) = snd (fst (hslToRgb h s l))
      /\ snd (fst (hslToRgb h s l)) = snd (hslToRgb h s l)).
Proof.
  intros Hs0 Hs1 Hl0 Hl1. split.
  - apply hslToRgb_bytes; assumption.
  - intros Hh.
    assert (Hoff : h < 0 \/ ofZ 360 <= h).
    { destruct Hh as [Hh | Hh]; [left | right; exact Hh].
      apply Qcle_lt_trans with (- (1)); [exact Hh | reflexivity]. }
    rewrite (hslToRgb_off_wheel h s l Hoff). cbn [fst snd]. auto.
Qed.

Lemma hslToRgb_gives_bytes_witness :
  0 <= 1 /\ 1 <= 1 /\ 0 <= Q2Qc (1 # 2) /\ Q2Qc (1 # 2) <= 1
  /\ isByteColour (hslToRgb (ofZ 360) 1 (Q2Qc (1 # 2)))
  /\ hslToRgb (ofZ 360) 1 (Q2Qc (1 # 2)) = (0, 0, 0)%Z.
Proof.
  assert (H0 : 0 <= 1) by discriminate.
  assert (H1 : 1 <= 1) by discriminate.
  assert (H2 : 0 <= Q2Qc (1 # 2)) by discriminate.
  assert (H3 : Q2Qc (1 # 2) <= 1) by discriminate.
  split; [exact H0|]. split; [exact H1|]. split; [exact H2|].
  split; [exact H3|].
  split; [|reflexivity].
  apply (hslToRgb_gives_bytes (ofZ 360) 1 (Q2Qc (1 # 2)) H0 H1 H2 H3).
Defined.

(** X23.  On a palette that is not empty, with stops at strictly increasing
    [t] and every channel between [lo] and [hi], [samplePalette] returns a
    colour for every [t], never [NaN] and never an error, and every channel
    of that colour is between [lo] and [hi]; at or below 0 it is the colour
    of the first stop and at or above 1 that of the last. *)
Theorem samplePalette_stays_within (lo hi : Z) (stops : list Stop) (t : Qc) :
  stops <> [] ->
  increasing (map stop_t stops) = true ->
  Forall (fun st => channelsWithin lo hi (stop_rgb st)) stops ->
  (exists rgb, samplePalette stops t = Colour rgb /\ channelsWithin lo hi rgb)
  /\ (t <= 0 -> samplePalette stops t = Colour (stop_rgb (hd (mkStop 0 (0, 0, 0)%Z) stops)))
  /\ (0 < t -> 1 <= t ->
      samplePalette stops t
      = Colour (stop_rgb (last stops (mkStop 0 (0, 0, 0)%Z)))).
Proof.
  intros Hne Hinc Hall.
  split; [apply samplePalette_within; assumption|].
  destruct stops as [|first rest]; [congruence|].
  unfold samplePalette. cbn [hd]. split.
  - intros Ht. apply leb_le in Ht. rewrite Ht. reflexivity.
  - intros H0 H1. apply leb_le in H1.
    assert (Hz : leb t 0 = false).
    { apply not_true_iff_false. intros E. apply leb_le in E.
      exact (Qclt_not_le _ _ H0 E). }
    rewrite Hz, H1. f_equal. f_equal. apply last_default.
Qed.

Lemma samplePalette_stays_within_witness :
  greyRamp <> [] /\ increasing (map stop_t greyRamp) = true
  /\ Forall (fun st => channelsWithin 0 255 (stop_rgb st)) greyRamp
  /\ exists rgb, samplePalette greyRamp (Q2Qc (1 # 3)) = Colour rgb
                 /\ channelsWithin 0 255 rgb.
Proof.
  assert (H1 : greyRamp <> []) by discriminate.
  assert (H3 : Forall (fun st => channelsWithin 0 255 (stop_rgb st)) greyRamp).
  { repeat constructor; cbn; lia. }
  split; [exact H1|]. split; [reflexivity|]. split; [exact H3|].
  apply (samplePalette_stays_within 0 255 greyRamp (Q2Qc (1 # 3)) H1 eq_refl H3).
Defined.

(** X24.  [makePsyPalette], for any base hue and any state of the
    generator, builds six stops at [t] = 0, 1/5, 2/5, 3/5, 4/5, 1 whose
    channels are whole numbers from 0 to 255, and draws exactly six random
    numbers.  Sampling that palette at any [t] gives a colour whose channels
    are from 0 to 255; an empty palette makes [samplePalette] throw. *)
Theorem psy_palette_gives_bytes (baseHue seed : Z) (t : Qc) :
  let stops := fst (makePsyPalette baseHue seed) in
  length stops = 6%nat
  /\ map stop_t stops
     = map (fun j => ofZ (Z.of_nat j) / ofZ 5) [0; 1; 2; 3; 4; 5]%nat
  /\ Forall (fun st => isByteColour (stop_rgb st)) stops
  /\ snd (makePsyPalette baseHue seed)
     = Nat.iter 6 (fun sd => snd (rnd sd)) seed
  /\ (exists rgb, samplePalette stops t = Colour rgb /\ isByteColour rgb)
  /\ samplePalette [] t = TypeError.
Proof.
  intros stops.
  destruct (paletteStops_facts baseHue offsets 0 seed) as [H1 [H2 H3]].
  fold (makePsyPalette baseHue seed) in H1, H2, H3. fold stops in H1, H2.
  cbn [length offsets seq] in H2, H3.
  assert (Hlen : length stops = 6%nat).
  { rewrite <- (length_map stop_t), H2. reflexivity. }
  split; [exact Hlen|]. split; [exact H2|]. split; [exact H1|].
  split; [exact H3|]. split; [|reflexivity].
  apply (samplePalette_within 0 255 stops t).
  - intros E. rewrite E in Hlen. discriminate.
  - rewrite H2. vm_compute. reflexivity.
  - exact H1.
Qed.

(** X25.  The hue a face is painted with is [FACE_HUES[faceKey] || 200]: the
    table's hue, except that the right face, whose hue in the table is 0, and
    any key missing from the table get 200.  The hue is never 0, and with
    each of the six offsets of the palette the stop's hue
    [(hue + offset) % 360] is in [0, 360). *)
Theorem face_hue_is_never_zero (faceKey : option Face) :
  faceHue faceKey <> 0%Z
  /\ (0 < faceHue faceKey < 360)%Z
  /\ faceHue (Some faceR) = 200%Z /\ FACE_HUES faceR = 0%Z
  /\ faceHue None = 200%Z
  /\ (forall f, f <> faceR -> faceHue (Some f) = FACE_HUES f)
  /\ Forall (fun off => (0 <= Z.rem (faceHue faceKey + off) 360 < 360)%Z)
            offsets.
Proof.
  split; [destruct faceKey as [[]|]; discriminate|].
  split; [destruct faceKey as [[]|]; cbn; lia|].
  split; [reflexivity|]. split; [reflexivity|]. split; [reflexivity|].
  split; [intros [] H; try reflexivity; congruence|].
  destruct faceKey as [[]|]; repeat constructor; cbn; lia.
Qed.

(** ** The basis of a picked face *)

Section Basis.

Variable Math_sqrt : Qc -> Qc.
Hypothesis sqrt_1 : Math_sqrt 1 = 1.

Lemma normalize_unit (v : Vector3) :
  lengthSq v = 1 -> normalize Math_sqrt v = v.
Proof.
  intros H. unfold normalize. rewrite H, sqrt_1.
  replace (Qc_eq_bool 1 0) with false by reflexivity.
  destruct v as [vx vy vz]. cbn [x y z]. f_equal; field; discriminate.
Qed.

Lemma computeFaceBasis_side (n : Vector3) :
  lengthSq (crossVectors (mkVector3 0 1 0) n) = 1 ->
  lengthSq (crossVectors n (crossVectors (mkVector3 0 1 0) n)) = 1 ->
  computeFaceBasis Math_sqrt n
  = (crossVectors (mkVector3 0 1 0) n,
     crossVectors n (crossVectors (mkVector3 0 1 0) n)).
Proof.
  intros Hu Hv. unfold computeFaceBasis. rewrite Hu.
  replace (ltb 1 (Q2Qc (1 # 1000000))) with false by reflexivity.
  rewrite (normalize_unit _ Hu), (normalize_unit _ Hv). reflexivity.
Qed.

Lemma computeFaceBasis_level (n : Vector3) :
  lengthSq (crossVectors (mkVector3 0 1 0) n) = 0 ->
  lengthSq (crossVectors (mkVector3 1 0 0) n) = 1 ->
  lengthSq (crossVectors n (crossVectors (mkVector3 1 0 0) n)) = 1 ->
  computeFaceBasis Math_sqrt n
  = (crossVectors (mkVector3 1 0 0) n,
     crossVectors n (crossVectors (mkVector3 1 0 0) n)).
Proof.
  intros H0 Hu Hv. unfold computeFaceBasis. rewrite H0.
  replace (ltb 0 (Q2Qc (1 # 1000000))) with true by reflexivity.
  rewrite (normalize_unit _ Hu), (normalize_unit _ Hv). reflexivity.
Qed.

Lemma computeFaceBasis_faces (a : Axis) (sg : Z) :
  (sg = 1 \/ sg = -1)%Z ->
  computeFaceBasis Math_sqrt (vectorForAxis a sg)
  = match a with
    | AxisX => (mkVector3 0 0 (- ofZ sg), mkVector3 0 1 0)
    | AxisY => (mkVector3 0 0 (ofZ sg), mkVector3 1 0 0)
    | AxisZ => (mkVector3 (ofZ sg) 0 0, mkVector3 0 1 0)
    end.
Proof.
  intros [-> | ->]; destruct a;
    first [ rewrite computeFaceBasis_side
              by (apply Qc_is_canon; vm_compute; reflexivity)
          | rewrite computeFaceBasis_level
              by (apply Qc_is_canon; vm_compute; reflexivity) ];
    f_equal; apply Vector3_eqb_eq; vm_compute; reflexivity.
Qed.

End Basis.

(** X26.  For each of the six outer faces [computeFaceBasis] returns a
    right-handed orthonormal frame of the face: [u] and [v] have length 1,
    are orthogonal to each other and to the face normal, and [u x v] is the
    normal.  On the four side faces [v] is the world's up direction; on the
    top and the bottom face, where the normal is along up, the fallback
    applies and [v] is the world's right direction. *)
Theorem face_basis_is_a_frame (Math_sqrt : Qc -> Qc) (a : Axis) (sg : Z) :
  Math_sqrt 1 = 1 -> (sg = 1 \/ sg = -1)%Z ->
  let n := vectorForAxis a sg in
  let u := fst (computeFaceBasis Math_sqrt n) in
  let v := snd (computeFaceBasis Math_sqrt n) in
  lengthSq u = 1 /\ lengthSq v = 1
  /\ dot u v = 0 /\ dot u n = 0 /\ dot v n = 0
  /\ crossVectors u v = n
  /\ v = match a with
         | AxisY => mkVector3 1 0 0
         | _ => mkVector3 0 1 0
         end.
Proof.
  intros Hsqrt Hsg n u v. unfold u, v, n.
  rewrite (computeFaceBasis_faces Math_sqrt Hsqrt a sg Hsg).
  destruct Hsg as [-> | ->]; destruct a; cbn [fst snd];
    repeat split;
    first [ apply Qc_is_canon; vm_compute; reflexivity
          | apply Vector3_eqb_eq; vm_compute; reflexivity ].
Qed.

Lemma face_basis_is_a_frame_witness :
  (fun q : Qc => q) 1 = 1 /\ (1 = 1 \/ 1 = -1)%Z /\
  crossVectors (fst (computeFaceBasis (fun q => q) (vectorForAxis AxisX 1)))
               (snd (computeFaceBasis (fun q => q) (vectorForAxis AxisX 1)))
  = vectorForAxis AxisX 1.
Proof.
  split; [reflexivity|]. split; [left; reflexivity|].
  apply (face_basis_is_a_frame (fun q => q) AxisX 1 eq_refl
           (or_introl eq_refl)).
Defined.

(** ** A whole drag *)

Section Drag.

Lemma onPointerUp_released (endPoint : Vector3) (s : State) :
  isPointerDown (onPointerUp endPoint s) = false
  \/ onPointerUp endPoint s = s /\ (isPointerDown s = false \/ dragInfo s = None).
Proof.
  unfold onPointerUp. destruct (isPointerDown s) eqn:Hd; [|right; auto].
  destruct (dragInfo s) as [d|] eqn:Hi; [|right; auto].
  left.
  match goal with |- context [if ?b then _ else _] => destruct b end.
  - reflexivity.
  - unfold animateTurn. cbn [set_pointer isTurning].
    destruct (isTurning s); [reflexivity|].
    unfold completeTurn.
    cbn [set_moveHistory set_cubelets startTurn set_isTurning mode
         set_pointer].
    destruct (Mode_eqb (mode s) setup); reflexivity.
Qed.

Lemma Math_abs_0 : Math_abs 0 = 0.
Proof. reflexivity. Qed.

Lemma Math_abs_nonneg (v : Qc) : 0 <= Math_abs v.
Proof.
  unfold Math_abs. destruct (ltb v 0) eqn:E.
  - apply ltb_lt in E. apply Qclt_le_weak in E.
    apply Qcopp_le_compat in E. exact E.
  - apply ltb_ge, E.
Qed.

Lemma Math_max_abs_0 (d : Qc) : Math_max (Math_abs d) (Math_abs 0) = Math_abs d.
Proof.
  unfold Math_max. rewrite Math_abs_0.
  replace (ltb (Math_abs d) 0) with false; [reflexivity|].
  symmetry. apply ltb_ge, Math_abs_nonneg.
Qed.

Lemma Math_max_0_abs (d : Qc) : Math_max (Math_abs 0) (Math_abs d) = Math_abs d.
Proof.
  unfold Math_max. rewrite Math_abs_0.
  destruct (ltb 0 (Math_abs d)) eqn:E; [reflexivity|].
  apply ltb_ge in E. apply Qcle_antisym; [apply Math_abs_nonneg | exact E].
Qed.

End Drag.

Section Gesture.

Variable Math_sqrt : Qc -> Qc.
Hypothesis sqrt_1 : Math_sqrt 1 = 1.

Lemma drag_projection (p w e : Vector3) (d : Qc) :
  dot (sub (addScaledVector p w d) p) e = d * dot w e.
Proof.
  destruct p, w, e. unfold dot, sub, addScaledVector. cbn [x y z]. ring.
Qed.

Lemma computeFaceBasis_dots (a : Axis) (sg : Z) :
  (sg = 1 \/ sg = -1)%Z ->
  let b := computeFaceBasis Math_sqrt (vectorForAxis a sg) in
  dot (fst b) (fst b) = 1 /\ dot (fst b) (snd b) = 0
  /\ dot (snd b) (fst b) = 0 /\ dot (snd b) (snd b) = 1.
Proof.
  intros Hsg b. unfold b.
  rewrite (computeFaceBasis_faces Math_sqrt sqrt_1 a sg Hsg).
  destruct Hsg as [-> | ->]; destruct a; cbn [fst snd];
    (split; [|split; [|split]]); apply Qc_is_canon; vm_compute; reflexivity.
Qed.

Lemma leb_gt (a b : Qc) : b < a -> leb a b = false.
Proof.
  intros H. destruct (leb a b) eqn:E; [|reflexivity].
  apply leb_le in E. exfalso. exact (Qclt_not_le _ _ H E).
Qed.

Lemma threshold_positive (d : Qc) : threshold <= Math_abs d -> 0 < Math_abs d.
Proof.
  intros H. apply Qclt_le_trans with threshold; [reflexivity | exact H].
Qed.

Lemma picked_face (a : Axis) (sg : Z) (p : Vector3) (s : State) :
  (sg = 1 \/ sg = -1)%Z -> isTurning s = false ->
  onPointerDown (Some (pickFace Math_sqrt a sg p)) s
  = set_pointer true
      (Some (mkDragInfo a sg p
               (fst (computeFaceBasis Math_sqrt (vectorForAxis a sg)))
               (snd (computeFaceBasis Math_sqrt (vectorForAxis a sg))))) s.
Proof.
  intros Hsg Ht. unfold onPointerDown, pickFace. rewrite Ht.
  cbn [faceNormal pickPoint pick_u pick_v].
  replace (axisOfVector (vectorForAxis a sg)) with a
    by (destruct a; destruct Hsg as [-> | ->]; reflexivity).
  replace (Math_sign_or_1 (component (vectorForAxis a sg) a)) with sg
    by (destruct a; destruct Hsg as [-> | ->]; reflexivity).
  reflexivity.
Qed.

End Gesture.

(** X27.  A release uses up the press.  [onPointerUp] is bound to both
    [pointerup] and [pointerleave]; whatever the first release did, a second
    one changes nothing, so one press gives at most one turn.  A press that
    misses the cube never leads to a turn: after its release the cubelets
    and the history are as before. *)
Theorem release_uses_up_the_press (e1 e2 : Vector3) (s : State) :
  onPointerUp e2 (onPointerUp e1 s) = onPointerUp e1 s
  /\ cubelets (onPointerUp e1 (onPointerDown None s)) = cubelets s
  /\ moveHistory (onPointerUp e1 (onPointerDown None s)) = moveHistory s.
Proof.
  split.
  - destruct (onPointerUp_released e1 s) as [H | [H1 H2]].
    + unfold onPointerUp at 1. rewrite H. reflexivity.
    + rewrite H1. unfold onPointerUp.
      destruct H2 as [-> | ->]; [reflexivity|].
      destruct (isPointerDown s); reflexivity.
  - unfold onPointerDown. destruct (isTurning s) eqn:Ht.
    + unfold onPointerUp.
      destruct (isPointerDown s); [|split; reflexivity].
      destruct (dragInfo s); [|split; reflexivity].
      match goal with |- context [if ?b then _ else _] => destruct b end;
        [split; reflexivity|].
      unfold animateTurn. cbn [set_pointer isTurning]. rewrite Ht.
      split; reflexivity.
    + unfold onPointerUp. cbn [set_pointer isPointerDown].
      split; reflexivity.
Qed.

(** X28.  A whole drag on an outer face.  With no turn in flight, a press
    on the face with normal [vectorForAxis axis sign], followed by a release
    [d] away along the face's [u] or [v] direction with [|d|] at least the
    threshold 0.18, turns that face's layer by one quarter and records it:
    clockwise when the drag went along [+u] or along [-v], counter-clockwise
    along [-u] or [+v]. *)
Theorem drag_turns_the_picked_face (Math_sqrt : Qc -> Qc) (a : Axis) (sg : Z)
    (p : Vector3) (d : Qc) (alongU : bool) (s : State) :
  Math_sqrt 1 = 1 -> (sg = 1 \/ sg = -1)%Z -> isTurning s = false ->
  threshold <= Math_abs d ->
  let basis := computeFaceBasis Math_sqrt (vectorForAxis a sg) in
  let dir := if alongU then fst basis else snd basis in
  let m := mkMove a sg (if alongU then ltb 0 d else ltb d 0) 1 in
  let s' := onPointerUp (addScaledVector p dir d)
              (onPointerDown (Some (pickFace Math_sqrt a sg p)) s) in
  s' = animateTurn m true (set_pointer false None s)
  /\ cubelets s' = turnCubelets m (cubelets s)
  /\ moveHistory s' = moveHistory s ++ [m].
Proof.
  intros Hsqrt Hsg Ht Hd basis dir m s'.
  assert (Hs : s' = animateTurn m true (set_pointer false None s)).
  { unfold s'. rewrite (picked_face Math_sqrt a sg p s Hsg Ht).
    unfold onPointerUp.
    cbn [set_pointer isPointerDown dragInfo startPoint uVec vVec d_axis d_sign
         cubelets isTurning moveHistory mode setupCount setupSequence].
    rewrite !drag_projection.
    destruct (computeFaceBasis_dots Math_sqrt Hsqrt a sg Hsg)
      as (Huu & Huv & Hvu & Hvv).
    fold basis in Huu, Huv, Hvu, Hvv |- *.
    pose proof (threshold_positive d Hd) as Hpos.
    unfold m, dir. destruct alongU.
    - rewrite Huu, Huv, Qcmult_1_r, Qcmult_0_r, Math_max_abs_0.
      replace (ltb (Math_abs d) threshold) with false
        by (symmetry; apply ltb_ge, Hd).
      replace (leb (Math_abs 0) (Math_abs d)) with true
        by (symmetry; apply leb_le, Math_abs_nonneg).
      reflexivity.
    - rewrite Hvu, Hvv, Qcmult_1_r, Qcmult_0_r, Math_max_0_abs.
      replace (ltb (Math_abs d) threshold) with false
        by (symmetry; apply ltb_ge, Hd).
      rewrite (leb_gt (Math_abs d) (Math_abs 0) Hpos). reflexivity. }
  split; [exact Hs|].
  rewrite Hs. split.
  - rewrite cubelets_animateTurn. cbn [set_pointer isTurning cubelets].
    rewrite Ht. reflexivity.
  - apply (moveHistory_recorded m (set_pointer false None s)). exact Ht.
Qed.

Lemma drag_turns_the_picked_face_witness :
  (fun q : Qc => q) 1 = 1 /\ (1 = 1 \/ 1 = -1)%Z
  /\ isTurning initialState = false /\ threshold <= Math_abs 1
  /\ moveHistory
       (onPointerUp
          (addScaledVector (mkVector3 0 0 (Q2Qc (3 # 2)))
             (fst (computeFaceBasis (fun q => q) (vectorForAxis AxisZ 1))) 1)
          (onPointerDown
             (Some (pickFace (fun q => q) AxisZ 1
                      (mkVector3 0 0 (Q2Qc (3 # 2))))) initialState))
     = moveHistory initialState ++ [mkMove AxisZ 1 (ltb 0 1) 1].
Proof.
  split; [reflexivity|]. split; [left; reflexivity|].
  split; [reflexivity|]. split; [discriminate|].
  apply (drag_turns_the_picked_face (fun q => q) AxisZ 1
           (mkVector3 0 0 (Q2Qc (3 # 2))) 1 true initialState eq_refl
           (or_introl eq_refl) eq_refl).
  discriminate.
Defined.

(** X30.  Rounding keeps the positions exact.  From cubelets on lattice
    points, after any sequence of turns, in every arithmetic that is
    accurate at these turns: each cubelet is at the position that exact
    arithmetic gives, on a lattice point, with the home it had, and each
    layer holds the cubelets that it holds in exact arithmetic. *)
Theorem rounding_keeps_exact_positions (attached : Attached)
    (ms : list Move) (cs : list Cubelet) :
  Forall (accurate attached) ms ->
  Forall (fun c => In (position c) lattice) cs ->
  map position (turnsWith attached ms cs) = map position (turns ms cs)
  /\ map home (turnsWith attached ms cs) = map home (turns ms cs)
  /\ Forall (fun c => In (position c) lattice) (turnsWith attached ms cs)
  /\ (forall a sg,
        map (inLayer a sg) (turnsWith attached ms cs)
        = map (inLayer a sg) (turns ms cs)).
Proof.
  intros Hacc Hcs.
  destruct (positions_turnsWith attached ms cs cs Hacc Hcs eq_refl)
    as [Hpos Hlat].
  split; [exact Hpos|]. split.
  { rewrite homes_turnsWith, turns_home. reflexivity. }
  split; [exact Hlat|].
  intros a sg.
  assert (E : forall l : list Cubelet,
             map (inLayer a sg) l
             = map (fun p => (roundedIndex (component p a) =? sg)%Z)
                   (map position l)).
  { intros l. rewrite map_map. reflexivity. }
  rewrite !E, Hpos. reflexivity.
Qed.

Lemma rounding_keeps_exact_positions_witness :
  Forall (accurate looseAttach) [turnR; mkMove AxisZ 0 false 1]
  /\ Forall (fun c => In (position c) lattice) buildSolvedCube
  /\ map position
       (turnsWith looseAttach [turnR; mkMove AxisZ 0 false 1] buildSolvedCube)
     = map position (turns [turnR; mkMove AxisZ 0 false 1] buildSolvedCube).
Proof.
  split; [apply looseAttach_accurate|].
  split; [exact buildSolvedCube_on_lattice|].
  apply (rounding_keeps_exact_positions looseAttach
           [turnR; mkMove AxisZ 0 false 1] buildSolvedCube
           (looseAttach_accurate _) buildSolvedCube_on_lattice).
Defined.
